(** * Memory retrieval and adaptive weighting (YutongCode/new_adaptive_agent.py)

    A shallow embedding of the memory-graph builder, the activity locator,
    the relevance scorer, the adaptive search weights and the query
    orchestrator, together with the properties stated about them.

    Conventions of the embedding.
    - Python floats are modelled as exact rationals ([Q]); equality of
      weights and scores is [Qeq] (written [==]).  Where rounding decides a
      property, [SearchWeights.adjust] is modelled a second time on
      binary64 numbers (module [Binary64]): the rationals with a 53-bit
      significand, every operation rounded to the nearest of them.
    - Values loaded from JSON whose shape the code does not fix (collaborator
      replies, keyword terms, attribute bags) are values of type [json]; a
      Python dict is an insertion-ordered association list with unique keys.
    - Patient records are typed by the keys the code reads: a key read by
      subscript is a field, a key read with [.get] is an optional field.
    - Code that can raise returns a [result]; code that also mutates the
      agent lives in the state-and-exception monad [M], in which the state
      written before a raise is kept, as it is in Python. *)

From Stdlib Require Import List String Ascii Bool Arith ZArith QArith Lia Lqa.
From Stdlib Require Import Qround Qpower.
From Stdlib Require Import DecimalString.
From Stdlib Require Import Permutation Sorted.
Import ListNotations.

Set Warnings "-register-all".

Local Open Scope string_scope.
Local Open Scope Q_scope.

(* ------------------------------------------------------------------ *)
(** ** Exceptions and results *)

Inductive exn : Type :=
| KeyError
| TypeError
| AttributeError
| ZeroDivisionError
| JSONDecodeError
| APIError.

Inductive result (A : Type) : Type :=
| Ok (a : A)
| Raise (e : exn).

Arguments Ok {A} a.
Arguments Raise {A} e.

Definition rbind {A B} (r : result A) (k : A -> result B) : result B :=
  match r with
  | Ok a => k a
  | Raise e => Raise e
  end.

Definition raises {A} (r : result A) : bool :=
  match r with
  | Ok _ => false
  | Raise _ => true
  end.

(* ------------------------------------------------------------------ *)
(** ** JSON values and Python dicts *)

Inductive json : Type :=
| JNull
| JBool (b : bool)
| JInt (z : Z)
| JFloat (q : Q)
| JStr (s : string)
| JList (l : list json)
| JDict (d : list (string * json)).

Definition dict := list (string * json).

(** [d.get(k)]: the value stored under [k], if any. *)
Fixpoint dict_get (k : string) (d : dict) : option json :=
  match d with
  | [] => None
  | (k', v) :: d' => if String.eqb k k' then Some v else dict_get k d'
  end.

(** [d[k] = v]: replaces the value in place when the key is present and
    appends the item otherwise (insertion order is kept). *)
Fixpoint dict_set (k : string) (v : json) (d : dict) : dict :=
  match d with
  | [] => [(k, v)]
  | (k', v') :: d' =>
      if String.eqb k k' then (k, v) :: d' else (k', v') :: dict_set k v d'
  end.

(** [d.update(other)]. *)
Definition dict_update (d other : dict) : dict :=
  fold_left (fun acc kv => dict_set (fst kv) (snd kv) acc) other d.

(** [x[k]] on a JSON value: [KeyError] on a dict without the key,
    [TypeError] on a value that is not a dict. *)
Definition getitem (x : json) (k : string) : result json :=
  match x with
  | JDict d =>
      match dict_get k d with
      | Some v => Ok v
      | None => Raise KeyError
      end
  | _ => Raise TypeError
  end.

(** [x == s] for a string literal [s]. *)
Definition eq_str (x : json) (s : string) : bool :=
  match x with
  | JStr s' => String.eqb s' s
  | _ => false
  end.

(** Python truthiness of a JSON value. *)
Definition truthy (x : json) : bool :=
  match x with
  | JNull => false
  | JBool b => b
  | JInt z => negb (Z.eqb z 0)
  | JFloat q => negb (Qeq_bool q 0)
  | JStr s => negb (String.eqb s "")
  | JList l => match l with [] => false | _ => true end
  | JDict d => match d with [] => false | _ => true end
  end.

(* ------------------------------------------------------------------ *)
(** ** SearchWeights *)

Record SearchWeights : Type := mkSearchWeights {
  routine_weight : Q;
  story_weight : Q;
  min_weight : Q;
  max_weight : Q
}.

(** The dataclass defaults. *)
Definition default_weights : SearchWeights :=
  mkSearchWeights (5 # 10) (5 # 10) (2 # 10) (8 # 10).

Definition set_routine_weight (w : SearchWeights) (x : Q) : SearchWeights :=
  mkSearchWeights x (story_weight w) (min_weight w) (max_weight w).

Definition set_story_weight (w : SearchWeights) (x : Q) : SearchWeights :=
  mkSearchWeights (routine_weight w) x (min_weight w) (max_weight w).

(** Python's [min(a, b)]: [b] when [b < a], else [a]. *)
Definition py_min (a b : Q) : Q := if Qle_bool a b then a else b.

(** [SearchWeights.adjust]: the outcome of the call and the weights it
    leaves behind. *)
Definition adjust (effectiveness : json) (self : SearchWeights)
  : result unit * SearchWeights :=
  match getitem effectiveness "focus_recommendation" with
  | Raise e => (Raise e, self)
  | Ok rec =>
      let self1 :=
        if eq_str rec "routine" then
          set_routine_weight self
            (py_min (max_weight self) (routine_weight self + (1 # 10)))
        else if eq_str rec "memory" then
          set_story_weight self
            (py_min (max_weight self) (story_weight self + (1 # 10)))
        else self in
      let total := routine_weight self1 + story_weight self1 in
      if Qeq_bool total 0 then (Raise ZeroDivisionError, self1)
      else
        let self2 := set_routine_weight self1 (routine_weight self1 / total) in
        (Ok tt, set_story_weight self2 (story_weight self2 / total))
  end.

(** The weights left behind by a sequence of [adjust] calls. *)
Definition adjust_all (effs : list json) (w : SearchWeights) : SearchWeights :=
  fold_left (fun acc eff => snd (adjust eff acc)) effs w.

(** The band invariant kept by [adjust]. *)
Definition in_band (w : SearchWeights) : Prop :=
  min_weight w == 2 # 10 /\ max_weight w == 8 # 10 /\
  routine_weight w + story_weight w == 1 /\
  2 # 10 <= routine_weight w /\ routine_weight w <= 8 # 10.

(* ------------------------------------------------------------------ *)
(** ** SearchWeights on binary64 floats *)

Module Binary64.

(** The integer nearest to [x]; of two equally near ones, the even one. *)
Definition nearest_even (x : Q) : Z :=
  let f := Qfloor x in
  match Qcompare (x - inject_Z f) (1 # 2) with
  | Lt => f
  | Gt => (f + 1)%Z
  | Eq => if Z.even f then f else (f + 1)%Z
  end.

(** The binary exponent of a positive rational: the [e] with
    [2^e <= x < 2^(e+1)]. *)
Definition exponent (x : Q) : Z :=
  let e0 := (Z.log2 (Qnum x) - Z.log2 (Zpos (Qden x)))%Z in
  if Qle_bool (2 ^ e0) x then e0 else (e0 - 1)%Z.

(** A positive rational rounded to 53 significant bits. *)
Definition round_pos (x : Q) : Q :=
  let e := exponent x in
  inject_Z (nearest_even (x * 2 ^ (52 - e))) * 2 ^ (e - 52).

(** The binary64 number nearest to [x], ties to even, as a fraction in
    lowest terms.  The exponent range of the format is not modelled: the
    weights and their sums lie between 0.1 and 2. *)
Definition round (x : Q) : Q :=
  match Qcompare x 0 with
  | Eq => 0
  | Gt => Qred (round_pos (Qred x))
  | Lt => Qred (- round_pos (Qred (- x)))
  end.

(** Half the distance between 1 and the next binary64 number: the
    relative error of one rounding is at most [2^-53]. *)
Definition half_ulp : Q := 1 # 9007199254740992.

(** [a + b] and [a / b] on floats. *)
Definition add (a b : Q) : Q := round (a + b).
Definition div (a b : Q) : Q := round (a / b).

(** The dataclass defaults: the floats the literals 0.5, 0.2 and 0.8
    denote. *)
Definition default_weights : SearchWeights :=
  mkSearchWeights (round (5 # 10)) (round (5 # 10)) (round (2 # 10)) (round (8 # 10)).

(** [SearchWeights.adjust] on floats; [0.1] is the float the literal
    denotes. *)
Definition adjust (effectiveness : json) (self : SearchWeights)
  : result unit * SearchWeights :=
  match getitem effectiveness "focus_recommendation" with
  | Raise e => (Raise e, self)
  | Ok rec =>
      let self1 :=
        if eq_str rec "routine" then
          set_routine_weight self
            (py_min (max_weight self) (add (routine_weight self) (round (1 # 10))))
        else if eq_str rec "memory" then
          set_story_weight self
            (py_min (max_weight self) (add (story_weight self) (round (1 # 10))))
        else self in
      let total := add (routine_weight self1) (story_weight self1) in
      if Qeq_bool total 0 then (Raise ZeroDivisionError, self1)
      else
        let self2 := set_routine_weight self1 (div (routine_weight self1) total) in
        (Ok tt, set_story_weight self2 (div (story_weight self2) total))
  end.

(** The weights left behind by a sequence of [adjust] calls. *)
Definition adjust_all (effs : list json) (w : SearchWeights) : SearchWeights :=
  fold_left (fun acc eff => snd (adjust eff acc)) effs w.

(** What [adjust] keeps of a state on floats: the weights are positive
    binary64 numbers and their sum is 1 up to three roundings. *)
Definition near_one (w : SearchWeights) : Prop :=
  0 < max_weight w /\
  0 < routine_weight w /\ 0 < story_weight w /\
  round (routine_weight w) = routine_weight w /\
  round (story_weight w) = story_weight w /\
  1 - 3 * half_ulp <= routine_weight w + story_weight w /\
  routine_weight w + story_weight w <= 1 + 3 * half_ulp.

End Binary64.

(* ------------------------------------------------------------------ *)
(** ** Strings: [lower], [in], [strftime("%H:%M")], [json.dumps] *)

(** [str.lower] on ASCII text. *)
Definition lower_ascii (c : ascii) : ascii :=
  let n := nat_of_ascii c in
  if (65 <=? n)%nat && (n <=? 90)%nat then ascii_of_nat (n + 32) else c.

Fixpoint lower (s : string) : string :=
  match s with
  | EmptyString => EmptyString
  | String c s' => String (lower_ascii c) (lower s')
  end.

(** [needle in hay] on strings; the empty string occurs in every string. *)
Fixpoint contains (needle hay : string) : bool :=
  if String.prefix needle hay then true
  else match hay with
       | EmptyString => false
       | String _ hay' => contains needle hay'
       end.

Record datetime : Type := mkTime { hour : nat; minute : nat }.

Definition digit (n : nat) : ascii := ascii_of_nat (48 + n).

Definition two_digits (n : nat) : string :=
  String (digit (n / 10 mod 10)) (String (digit (n mod 10)) EmptyString).

(** [time.strftime("%H:%M")]. *)
Definition strftime_HM (t : datetime) : string :=
  two_digits (hour t) ++ ":" ++ two_digits (minute t).

Section Serialization.

(** Python's [repr] of a float, a function of the runtime library. *)
Variable float_repr : Q -> string.

Definition dquote : ascii := ascii_of_nat 34.
Definition backslash : ascii := ascii_of_nat 92.

Definition escaped (c : ascii) : string :=
  String backslash (String c EmptyString).

Definition escape_char (c : ascii) : string :=
  let n := nat_of_ascii c in
  if (n =? 34)%nat then escaped dquote
  else if (n =? 92)%nat then escaped backslash
  else if (n =? 10)%nat then escaped "n"%char
  else if (n =? 13)%nat then escaped "r"%char
  else if (n =? 9)%nat then escaped "t"%char
  else String c EmptyString.

Fixpoint escape (s : string) : string :=
  match s with
  | EmptyString => EmptyString
  | String c s' => escape_char c ++ escape s'
  end.

Definition quote (s : string) : string :=
  String dquote (escape s ++ String dquote EmptyString).

(** [json.dumps] with its default separators, on ASCII strings without
    control characters other than newline, carriage return and tab. *)
Fixpoint json_dumps (j : json) : string :=
  match j with
  | JNull => "null"
  | JBool true => "true"
  | JBool false => "false"
  | JInt z => NilEmpty.string_of_int (Z.to_int z)
  | JFloat q => float_repr q
  | JStr s => quote s
  | JList l =>
      "[" ++
      (fix items (l : list json) : string :=
         match l with
         | [] => ""
         | x :: r =>
             match r with
             | [] => json_dumps x
             | _ :: _ => json_dumps x ++ ", " ++ items r
             end
         end) l ++ "]"
  | JDict d =>
      "{" ++
      (fix items (d : list (string * json)) : string :=
         match d with
         | [] => ""
         | (k, v) :: r =>
             match r with
             | [] => quote k ++ ": " ++ json_dumps v
             | _ :: _ => quote k ++ ": " ++ json_dumps v ++ ", " ++ items r
             end
         end) d ++ "}"
  end.

End Serialization.

(* ------------------------------------------------------------------ *)
(** ** Patient records *)

Module Routine.

(** A participant of an activity: [{"role": ..., "name": ...}]. *)
Record Participant : Type := mkParticipant {
  role : string;
  name : string
}.

(** One entry of [routine_data['activities']].  [participants] is read
    with [.get('participants', [])] and may be absent. *)
Record Activity : Type := mkActivity {
  time_start : string;
  time_end : string;
  activity : string;
  location : string;
  participants : option (list Participant);
  details : string
}.

Definition participant_items (p : Participant) : dict :=
  [("role", JStr (role p)); ("name", JStr (name p))].

(** The items of the activity's dict, as spread by [**activity]. *)
Definition activity_items (a : Activity) : dict :=
  ([("time_start", JStr (time_start a)); ("time_end", JStr (time_end a));
    ("activity", JStr (activity a)); ("location", JStr (location a))]
   ++ match participants a with
      | Some ps => [("participants", JList (map (fun p => JDict (participant_items p)) ps))]
      | None => []
      end
   ++ [("details", JStr (details a))])%list.

(** [activity.get('participants', [])]. *)
Definition get_participants (a : Activity) : list Participant :=
  match participants a with
  | Some ps => ps
  | None => []
  end.

End Routine.

Module Story.

(** A memory of the life story.  [id] and [people] are read with [.get]
    and may be absent; [id] holds the text the identifier formats to. *)
Record Memory : Type := mkMemory {
  id : option string;
  year : Z;
  title : string;
  description : string;
  details : string;
  impact : string;
  people : option (list string)
}.

Record Interview : Type := mkInterview {
  interview_memories : list Memory
}.

(** The life-story record: [memories] is read with [.get('memories', [])]
    by [construct_memory_network], [interviews] by subscript by
    [construct_memory_networks]. *)
Record StoryData : Type := mkStoryData {
  memories : option (list Memory);
  interviews : list Interview
}.

Definition memory_items (m : Memory) : dict :=
  (match id m with
   | Some i => [("id", JStr i)]
   | None => []
   end
   ++ [("year", JInt (year m)); ("title", JStr (title m));
       ("description", JStr (description m)); ("details", JStr (details m));
       ("impact", JStr (impact m))]
   ++ match people m with
      | Some ps => [("people", JList (map JStr ps))]
      | None => []
      end)%list.

Definition get_people (m : Memory) : list string :=
  match people m with
  | Some ps => ps
  | None => []
  end.

Definition get_memories (s : StoryData) : list Memory :=
  match memories s with
  | Some ms => ms
  | None => []
  end.

End Story.

Import Routine Story.

(* ------------------------------------------------------------------ *)
(** ** The memory graph (networkx.MultiDiGraph) *)

(** Nodes in insertion order with their attribute dicts.  [edges] is the
    log of the [add_edge] calls, one entry per call (parallel edges are
    repeated entries): it holds the edges of the graph as a multiset; the
    order in which networkx lists them (by source, then by target) is not
    modelled. *)
Record Graph : Type := mkGraph {
  nodes : list (string * dict);
  edges : list (string * string * dict)
}.

Definition empty_graph : Graph := mkGraph [] [].

(** [n in G]. *)
Definition has_node (n : string) (G : Graph) : bool :=
  existsb (fun nd => String.eqb n (fst nd)) (nodes G).

(** [G.add_node(n, **attr)]: a new node gets [attr]; the attribute dict of
    an existing node is updated with [attr]. *)
Definition add_node (n : string) (attr : dict) (G : Graph) : Graph :=
  if has_node n G then
    mkGraph
      (map (fun nd => if String.eqb n (fst nd)
                      then (fst nd, dict_update (snd nd) attr) else nd)
           (nodes G))
      (edges G)
  else mkGraph (nodes G ++ [(n, attr)])%list (edges G).

(** [G.add_edge(u, v, **attr)]: endpoints that are not nodes yet are added
    without attributes; every call adds one more edge. *)
Definition add_edge (u v : string) (attr : dict) (G : Graph) : Graph :=
  let G1 := if has_node u G then G else mkGraph (nodes G ++ [(u, [])])%list (edges G) in
  let G2 := if has_node v G1 then G1 else mkGraph (nodes G1 ++ [(v, [])])%list (edges G1) in
  mkGraph (nodes G2) (edges G2 ++ [(u, v, attr)])%list.

Definition node_attrs (n : string) (G : Graph) : option dict :=
  option_map snd (find (fun nd => String.eqb n (fst nd)) (nodes G)).

Definition involves : dict := [("type", JStr "involves")].

Definition activity_id_of (label : string) : string := "activity_" ++ label.
Definition person_id_of (person : string) : string := "person_" ++ person.
Definition memory_id_of (ident : string) : string := "memory_" ++ ident.

Section Builder.

(** The text of [hash(str(memory))] and of [hash(memory['description'])]:
    Python's string hash, which differs from one process to the next. *)
Variable hash_memory : Memory -> string.
Variable hash_description : string -> string.

(** Body of the loop over the participants of one activity. *)
Definition add_participant (activity_id : string) (G : Graph) (person : Participant) : Graph :=
  let person_id := person_id_of (name person) in
  let G := add_node person_id (("type", JStr "person") :: participant_items person) G in
  add_edge activity_id person_id involves G.

(** Body of the loop over the activities. *)
Definition add_activity (G : Graph) (a : Activity) : Graph :=
  let activity_id := activity_id_of (activity a) in
  let G := add_node activity_id (("type", JStr "activity") :: activity_items a) G in
  fold_left (add_participant activity_id) (get_participants a) G.

(** Body of the loop over the people of one memory. *)
Definition add_memory_person (memory_id : string) (G : Graph) (person : string) : Graph :=
  let person_id := person_id_of person in
  if has_node person_id G then add_edge memory_id person_id involves G else G.

(** Body of the loop over the memories, for a given fallback identifier. *)
Definition add_memory (fallback : Memory -> string) (G : Graph) (m : Memory) : Graph :=
  let memory_id :=
    memory_id_of (match id m with Some i => i | None => fallback m end) in
  let G := add_node memory_id (("type", JStr "memory") :: memory_items m) G in
  fold_left (add_memory_person memory_id) (get_people m) G.

(** [MemoryGraphManager.construct_memory_network] (new_adaptive_agent.py). *)
Definition construct_memory_network (routine_data : list Activity) (story_data : StoryData) : Graph :=
  let G := fold_left add_activity routine_data empty_graph in
  fold_left (add_memory hash_memory) (get_memories story_data) G.

(** [MemoryGraphManager.construct_memory_networks]
    (AdaptiveDialogueAgent.py): the memories are those of the interviews. *)
Definition construct_memory_networks (routine_data : list Activity) (story_data : StoryData) : Graph :=
  let G := fold_left add_activity routine_data empty_graph in
  fold_left
    (fun G interview =>
       fold_left (add_memory (fun m => hash_description (description m)))
                 (interview_memories interview) G)
    (interviews story_data) G.

End Builder.

(* ------------------------------------------------------------------ *)
(** ** Activity locator *)

(** [activity['time_start'] <= time_str <= activity['time_end']], on
    strings. *)
Definition interval_contains (time_str : string) (a : Activity) : bool :=
  String.leb (time_start a) time_str && String.leb time_str (time_end a).

(** [MemoryGraphManager.get_activity_at_time]. *)
Definition get_activity_at_time (routine_data : list Activity) (time : datetime) : option Activity :=
  let time_str := strftime_HM time in
  find (interval_contains time_str) routine_data.

(** [MemoryGraphManager.get_current_activity] (AdaptiveDialogueAgent.py). *)
Definition get_current_activity (routine_data : list Activity) (current_time : datetime) : option Activity :=
  let time_str := strftime_HM current_time in
  find (interval_contains time_str) routine_data.

(* ------------------------------------------------------------------ *)
(** ** Search configuration *)

Module Config.

Record SearchPriorities : Type := mkSearchPriorities {
  people : Q;
  events : Q;
  time : Q;
  location : Q
}.

Definition default_priorities : SearchPriorities :=
  mkSearchPriorities (4 # 10) (3 # 10) (2 # 10) (1 # 10).

Record RelevanceThresholds : Type := mkRelevanceThresholds {
  min_score : Q;
  strong_match : Q;
  keyword_overlap : Q
}.

Definition default_thresholds : RelevanceThresholds :=
  mkRelevanceThresholds (5 # 10) (7 # 10) (3 # 10).

(** What [getattr] finds under a name: the number held by a field, or one
    of the objects every instance carries besides its fields (a method, a
    string, a dict, a tuple, [None]), none of which is a number. *)
Inductive attribute : Type :=
| Number (q : Q)
| NotNumber.

(** The names an instance of the dataclass answers besides its four
    fields: the attributes of [object] and those [@dataclass] gives the
    class (CPython 3.11). *)
Definition class_attributes : list string :=
  ["__annotations__"; "__class__"; "__dataclass_fields__";
   "__dataclass_params__"; "__delattr__"; "__dict__"; "__dir__"; "__doc__";
   "__eq__"; "__format__"; "__ge__"; "__getattribute__"; "__getstate__";
   "__gt__"; "__hash__"; "__init__"; "__init_subclass__"; "__le__"; "__lt__";
   "__match_args__"; "__module__"; "__ne__"; "__new__"; "__reduce__";
   "__reduce_ex__"; "__repr__"; "__setattr__"; "__sizeof__"; "__str__";
   "__subclasshook__"; "__weakref__"].

(** [getattr(self.priorities, category)]: the four fields give their
    weight, the name of another attribute of the instance gives that
    attribute, any other name raises [AttributeError]. *)
Definition getattr (p : SearchPriorities) (category : string) : result attribute :=
  if String.eqb category "people" then Ok (Number (people p))
  else if String.eqb category "events" then Ok (Number (events p))
  else if String.eqb category "time" then Ok (Number (time p))
  else if String.eqb category "location" then Ok (Number (location p))
  else if existsb (String.eqb category) class_attributes then Ok NotNumber
  else Raise AttributeError.

(** [score += matches * weight]: with a weight that is not a number the
    product, or the sum with the float [score], raises [TypeError]. *)
Definition add_matches (score : Q) (matches : nat) (weight : attribute) : result Q :=
  match weight with
  | Number w => Ok (score + inject_Z (Z.of_nat matches) * w)
  | NotNumber => Raise TypeError
  end.

End Config.

(* ------------------------------------------------------------------ *)
(** ** Relevance scorer *)

(** [for x in v] on a JSON value: the elements of a list, the characters
    of a string, the keys of a dict; other values are not iterable. *)
Definition iterate (v : json) : result (list json) :=
  match v with
  | JList l => Ok l
  | JStr s => Ok (map (fun c => JStr (String c EmptyString)) (list_ascii_of_string s))
  | JDict d => Ok (map (fun kv => JStr (fst kv)) d)
  | _ => Raise TypeError
  end.

(** [a or b]. *)
Definition py_or (a b : json) : json := if truthy a then a else b.

(** [d.get(k)], with [None] for an absent key. *)
Definition get_or_none (k : string) (d : dict) : json :=
  match dict_get k d with
  | Some v => v
  | None => JNull
  end.

(** The value bound to [term_str] by the [isinstance] cascade. *)
Definition normalize_term (term : json) : json :=
  match term with
  | JDict d => py_or (py_or (get_or_none "term" d) (get_or_none "name" d)) (JStr "")
  | JStr s => JStr s
  | _ => JStr ""
  end.

(** [term_str.lower()]: only strings have the method. *)
Definition str_lower (v : json) : result string :=
  match v with
  | JStr s => Ok (lower s)
  | _ => Raise AttributeError
  end.

(** The inner loop over the terms of one category. *)
Fixpoint count_matches (text : string) (terms : list json) (matches : nat) : result nat :=
  match terms with
  | [] => Ok matches
  | term :: rest =>
      rbind (str_lower (normalize_term term)) (fun t =>
      count_matches text rest (if contains t text then S matches else matches))
  end.

(** The outer loop over [keywords.items()]. *)
Fixpoint score_categories (p : Config.SearchPriorities) (text : string)
    (items : list (string * json)) (score : Q) : result Q :=
  match items with
  | [] => Ok score
  | (category, terms) :: rest =>
      rbind (Config.getattr p category) (fun weight =>
      rbind (iterate terms) (fun ts =>
      rbind (count_matches text ts 0) (fun matches =>
      rbind (Config.add_matches score matches weight) (fun score' =>
      score_categories p text rest score'))))
  end.

Section Scorer.

Variable float_repr : Q -> string.

(** [ReflectiveMemoryAgent._calculate_relevance]. *)
Definition _calculate_relevance (priorities : Config.SearchPriorities)
    (content : dict) (keywords : json) : result Q :=
  let text := lower (json_dumps float_repr (JDict content)) in
  match keywords with
  | JDict items => score_categories priorities text items 0
  | _ => Raise AttributeError
  end.

End Scorer.

(* ------------------------------------------------------------------ *)
(** ** Candidates and the broadening search *)

Record Candidate : Type := mkCandidate {
  type : json;
  content : dict;
  relevance : Q;
  source : string
}.

(** [sorted(results, key=lambda x: x['relevance'], reverse=True)]: a stable
    sort, elements of equal relevance keep their order. *)
Fixpoint insert_desc (x : Candidate) (l : list Candidate) : list Candidate :=
  match l with
  | [] => [x]
  | y :: l' =>
      if Qle_bool (relevance y) (relevance x) then x :: y :: l'
      else y :: insert_desc x l'
  end.

Definition sorted_reverse (l : list Candidate) : list Candidate :=
  fold_right insert_desc [] l.

Section Search.

Variable float_repr : Q -> string.

(** The candidate built for one node, with its weighted relevance. *)
Definition weigh_node (weights : SearchWeights) (priorities : Config.SearchPriorities)
    (keywords : json) (node : string * dict) : result Candidate :=
  rbind (_calculate_relevance float_repr priorities (snd node) keywords) (fun relevance =>
  rbind (getitem (JDict (snd node)) "type") (fun ty =>
  let source_type := if eq_str ty "activity" then "routine" else "story" in
  let weight := if String.eqb source_type "routine"
                then routine_weight weights else story_weight weights in
  let weighted_relevance := relevance * weight in
  Ok (mkCandidate ty (snd node) weighted_relevance source_type))).

(** The loop over [memory_network.nodes(data=True)]. *)
Fixpoint search_nodes (weights : SearchWeights) (priorities : Config.SearchPriorities)
    (thresholds : Config.RelevanceThresholds) (keywords : json)
    (nds : list (string * dict)) (results : list Candidate) : result (list Candidate) :=
  match nds with
  | [] => Ok results
  | node :: rest =>
      rbind (weigh_node weights priorities keywords node) (fun c =>
      search_nodes weights priorities thresholds keywords rest
        (if Qle_bool (Config.min_score thresholds) (relevance c)
         then (results ++ [c])%list else results))
  end.

(** [ReflectiveMemoryAgent._search_knowledge_graphs]. *)
Definition _search_knowledge_graphs (weights : SearchWeights)
    (priorities : Config.SearchPriorities) (thresholds : Config.RelevanceThresholds)
    (memory_network : Graph) (keywords : json) : result (list Candidate) :=
  rbind (search_nodes weights priorities thresholds keywords (nodes memory_network) [])
        (fun results => Ok (firstn 4 (sorted_reverse results))).

End Search.

(* ------------------------------------------------------------------ *)
(** ** The agent and its external collaborator *)

(** What one [client.chat.completions.create] call followed by
    [json.loads] of the reply's content comes to: the call raises, the
    content is not valid JSON, or the content parses to a value. *)
Inductive reply : Type :=
| CallFails
| Malformed
| Json (j : json).

(** The requests sent to the collaborator, by the prompt they carry. *)
Inductive request : Type :=
| AnalyzeRequest (text time_str current_activity : string)
| ExpandRequest (keywords : json)
| EvaluateRequest (text : string) (results : list Candidate).

Record MemoryGraphManager : Type := mkMemoryGraphManager {
  profile : json;
  story_data : StoryData;
  routine_data : list Activity;
  memory_network : Graph
}.

Record HistoryEntry : Type := mkHistoryEntry {
  query : string;
  effectiveness : json;
  history_weights : Q * Q
}.

(** [ReflectiveMemoryAgent]: [client] answers the n-th request of the
    session, [requests] logs the requests sent so far. *)
Record ReflectiveMemoryAgent : Type := mkAgent {
  client : nat -> reply;
  requests : list request;
  memory_graph : MemoryGraphManager;
  weights : SearchWeights;
  priorities : Config.SearchPriorities;
  thresholds : Config.RelevanceThresholds;
  search_history : list HistoryEntry
}.

Record DialogueContext : Type := mkDialogueContext {
  context_text : string;
  current_time : datetime;
  current_activity : option Activity
}.

Record Strategy : Type := mkStrategy {
  keywords : json;
  focus : json;
  temporal_context : json
}.

Record QueryResult : Type := mkQueryResult {
  query_time : string;
  result_current_activity : option Activity;
  keyword_analysis_original : json;
  keyword_analysis_expanded : json;
  results : list Candidate;
  performance_effectiveness : json;
  performance_weights : Q * Q
}.

(** Computations on the agent: the outcome and the agent left behind. *)
Definition M (A : Type) : Type :=
  ReflectiveMemoryAgent -> result A * ReflectiveMemoryAgent.

Definition ret {A} (a : A) : M A := fun self => (Ok a, self).

Definition bind {A B} (m : M A) (k : A -> M B) : M B :=
  fun self =>
    match m self with
    | (Ok a, self') => k a self'
    | (Raise e, self') => (Raise e, self')
    end.

Definition lift {A} (r : result A) : M A := fun self => (r, self).

Definition get_self : M ReflectiveMemoryAgent := fun self => (Ok self, self).

(** [try: body except json.JSONDecodeError: handler]. *)
Definition try_except_json {A} (body handler : M A) : M A :=
  fun self =>
    match body self with
    | (Raise JSONDecodeError, self') => handler self'
    | other => other
    end.

Declare Scope agent_scope.
Delimit Scope agent_scope with agent.
Notation "x <- c1 ;; c2" := (bind c1 (fun x => c2))
  (at level 61, c1 at next level, right associativity) : agent_scope.
Notation "c1 ;; c2" := (bind c1 (fun _ => c2))
  (at level 61, right associativity) : agent_scope.
Local Open Scope agent_scope.

(** One round trip to the collaborator: the request is logged, the reply
    is the client's answer to it, parsed. *)
Definition ask (req : request) : M json :=
  fun self =>
    let answer := client self (List.length (requests self)) in
    let self' :=
      mkAgent (client self) (requests self ++ [req])%list (memory_graph self)
              (weights self) (priorities self) (thresholds self)
              (search_history self) in
    match answer with
    | CallFails => (Raise APIError, self')
    | Malformed => (Raise JSONDecodeError, self')
    | Json j => (Ok j, self')
    end.

Definition default_strategy : Strategy :=
  mkStrategy
    (JDict [("people", JList []); ("events", JList []);
            ("time", JList []); ("location", JList [])])
    (JStr "both") (JStr "both").

(** [ReflectiveMemoryAgent._expand_keywords]. *)
Definition _expand_keywords (keywords : json) : M json :=
  try_except_json (ask (ExpandRequest keywords)) (ret keywords).

(** [ReflectiveMemoryAgent._analyze_dialogue]. *)
Definition _analyze_dialogue (context : DialogueContext) : M Strategy :=
  let label :=
    match current_activity context with
    | Some a => activity a
    | None => "None"
    end in
  try_except_json
    (analysis <- ask (AnalyzeRequest (context_text context)
                        (strftime_HM (current_time context)) label) ;;
     kws <- lift (getitem analysis "keywords") ;;
     expanded <- _expand_keywords kws ;;
     fc <- lift (getitem analysis "focus") ;;
     tc <- lift (getitem analysis "temporal_context") ;;
     ret (mkStrategy expanded fc tc))
    (ret default_strategy).

(** [ReflectiveMemoryAgent._evaluate_effectiveness]: no handler. *)
Definition _evaluate_effectiveness (context : DialogueContext)
    (results : list Candidate) : M json :=
  ask (EvaluateRequest (context_text context) results).

(** [self.weights.adjust(effectiveness)]. *)
Definition adjust_weights (effectiveness : json) : M unit :=
  fun self =>
    let r := adjust effectiveness (weights self) in
    (fst r,
     mkAgent (client self) (requests self) (memory_graph self) (snd r)
             (priorities self) (thresholds self) (search_history self)).

(** [self.search_history.append(entry)]. *)
Definition append_history (entry : HistoryEntry) : M unit :=
  fun self =>
    (Ok tt,
     mkAgent (client self) (requests self) (memory_graph self) (weights self)
             (priorities self) (thresholds self)
             (search_history self ++ [entry])%list).

Section Orchestrator.

Variable float_repr : Q -> string.

(** The first check of [process_query]: the current activity, when there
    is one and it scores at least [min_score]. *)
Definition initial_results (current_activity : option Activity) (keywords : json)
  : M (list Candidate) :=
  match current_activity with
  | Some a =>
      self <- get_self ;;
      relevance <- lift (_calculate_relevance float_repr (priorities self)
                           (activity_items a) keywords) ;;
      if Qle_bool (Config.min_score (thresholds self)) relevance
      then ret [mkCandidate (JStr "activity") (activity_items a) relevance "routine"]
      else ret []
  | None => ret []
  end.

(** The broadening branch of [process_query]. *)
Definition broaden (context : DialogueContext) (keywords : json)
    (results : list Candidate) : M (list Candidate * json) :=
  self <- get_self ;;
  graph_results <- lift (_search_knowledge_graphs float_repr (weights self)
                           (priorities self) (thresholds self)
                           (memory_network (memory_graph self)) keywords) ;;
  let results := (results ++ graph_results)%list in
  eff <- _evaluate_effectiveness context results ;;
  ret (results, eff).

(** [ReflectiveMemoryAgent.process_query]. *)
Definition process_query (text : string) (current_time : datetime) : M QueryResult :=
  self <- get_self ;;
  let current_activity :=
    get_activity_at_time (routine_data (memory_graph self)) current_time in
  let context := mkDialogueContext text current_time current_activity in
  strategy <- _analyze_dialogue context ;;
  results <- initial_results current_activity (keywords strategy) ;;
  initial_effectiveness <- _evaluate_effectiveness context results ;;
  sufficient <- lift (getitem initial_effectiveness "sufficient") ;;
  final <- (if truthy sufficient then ret (results, initial_effectiveness)
            else broaden context (keywords strategy) results) ;;
  adjust_weights (snd final) ;;
  score <- lift (getitem (snd final) "score") ;;
  self <- get_self ;;
  append_history
    (mkHistoryEntry text score
       (routine_weight (weights self), story_weight (weights self))) ;;
  ret (mkQueryResult (strftime_HM current_time) current_activity
         (keywords strategy) (keywords strategy) (firstn 8 (fst final))
         (snd final)
         (routine_weight (weights self), story_weight (weights self))).

End Orchestrator.

(** [ReflectiveMemoryAgent.__init__], after the records are loaded. *)
Definition new_agent (hash_memory : Memory -> string) (client : nat -> reply)
    (profile : json) (story_data : StoryData) (routine_data : list Activity)
  : ReflectiveMemoryAgent :=
  mkAgent client []
    (mkMemoryGraphManager profile story_data routine_data
       (construct_memory_network hash_memory routine_data story_data))
    default_weights Config.default_priorities Config.default_thresholds [].

(* ------------------------------------------------------------------ *)
(** ** The sibling agent (AdaptiveDialogueAgent.py) *)

Module OptimizedMemoryAgent.

(** [OptimizedMemoryAgent._evaluate_results]: [except Exception] answers
    every failure of the round trip with a default judgment. *)
Definition _evaluate_results (answer : reply) : json :=
  match answer with
  | Json j => j
  | _ => JDict [("score", JFloat (5 # 10)); ("coverage", JList []);
                ("gaps", JList []); ("focus_recommendation", JStr "balanced")]
  end.

End OptimizedMemoryAgent.

(* ------------------------------------------------------------------ *)
(** ** Notions used to state the properties *)

(** The interval [[time_start, time_end]] of [a] contains [time_str], both
    bounds included, in the order of strings. *)
Definition within (time_str : string) (a : Activity) : Prop :=
  String.leb (time_start a) time_str = true /\
  String.leb time_str (time_end a) = true.


(** A keyword map [map<category, list<term>>] as the JSON value the scorer
    receives. *)
Definition keyword_map (kw : list (string * list json)) : json :=
  JDict (map (fun ct => (fst ct, JList (snd ct))) kw).

(** The categories that are fields of [SearchPriorities]. *)
Definition priority_fields : list string :=
  ["people"; "events"; "time"; "location"].

(** A term whose normal form is a string: a plain string, an object whose
    first truthy [term]/[name] value is a string (or that has none), or a
    value of any other shape. *)
Definition term_normalizes (term : json) : Prop :=
  exists s, normalize_term term = JStr s.



Definition node_ids (G : Graph) : list string := map fst (nodes G).

(** The number of nodes of [G] with identifier [n]. *)
Definition node_count (n : string) (G : Graph) : nat :=
  List.length (filter (fun nd => String.eqb n (fst nd)) (nodes G)).

(** The 'involves' edges of [G] that leave or reach node [n]. *)
Definition incident_involves (n : string) (G : Graph) : list (string * string * dict) :=
  filter (fun e => (String.eqb n (fst (fst e)) || String.eqb n (snd (fst e)))
                   && match dict_get "type" (snd e) with
                      | Some ty => eq_str ty "involves"
                      | None => false
                      end)
         (edges G).

(** Every edge of [G] has both endpoints among the nodes of [G]. *)
Definition edges_closed (G : Graph) : Prop :=
  forall u v attr, In (u, v, attr) (edges G) ->
                   In u (node_ids G) /\ In v (node_ids G).

(** The participant names of a routine, one entry per participant entry,
    and the people named by the memories of a life story, one entry per
    reference. *)
Definition participant_names (routine_data : list Activity) : list string :=
  flat_map (fun a => map name (get_participants a)) routine_data.

Definition memory_people (ms : list Memory) : list string :=
  flat_map get_people ms.

Definition occurrences (p : string) (l : list string) : nat :=
  count_occ string_dec l p.


(** The identifiers the builder can create, for a list [N] of participant
    names, and the edges it can create. *)
Definition known_id (N : list string) (x : string) : Prop :=
  (exists l, x = activity_id_of l) \/
  (exists p, In p N /\ x = person_id_of p) \/
  (exists i, x = memory_id_of i).

Definition edge_ok (N : list string) (e : string * string * dict) : Prop :=
  ((exists l, fst (fst e) = activity_id_of l) \/
   (exists i, fst (fst e) = memory_id_of i)) /\
  (exists p, In p N /\ snd (fst e) = person_id_of p) /\
  snd e = involves.

Definition built (N : list string) (G : Graph) : Prop :=
  NoDup (node_ids G) /\
  Forall (known_id N) (node_ids G) /\
  Forall (edge_ok N) (edges G) /\
  edges_closed G.

(** The number of edges of [G] that reach node [v]. *)
Definition in_count (v : string) (G : Graph) : nat :=
  List.length (filter (fun e => String.eqb v (snd (fst e))) (edges G)).


(** No orphan edge, and no trace of a person who is not a participant of
    the routine: every edge joins two nodes of [G] and reaches the Person
    node of a participant; a name outside [N] has no node and no edge. *)
Definition no_orphans (N : list string) (G : Graph) : Prop :=
  edges_closed G /\
  (forall u v attr, In (u, v, attr) (edges G) ->
                    exists p, In p N /\ v = person_id_of p) /\
  (forall p, ~ In p N ->
             ~ In (person_id_of p) (node_ids G) /\
             forall u attr, ~ In (u, person_id_of p, attr) (edges G)).


(** The attribute bag [G.add_node] is called with for activity [a]. *)
Definition activity_bag (a : Activity) : dict :=
  ("type", JStr "activity") :: activity_items a.

(** The value an attribute of node [n] has in [G], if any. *)
Definition node_attr (n k : string) (G : Graph) : option json :=
  match node_attrs n G with
  | Some d => dict_get k d
  | None => None
  end.

(** The Activity node of the last activity [a] carrying its label, in the
    graph [G] built from [before ++ a :: after]: the node is unique; every
    key of [a]'s bag holds [a]'s value; a key that [a]'s bag lacks holds
    what the activities before [a] left under it. *)
Definition merged_activity_node (before : list Activity) (a : Activity) (G : Graph) : Prop :=
  let n := activity_id_of (activity a) in
  node_count n G = 1%nat /\
  (forall k v, dict_get k (activity_bag a) = Some v -> node_attr n k G = Some v) /\
  (forall k, dict_get k (activity_bag a) = None ->
             node_attr n k G = node_attr n k (fold_left add_activity before empty_graph)).


(** The candidate lists submitted to the sufficiency evaluation, in the
    order of the requests. *)
Definition evaluations (reqs : list request) : list (list Candidate) :=
  flat_map (fun r => match r with
                     | EvaluateRequest _ rs => [rs]
                     | _ => []
                     end) reqs.

(** [c] is the candidate of node [nd]: its relevance is the node's score
    against the keywords times [routine_weight] for an Activity node and
    times [story_weight] for any other node. *)
Definition weighted_candidate (float_repr : Q -> string) (w : SearchWeights)
    (p : Config.SearchPriorities) (kw : json) (nd : string * dict) (c : Candidate) : Prop :=
  exists score ty,
    _calculate_relevance float_repr p (snd nd) kw = Ok score /\
    dict_get "type" (snd nd) = Some ty /\
    c = mkCandidate ty (snd nd)
          (score * (if eq_str ty "activity" then routine_weight w else story_weight w))
          (if eq_str ty "activity" then "routine" else "story").

Definition descending (l : list Candidate) : Prop :=
  StronglySorted (fun a b => relevance b <= relevance a) l.

(** [rs] is the outcome of the broadening pass over [G]: every node is
    scored and weighted, the candidates at or above [min_score] are kept
    and sorted by descending weighted relevance, the first four are
    taken. *)
Definition broadening_result (float_repr : Q -> string) (w : SearchWeights)
    (p : Config.SearchPriorities) (th : Config.RelevanceThresholds)
    (G : Graph) (kw : json) (rs : list Candidate) : Prop :=
  exists scored kept,
    Forall2 (weighted_candidate float_repr w p kw) (nodes G) scored /\
    Permutation
      (filter (fun c => Qle_bool (Config.min_score th) (relevance c)) scored) kept /\
    descending kept /\
    rs = firstn 4 kept.


(** The agent [s] with its request log replaced. *)
Definition with_requests (s : ReflectiveMemoryAgent) (reqs : list request)
  : ReflectiveMemoryAgent :=
  mkAgent (client s) reqs (memory_graph s) (weights s) (priorities s)
          (thresholds s) (search_history s).


(* ------------------------------------------------------------------ *)
(** ** A session used in the examples *)

Definition example_repr : Q -> string := fun _ => "0.0".

Definition example_routine : list Activity :=
  [mkActivity "06:00" "06:30" "Morning Exercise" "Garden"
     (Some [mkParticipant "son" "Tom"]) "Stretching with Tom"].

Definition example_story : StoryData :=
  mkStoryData
    (Some [mkMemory (Some "m1") 1980 "Fishing" "Fishing trip with Tom" "" ""
             (Some ["Tom"; "Anna"])])
    [].

Definition example_analysis : json :=
  JDict [("keywords",
          JDict [("people", JList [JStr "Tom"; JStr "son"]);
                 ("events", JList [JStr "Exercise"])]);
         ("focus", JStr "both");
         ("temporal_context", JStr "current")].

Definition example_judgment (sufficient : bool) (recommendation : string) : json :=
  JDict [("score", JFloat (7 # 10)); ("sufficient", JBool sufficient);
         ("missing_aspects", JList []);
         ("focus_recommendation", JStr recommendation)].

(** The analysis succeeds, the keyword expansion is unparseable, the
    first judgment is 'insufficient', the second 'sufficient'. *)
Definition example_client (n : nat) : reply :=
  match n with
  | 0%nat => Json example_analysis
  | 1%nat => Malformed
  | 2%nat => Json (example_judgment false "memory")
  | _ => Json (example_judgment true "balanced")
  end.

(** The analysis succeeds, the evaluator's reply is not valid JSON. *)
Definition unparseable_evaluator (n : nat) : reply :=
  match n with
  | 0%nat => Json example_analysis
  | _ => Malformed
  end.

(** Every call to the collaborator fails. *)
Definition unreachable_collaborator (n : nat) : reply := CallFails.

Definition example_agent (client : nat -> reply) : ReflectiveMemoryAgent :=
  new_agent (fun _ => "0") client JNull example_story example_routine.


(** [s'] is [s] after at most [n] more requests were sent: the client,
    the memory graph, the configuration and the history are those of
    [s]; the weights are left free. *)
Definition sends_only (n : nat) (s s' : ReflectiveMemoryAgent) : Prop :=
  client s' = client s /\ memory_graph s' = memory_graph s /\
  priorities s' = priorities s /\ thresholds s' = thresholds s /\
  search_history s' = search_history s /\
  exists extra, requests s' = (requests s ++ extra)%list /\
                (List.length extra <= n)%nat.


(** What a call that ends with outcome [r] leaves of agent [s]: the
    client, the memory graph and the configuration are untouched, at most
    [n] requests were sent, and the history gained exactly one entry if
    the call returned and none if it raised. *)
Definition query_effect {A} (n : nat) (s : ReflectiveMemoryAgent)
    (r : result A) (s' : ReflectiveMemoryAgent) : Prop :=
  client s' = client s /\ memory_graph s' = memory_graph s /\
  priorities s' = priorities s /\ thresholds s' = thresholds s /\
  (exists extra, requests s' = (requests s ++ extra)%list /\
                 (List.length extra <= n)%nat) /\
  match r with
  | Ok _ => exists entry, search_history s' = (search_history s ++ [entry])%list
  | Raise _ => search_history s' = search_history s
  end.


(** The analysis is unparseable; every judgment is 'insufficient'. *)
Definition unparseable_analysis (n : nat) : reply :=
  match n with
  | 0%nat => Malformed
  | _ => Json (example_judgment false "balanced")
  end.


(** A time of day, and the minute of the day it denotes. *)
Definition valid_time (t : datetime) : Prop :=
  (hour t < 24)%nat /\ (minute t < 60)%nat.

Definition minute_of_day (t : datetime) : nat := (60 * hour t + minute t)%nat.


(** The identifier text of a memory: its [id] when it has one, else the
    fallback hash. *)
Definition memory_ident (fallback : Memory -> string) (m : Memory) : string :=
  match id m with
  | Some i => i
  | None => fallback m
  end.

(** The edges the builder creates for the routine: one per participant
    entry, in record order. *)
Definition routine_edges (routine_data : list Activity) : list (string * string * dict) :=
  flat_map (fun a =>
              map (fun p => (activity_id_of (activity a), person_id_of (name p), involves))
                  (get_participants a))
           routine_data.

(** The edges the builder creates for the memories: one per reference to
    a person who is a participant of the routine, in record order. *)
Definition memory_edges (fallback : Memory -> string) (N : list string)
    (ms : list Memory) : list (string * string * dict) :=
  flat_map (fun m =>
              map (fun q => (memory_id_of (memory_ident fallback m), person_id_of q, involves))
                  (filter (fun q => existsb (String.eqb q) N) (get_people m)))
           ms.

(** A node whose 'type' attribute is the one its identifier announces. *)
Definition typed_node (nd : string * dict) : Prop :=
  ((exists l, fst nd = activity_id_of l) /\
   dict_get "type" (snd nd) = Some (JStr "activity")) \/
  ((exists p, fst nd = person_id_of p) /\
   dict_get "type" (snd nd) = Some (JStr "person")) \/
  ((exists i, fst nd = memory_id_of i) /\
   dict_get "type" (snd nd) = Some (JStr "memory")).


(* ------------------------------------------------------------------ *)
(** ** The search helpers of the sibling agent (AdaptiveDialogueAgent.py) *)

Module AdaptiveDialogueAgent.

(** [SearchWeights] of the sibling agent. *)
Record SearchWeights : Type := mkSearchWeights {
  routine_weight : Q;
  story_weight : Q
}.

Definition default_weights : SearchWeights := mkSearchWeights (9 # 10) (1 # 10).

(** Python's [max(a, b)]: [b] when [b > a], else [a]. *)
Definition py_max (a b : Q) : Q := if Qle_bool b a then a else b.

(** [SearchWeights.adjust(story_weight)]. *)
Definition adjust (self : SearchWeights) (story_weight : Q) : SearchWeights :=
  let s := py_min 1 (py_max 0 story_weight) in
  mkSearchWeights (1 - s) s.

(** The step [process_query] takes after a judgment scoring below 0.7:
    [self.weights.adjust(self.weights.story_weight + 0.2)]. *)
Definition shift_to_story (self : SearchWeights) : SearchWeights :=
  adjust self (story_weight self + (2 # 10)).

(** An entry of the list [search_memories] returns. *)
Record FoundMemory : Type := mkFoundMemory {
  found_year : Z;
  found_description : string;
  found_details : string;
  found_people : list string
}.

(** [f"{description} {details}".lower()]. *)
Definition memory_text (description details : string) : string :=
  lower (description ++ " " ++ details).

(** [any(kw.lower() in memory_text for kw in keywords)]: the keywords are
    tried in order up to the first match. *)
Fixpoint any_keyword (text : string) (keywords : list json) : result bool :=
  match keywords with
  | [] => Ok false
  | kw :: rest =>
      rbind (str_lower kw) (fun k =>
      if contains k text then Ok true else any_keyword text rest)
  end.

Definition found (m : Memory) : FoundMemory :=
  mkFoundMemory (year m) (description m) (Story.details m) (get_people m).

(** The loop over the memories of one interview. *)
Fixpoint search_interview (keywords : list json) (ms : list Memory)
    (memories : list FoundMemory) : result (list FoundMemory) :=
  match ms with
  | [] => Ok memories
  | m :: rest =>
      rbind (any_keyword (memory_text (description m) (Story.details m)) keywords)
        (fun hit =>
           search_interview keywords rest
             (if hit then (memories ++ [found m])%list else memories))
  end.

(** The loop over the interviews. *)
Fixpoint search_interviews (keywords : list json) (interviews : list Interview)
    (memories : list FoundMemory) : result (list FoundMemory) :=
  match interviews with
  | [] => Ok memories
  | interview :: rest =>
      rbind (search_interview keywords (interview_memories interview) memories)
        (fun memories' => search_interviews keywords rest memories')
  end.

(** [MemoryGraphManager.search_memories]. *)
Definition search_memories (story_data : StoryData) (keywords : list json)
  : result (list FoundMemory) :=
  search_interviews keywords (interviews story_data) [].

(** One entry of a person's activities. *)
Record ActivityRef : Type := mkActivityRef {
  ref_name : string;
  ref_time : string;
  ref_location : string
}.

Record PersonActivities : Type := mkPersonActivities {
  person : string;
  activities : list ActivityRef
}.

Definition activity_ref (a : Activity) : ActivityRef :=
  mkActivityRef (activity a) (time_start a ++ " - " ++ time_end a)
                (Routine.location a).

(** [person in [p['name'] for p in activity.get('participants', [])]]. *)
Definition takes_part (person : string) (a : Activity) : bool :=
  existsb (String.eqb person) (map name (get_participants a)).

(** [OptimizedMemoryAgent._get_person_activities]; the time is not used. *)
Definition _get_person_activities (routine_data : list Activity)
    (person : string) (current_time : datetime) : option PersonActivities :=
  match map activity_ref (filter (takes_part person) routine_data) with
  | [] => None
  | activities => Some (mkPersonActivities person activities)
  end.

(** A relationship as [_process_relationships] stores it. *)
Record Relation : Type := mkRelation {
  category : json;
  related_to : json;
  relation_type : json
}.

(** The relationships by term, in insertion order. *)
Definition relationships : Type := list (json * list Relation).

(** [keywords.get(k, default)]: only a dict has the method. *)
Definition keywords_get (keywords : json) (k : string) (default : json) : result json :=
  match keywords with
  | JDict d => Ok (match dict_get k d with Some v => v | None => default end)
  | _ => Raise AttributeError
  end.

(** [x in container] for a string [x]: an element of a list, a substring
    of a string, a key of a dict; other values are not containers. *)
Definition py_in (x : string) (container : json) : result bool :=
  match container with
  | JList l => Ok (existsb (fun e => eq_str e x) l)
  | JStr s => Ok (contains x s)
  | JDict d => Ok (existsb (fun kv => String.eqb (fst kv) x) d)
  | _ => Raise TypeError
  end.

(** The loop over the relationships of [_is_person_relevant]. *)
Definition related (person_name : string) (rels : relationships) : bool :=
  existsb (fun tr => existsb (fun rel => eq_str (related_to rel) person_name) (snd tr))
          rels.

(** [OptimizedMemoryAgent._is_person_relevant]. *)
Definition _is_person_relevant (person_name : string) (keywords : json)
    (rels : relationships) : result bool :=
  rbind (keywords_get keywords "people" (JList [])) (fun people =>
  rbind (py_in person_name people) (fun direct =>
  if direct then Ok true else Ok (related person_name rels))).

Record ActivityInfo : Type := mkActivityInfo {
  info_name : string;
  info_time : string;
  info_location : string;
  info_participants : list Participant
}.

(** The loop over the participants of [_search_current_activity]. *)
Fixpoint relevant_participants (ps : list Participant) (keywords : json)
    (rels : relationships) (kept : list Participant) : result (list Participant) :=
  match ps with
  | [] => Ok kept
  | participant :: rest =>
      rbind (_is_person_relevant (name participant) keywords rels) (fun relevant =>
      relevant_participants rest keywords rels
        (if relevant then (kept ++ [participant])%list else kept))
  end.

(** [OptimizedMemoryAgent._search_current_activity]. *)
Definition _search_current_activity (a : Activity) (keywords : json)
    (rels : relationships) : result ActivityInfo :=
  rbind (relevant_participants (get_participants a) keywords rels []) (fun ps =>
  Ok (mkActivityInfo (activity a) (time_start a ++ " - " ++ time_end a)
                     (Routine.location a) ps)).

(** A memory with its [relevance_score]. *)
Record RankedMemory : Type := mkRankedMemory {
  ranked : FoundMemory;
  relevance_score : Q
}.

(** The loop over the terms of one category. *)
Fixpoint score_terms (text : string) (terms : list json) (score : Q) : result Q :=
  match terms with
  | [] => Ok score
  | term :: rest =>
      rbind (str_lower term) (fun t =>
      score_terms text rest (if contains t text then score + 1 else score))
  end.

(** The loop over [keywords.values()]. *)
Fixpoint score_keywords (text : string) (values : list json) (score : Q) : result Q :=
  match values with
  | [] => Ok score
  | category :: rest =>
      rbind (iterate category) (fun terms =>
      rbind (score_terms text terms score) (fun score' =>
      score_keywords text rest score'))
  end.

(** The loop over the relationships of one term. *)
Fixpoint score_relations (text : string) (rels : list Relation) (score : Q) : result Q :=
  match rels with
  | [] => Ok score
  | rel :: rest =>
      rbind (str_lower (related_to rel)) (fun t =>
      score_relations text rest (if contains t text then score + (5 # 10) else score))
  end.

(** The loop over [relationships.items()]. *)
Fixpoint score_relationships (text : string) (items : relationships) (score : Q) : result Q :=
  match items with
  | [] => Ok score
  | (_, rels) :: rest =>
      rbind (score_relations text rels score) (fun score' =>
      score_relationships text rest score')
  end.

(** The body of the loop over the memories of [_rank_memories]. *)
Definition score_memory (keywords : json) (rels : relationships) (m : FoundMemory)
  : result RankedMemory :=
  let text := memory_text (found_description m) (found_details m) in
  match keywords with
  | JDict d =>
      rbind (score_keywords text (map snd d) 0) (fun score =>
      rbind (score_relationships text rels score) (fun score' =>
      Ok (mkRankedMemory m score')))
  | _ => Raise AttributeError
  end.

Fixpoint score_memories (keywords : json) (rels : relationships)
    (memories : list FoundMemory) (ranked_memories : list RankedMemory)
  : result (list RankedMemory) :=
  match memories with
  | [] => Ok ranked_memories
  | m :: rest =>
      rbind (score_memory keywords rels m) (fun r =>
      score_memories keywords rels rest (ranked_memories ++ [r])%list)
  end.

(** [ranked_memories.sort(key=..., reverse=True)]: stable. *)
Fixpoint insert_ranked (x : RankedMemory) (l : list RankedMemory) : list RankedMemory :=
  match l with
  | [] => [x]
  | y :: l' =>
      if Qle_bool (relevance_score y) (relevance_score x) then x :: y :: l'
      else y :: insert_ranked x l'
  end.

Definition sort_ranked (l : list RankedMemory) : list RankedMemory :=
  fold_right insert_ranked [] l.

(** [OptimizedMemoryAgent._rank_memories]. *)
Definition _rank_memories (memories : list FoundMemory) (keywords : json)
    (rels : relationships) : result (list RankedMemory) :=
  rbind (score_memories keywords rels memories []) (fun ranked_memories =>
  Ok (sort_ranked ranked_memories)).

End AdaptiveDialogueAgent.


(** Notions used to state the properties of the sibling's helpers. *)

(** The memories of a life story, interview by interview. *)
Definition interview_memory_list (story_data : StoryData) : list Memory :=
  flat_map interview_memories (interviews story_data).

(** Some keyword of [ks], lower-cased, occurs in the lower-cased
    "description details" text of [m]. *)
Definition mentions (ks : list string) (m : Memory) : bool :=
  existsb (fun k => contains (lower k)
                      (AdaptiveDialogueAgent.memory_text (description m)
                         (Story.details m)))
          ks.

(* ================================================================== *)
(** * Properties *)

(* ------------------------------------------------------------------ *)
(** ** Adaptive weights *)

Lemma py_min_cases (a b : Q) :
  (a <= b /\ py_min a b = a) \/ (b < a /\ py_min a b = b).
Proof.
  unfold py_min. destruct (Qle_bool a b) eqn:E.
  - left. split; [apply Qle_bool_iff; exact E | reflexivity].
  - right. split; [|reflexivity].
    apply Qnot_le_lt. intro H. apply Qle_bool_iff in H. congruence.
Qed.

(** Dividing two weights by their positive sum yields weights that sum to
    one, and keeps the first inside the band when it is at most four times
    and at least a quarter of the second. *)
Lemma renormalize_band (r s : Q) :
  0 < r + s -> r <= 4 * s -> s <= 4 * r ->
  r / (r + s) + s / (r + s) == 1 /\
  2 # 10 <= r / (r + s) /\ r / (r + s) <= 8 # 10.
Proof.
  intros Hpos Hr Hs. split; [|split].
  - field. intro H0. rewrite H0 in Hpos. apply (Qlt_irrefl 0). exact Hpos.
  - apply Qle_shift_div_l; [exact Hpos|]. lra.
  - apply Qle_shift_div_r; [exact Hpos|]. lra.
Qed.

Lemma total_nonzero (t : Q) : 0 < t -> Qeq_bool t 0 = false.
Proof.
  intro H. destruct (Qeq_bool t 0) eqn:E; [|reflexivity].
  apply Qeq_bool_iff in E. rewrite E in H. exfalso. apply (Qlt_irrefl 0). exact H.
Qed.

(** One [adjust] call on weights in the band succeeds whenever the
    judgment carries a recommendation, and leaves weights in the band. *)
Lemma adjust_in_band (eff : json) (w : SearchWeights) :
  in_band w ->
  in_band (snd (adjust eff w)) /\
  (forall rec, getitem eff "focus_recommendation" = Ok rec ->
               fst (adjust eff w) = Ok tt).
Proof.
  intros (Hmin & Hmax & Hsum & Hlo & Hhi).
  unfold adjust. destruct (getitem eff "focus_recommendation") as [rec|e].
  2:{ split; [repeat split; assumption | intros rec H; discriminate]. }
  destruct (eq_str rec "routine") eqn:Er; [|destruct (eq_str rec "memory") eqn:Em].
  - cbn [set_routine_weight routine_weight story_weight min_weight max_weight].
    set (r1 := py_min (max_weight w) (routine_weight w + (1 # 10))).
    assert (Hr1 : routine_weight w <= r1 /\ r1 <= 8 # 10 /\
                  r1 <= routine_weight w + (1 # 10)).
    { subst r1. destruct (py_min_cases (max_weight w) (routine_weight w + (1 # 10)))
        as [[H1 H2]|[H1 H2]]; rewrite H2; rewrite Hmax in *; lra. }
    destruct Hr1 as (Ha & Hb & Hc).
    assert (Hpos : 0 < r1 + story_weight w) by lra.
    rewrite (total_nonzero _ Hpos).
    cbn [fst snd set_routine_weight set_story_weight routine_weight story_weight
         min_weight max_weight].
    destruct (renormalize_band r1 (story_weight w) Hpos) as (S1 & S2 & S3);
      [lra | lra |].
    split; [|reflexivity].
    unfold in_band; cbn [routine_weight story_weight min_weight max_weight].
    repeat split; assumption.
  - cbn [set_story_weight routine_weight story_weight min_weight max_weight].
    set (s1 := py_min (max_weight w) (story_weight w + (1 # 10))).
    assert (Hs1 : story_weight w <= s1 /\ s1 <= 8 # 10 /\
                  s1 <= story_weight w + (1 # 10)).
    { subst s1. destruct (py_min_cases (max_weight w) (story_weight w + (1 # 10)))
        as [[H1 H2]|[H1 H2]]; rewrite H2; rewrite Hmax in *; lra. }
    destruct Hs1 as (Ha & Hb & Hc).
    assert (Hpos : 0 < routine_weight w + s1) by lra.
    rewrite (total_nonzero _ Hpos).
    cbn [fst snd set_routine_weight set_story_weight routine_weight story_weight
         min_weight max_weight].
    destruct (renormalize_band (routine_weight w) s1 Hpos) as (S1 & S2 & S3);
      [lra | lra |].
    split; [|reflexivity].
    unfold in_band; cbn [routine_weight story_weight min_weight max_weight].
    repeat split; assumption.
  - assert (Hpos : 0 < routine_weight w + story_weight w) by lra.
    rewrite (total_nonzero _ Hpos).
    cbn [fst snd set_routine_weight set_story_weight routine_weight story_weight
         min_weight max_weight].
    destruct (renormalize_band (routine_weight w) (story_weight w) Hpos)
      as (S1 & S2 & S3); [lra | lra |].
    split; [|reflexivity].
    unfold in_band; cbn [routine_weight story_weight min_weight max_weight].
    repeat split; assumption.
Qed.

Lemma default_in_band : in_band default_weights.
Proof.
  unfold in_band, default_weights; cbn. repeat split; try reflexivity; lra.
Qed.

Lemma adjust_all_in_band (effs : list json) (w : SearchWeights) :
  in_band w -> in_band (adjust_all effs w).
Proof.
  revert w. induction effs as [|eff effs IH]; intros w Hw; [exact Hw|].
  cbn. apply IH. apply adjust_in_band. exact Hw.
Qed.

(** C2: after any sequence of [adjust] calls on the default weights, both
    [routine_weight] and [story_weight] lie in the band
    [[min_weight, max_weight]]. *)
Theorem weights_stay_in_band (effs : list json) :
  let w := adjust_all effs default_weights in
  min_weight w <= routine_weight w /\ routine_weight w <= max_weight w /\
  min_weight w <= story_weight w /\ story_weight w <= max_weight w.
Proof.
  intro w.
  destruct (adjust_all_in_band effs default_weights default_in_band)
    as (Hmin & Hmax & Hsum & Hlo & Hhi).
  fold w in Hmin, Hmax, Hsum, Hlo, Hhi.
  rewrite Hmin, Hmax. repeat split; lra.
Qed.

(** C4: after any sequence of [adjust] calls on the default weights,
    [routine_weight + story_weight] equals 1 (exact rational arithmetic). *)
Theorem weights_sum_to_one (effs : list json) :
  let w := adjust_all effs default_weights in
  routine_weight w + story_weight w == 1.
Proof.
  intro w.
  destruct (adjust_all_in_band effs default_weights default_in_band)
    as (_ & _ & Hsum & _). exact Hsum.
Qed.

(** In exact arithmetic an [adjust] call whose recommendation is neither
    'routine' nor 'memory' divides both weights by a sum that is 1. *)
Lemma balanced_exact (effs : list json) (eff rec : json) :
  getitem eff "focus_recommendation" = Ok rec ->
  eq_str rec "routine" = false ->
  eq_str rec "memory" = false ->
  let w := adjust_all effs default_weights in
  fst (adjust eff w) = Ok tt /\
  routine_weight (snd (adjust eff w)) == routine_weight w /\
  story_weight (snd (adjust eff w)) == story_weight w.
Proof.
  intros Hrec Hr Hm w.
  destruct (adjust_all_in_band effs default_weights default_in_band)
    as (Hmin & Hmax & Hsum & Hlo & Hhi).
  fold w in Hmin, Hmax, Hsum, Hlo, Hhi.
  unfold adjust. rewrite Hrec, Hr, Hm.
  assert (Hpos : 0 < routine_weight w + story_weight w) by lra.
  rewrite (total_nonzero _ Hpos).
  cbn [fst snd set_routine_weight set_story_weight routine_weight story_weight].
  split; [reflexivity|].
  split; rewrite Hsum; field.
Qed.

(* ------------------------------------------------------------------ *)
(** ** Adaptive weights on binary64 floats *)

Lemma two_neq_0 : ~ 2 == 0.
Proof. intro H. discriminate H. Qed.

Lemma pow2_pos (z : Z) : 0 < 2 ^ z.
Proof. apply Qpower_0_lt. reflexivity. Qed.

Lemma pow2_plus (a b : Z) : 2 ^ (a + b) == 2 ^ a * 2 ^ b.
Proof. apply Qpower_plus. exact two_neq_0. Qed.

Lemma pow2_succ (a : Z) : 2 ^ (a + 1) == 2 * 2 ^ a.
Proof. rewrite pow2_plus. change (2 ^ 1) with 2. ring. Qed.

Lemma pow2_le (a b : Z) : (a <= b)%Z -> 2 ^ a <= 2 ^ b.
Proof. intro H. apply Qpower_le_compat_l; [exact H | discriminate]. Qed.

Lemma pow2_inject (a : Z) : (0 <= a)%Z -> inject_Z (2 ^ a) == 2 ^ a.
Proof. intro H. rewrite Zpower_Qpower by exact H. reflexivity. Qed.

Lemma nearest_even_close (x : Q) :
  x - (1 # 2) <= inject_Z (Binary64.nearest_even x) /\
  inject_Z (Binary64.nearest_even x) <= x + (1 # 2).
Proof.
  unfold Binary64.nearest_even.
  pose proof (Qfloor_le x) as Hlo. pose proof (Qlt_floor x) as Hhi.
  rewrite inject_Z_plus in Hhi. change (inject_Z 1) with 1 in Hhi.
  set (f := Qfloor x) in *. clearbody f.
  assert (Hf : inject_Z (f + 1) == inject_Z f + 1).
  { rewrite inject_Z_plus. reflexivity. }
  set (F := inject_Z f) in *. set (F1 := inject_Z (f + 1)) in *.
  destruct (Qcompare (x - F) (1 # 2)) eqn:E.
  - apply Qeq_alt in E. destruct (Z.even f); fold F; fold F1; split; lra.
  - apply Qlt_alt in E. fold F. split; lra.
  - apply Qgt_alt in E. fold F1. split; lra.
Qed.

Lemma nearest_even_Z (z : Z) : Binary64.nearest_even (inject_Z z) = z.
Proof.
  unfold Binary64.nearest_even. rewrite Qfloor_Z.
  assert (E : Qcompare (inject_Z z - inject_Z z) (1 # 2) = Lt).
  { apply (proj1 (Qlt_alt _ _)). generalize (inject_Z z). intro q. lra. }
  rewrite E. reflexivity.
Qed.

Lemma nearest_even_comp (x y : Q) : x == y -> Binary64.nearest_even x = Binary64.nearest_even y.
Proof.
  intro H. unfold Binary64.nearest_even. rewrite (Qfloor_comp x y H).
  rewrite (Qcompare_comp (x - inject_Z (Qfloor y)) (y - inject_Z (Qfloor y))
             ltac:(rewrite H; reflexivity) (1 # 2) (1 # 2) ltac:(reflexivity)).
  reflexivity.
Qed.

(** [exponent] finds the binade of a positive rational. *)
Lemma exponent_spec (x : Q) :
  0 < x -> 2 ^ Binary64.exponent x <= x /\ x < 2 ^ (Binary64.exponent x + 1).
Proof.
  intro Hx. unfold Binary64.exponent.
  destruct x as [n d]. cbn [Qnum Qden].
  assert (Hn : (0 < n)%Z).
  { unfold Qlt in Hx. cbn in Hx. lia. }
  set (a := Z.log2 n). set (b := Z.log2 (Zpos d)).
  assert (Ha0 : (0 <= a)%Z) by apply Z.log2_nonneg.
  assert (Hb0 : (0 <= b)%Z) by apply Z.log2_nonneg.
  destruct (Z.log2_spec n Hn) as (Ha1 & Ha2). fold a in Ha1, Ha2.
  destruct (Z.log2_spec (Zpos d) eq_refl) as (Hb1 & Hb2). fold b in Hb1, Hb2.
  assert (HN1 : 2 ^ a <= inject_Z n).
  { rewrite <- pow2_inject by exact Ha0. rewrite <- Zle_Qle. exact Ha1. }
  assert (HN2 : inject_Z n < 2 ^ (a + 1)).
  { rewrite <- pow2_inject by lia. rewrite <- Zlt_Qlt. exact Ha2. }
  assert (HD1 : 2 ^ b <= inject_Z (Zpos d)).
  { rewrite <- pow2_inject by exact Hb0. rewrite <- Zle_Qle. exact Hb1. }
  assert (HD2 : inject_Z (Zpos d) < 2 ^ (b + 1)).
  { rewrite <- pow2_inject by lia. rewrite <- Zlt_Qlt. exact Hb2. }
  rewrite pow2_succ in HN2, HD2.
  pose proof (pow2_pos a) as Pa. pose proof (pow2_pos b) as Pb.
  pose proof (pow2_pos (a - b)) as Pe.
  assert (Hab : 2 ^ a == 2 ^ (a - b) * 2 ^ b).
  { rewrite <- pow2_plus. replace (a - b + b)%Z with a by lia. reflexivity. }
  assert (Hx' : (n # d) * inject_Z (Zpos d) == inject_Z n).
  { rewrite (Qmake_Qdiv n d). field. intro H. discriminate H. }
  set (N := inject_Z n) in *. set (D := inject_Z (Zpos d)) in *.
  set (X := n # d) in *. set (E := 2 ^ (a - b)) in *.
  set (A := 2 ^ a) in *. set (B := 2 ^ b) in *.
  assert (Hup : X < 2 * E).
  { apply Qnot_le_lt. intro Hle.
    assert (2 * E * B <= X * D) by nra. nra. }
  assert (Hlow : E < 2 * X).
  { apply Qnot_le_lt. intro Hle.
    assert (2 * X * D <= E * (2 * B)) by nra. nra. }
  destruct (Qle_bool E X) eqn:Ecmp.
  - apply Qle_bool_iff in Ecmp. split; [exact Ecmp|].
    rewrite pow2_succ. exact Hup.
  - assert (Hlt : X < E).
    { apply Qnot_le_lt. intro H. apply Qle_bool_iff in H. congruence. }
    replace (a - b - 1 + 1)%Z with (a - b)%Z by lia. fold E.
    split; [|exact Hlt].
    assert (HE : E == 2 * 2 ^ (a - b - 1)).
    { unfold E. rewrite <- pow2_succ. replace (a - b - 1 + 1)%Z with (a - b)%Z by lia.
      reflexivity. }
    lra.
Qed.

Lemma exponent_unique (x : Q) (e : Z) :
  0 < x -> 2 ^ e <= x -> x < 2 ^ (e + 1) -> Binary64.exponent x = e.
Proof.
  intros Hx H1 H2. destruct (exponent_spec x Hx) as (E1 & E2).
  destruct (Z.lt_trichotomy (Binary64.exponent x) e) as [Hlt | [Heq | Hgt]]; [|exact Heq|].
  - exfalso. assert (H : 2 ^ (Binary64.exponent x + 1) <= 2 ^ e) by (apply pow2_le; lia). lra.
  - exfalso. assert (H : 2 ^ (e + 1) <= 2 ^ Binary64.exponent x) by (apply pow2_le; lia). lra.
Qed.

Lemma exponent_comp (x y : Q) : 0 < x -> x == y -> Binary64.exponent y = Binary64.exponent x.
Proof.
  intros Hx H. destruct (exponent_spec x Hx) as (E1 & E2).
  apply exponent_unique; rewrite <- H; assumption.
Qed.

Lemma pow2_52 : 2 ^ 52 == 4503599627370496.
Proof. vm_compute. reflexivity. Qed.

Lemma scale_facts (e : Z) :
  2 ^ (52 - e) * 2 ^ (e - 52) == 1 /\ 2 ^ e == 4503599627370496 * 2 ^ (e - 52) /\
  2 ^ e * 2 ^ (52 - e) == 4503599627370496.
Proof.
  split; [|split].
  - rewrite <- pow2_plus. replace (52 - e + (e - 52))%Z with 0%Z by lia. reflexivity.
  - rewrite <- pow2_52, <- pow2_plus. replace (52 + (e - 52))%Z with e by lia.
    reflexivity.
  - rewrite <- pow2_52, <- pow2_plus. replace (e + (52 - e))%Z with 52%Z by lia.
    reflexivity.
Qed.

(** One rounding moves a positive number by at most [2^-53] of itself. *)
Lemma round_pos_rel (x : Q) :
  0 < x ->
  x - x * Binary64.half_ulp <= Binary64.round_pos x /\
  Binary64.round_pos x <= x + x * Binary64.half_ulp.
Proof.
  intro Hx. unfold Binary64.round_pos, Binary64.half_ulp.
  destruct (exponent_spec x Hx) as (E1 & _).
  destruct (scale_facts (Binary64.exponent x)) as (Hgh & Hpe & _).
  pose proof (pow2_pos (Binary64.exponent x - 52)) as Hh.
  pose proof (pow2_pos (52 - Binary64.exponent x)) as Hg.
  set (e := Binary64.exponent x) in *. clearbody e.
  set (g := 2 ^ (52 - e)) in *. set (h := 2 ^ (e - 52)) in *. set (pe := 2 ^ e) in *.
  destruct (nearest_even_close (x * g)) as (N1 & N2).
  set (N := inject_Z (Binary64.nearest_even (x * g))) in *. clearbody N g h pe.
  assert (Hx1 : x * g * h == x).
  { rewrite <- Qmult_assoc, Hgh. ring. }
  assert (L1 : (x * g - (1 # 2)) * h <= N * h).
  { apply Qmult_le_compat_r; lra. }
  assert (L2 : N * h <= (x * g + (1 # 2)) * h).
  { apply Qmult_le_compat_r; lra. }
  split; lra.
Qed.

Lemma round_of_positive (x : Q) : 0 < x -> Binary64.round x = Qred (Binary64.round_pos (Qred x)).
Proof.
  intro Hx. unfold Binary64.round.
  assert (E : Qcompare x 0 = Gt) by (apply (proj1 (Qgt_alt _ _)); exact Hx).
  rewrite E. reflexivity.
Qed.

Lemma round_rel (x : Q) :
  0 < x ->
  x - x * Binary64.half_ulp <= Binary64.round x /\
  Binary64.round x <= x + x * Binary64.half_ulp.
Proof.
  intro Hx. rewrite (round_of_positive x Hx), Qred_correct.
  assert (Hx' : 0 < Qred x) by (rewrite Qred_correct; exact Hx).
  pose proof (round_pos_rel (Qred x) Hx') as H.
  pose proof (Qred_correct x) as Hq. unfold Binary64.half_ulp in *.
  set (rp := Binary64.round_pos (Qred x)) in *. set (xr := Qred x) in *.
  clearbody rp xr. split; lra.
Qed.

Lemma round_comp (x y : Q) : x == y -> Binary64.round x = Binary64.round y.
Proof.
  intro H. unfold Binary64.round.
  rewrite (Qcompare_comp x y H 0 0 ltac:(reflexivity)).
  rewrite (Qred_complete x y H).
  rewrite (Qred_complete (- x) (- y) ltac:(rewrite H; reflexivity)).
  reflexivity.
Qed.

Lemma nearest_even_range (m : Q) :
  4503599627370496 <= m -> m < 9007199254740992 ->
  (4503599627370496 <= Binary64.nearest_even m <= 9007199254740992)%Z.
Proof.
  intros H1 H2. destruct (nearest_even_close m) as (N1 & N2).
  split.
  - assert (H : inject_Z (4503599627370496 - 1) < inject_Z (Binary64.nearest_even m)).
    { eapply Qlt_le_trans; [|exact N1]. 
      change (inject_Z (4503599627370496 - 1)) with 4503599627370495. lra. }
    rewrite <- Zlt_Qlt in H. lia.
  - assert (H : inject_Z (Binary64.nearest_even m) < inject_Z (9007199254740992 + 1)).
    { eapply Qle_lt_trans; [exact N2|].
      change (inject_Z (9007199254740992 + 1)) with 9007199254740993. lra. }
    rewrite <- Zlt_Qlt in H. lia.
Qed.

(** A rounded number is a float: rounding it again changes nothing. *)
Lemma round_pos_fixed (z y : Q) :
  0 < z -> y == Binary64.round_pos z -> Binary64.round_pos y == Binary64.round_pos z.
Proof.
  intros Hz Hy.
  destruct (exponent_spec z Hz) as (E1 & E2).
  destruct (scale_facts (Binary64.exponent z)) as (Hgh & Hpe & Hpg).
  pose proof (pow2_pos (Binary64.exponent z - 52)) as Hh.
  pose proof (pow2_pos (52 - Binary64.exponent z)) as Hg.
  rewrite pow2_succ in E2.
  assert (M1 : 4503599627370496 <= z * 2 ^ (52 - Binary64.exponent z)).
  { rewrite <- Hpg. apply Qmult_le_compat_r; lra. }
  assert (M2 : z * 2 ^ (52 - Binary64.exponent z) < 9007199254740992).
  { assert (H : z * 2 ^ (52 - Binary64.exponent z)
                < 2 * 2 ^ Binary64.exponent z * 2 ^ (52 - Binary64.exponent z)).
    { apply Qmult_lt_compat_r; assumption. }
    rewrite <- Qmult_assoc, Hpg in H. lra. }
  pose proof (nearest_even_range _ M1 M2) as (R1 & R2).
  unfold Binary64.round_pos in Hy. unfold Binary64.round_pos at 2.
  set (e := Binary64.exponent z) in *.
  set (n := Binary64.nearest_even (z * 2 ^ (52 - e))) in *. clearbody n.
  assert (Q1 : 4503599627370496 <= inject_Z n).
  { change 4503599627370496 with (inject_Z 4503599627370496).
    rewrite <- Zle_Qle. exact R1. }
  assert (Hpos : 0 < y).
  { rewrite Hy. apply Qmult_lt_0_compat; lra. }
  destruct (Z.eq_dec n 9007199254740992) as [-> | Hne].
  - (* the significand carries into the next binade *)
    assert (Hy2 : y == 2 ^ (e + 1)).
    { rewrite Hy, pow2_succ, Hpe.
      change (inject_Z 9007199254740992) with 9007199254740992. ring. }
    assert (Ee : Binary64.exponent y = (e + 1)%Z).
    { apply exponent_unique; [exact Hpos | rewrite Hy2; apply Qle_refl |].
      rewrite Hy2, (pow2_succ (e + 1)). pose proof (pow2_pos (e + 1)). lra. }
    unfold Binary64.round_pos. rewrite Ee.
    destruct (scale_facts (e + 1)) as (_ & Hpe' & Hpg').
    assert (Hm : y * 2 ^ (52 - (e + 1)) == inject_Z 4503599627370496).
    { rewrite Hy2, Hpg'. reflexivity. }
    rewrite (nearest_even_comp _ _ Hm), nearest_even_Z.
    rewrite <- Hy, Hy2, Hpe'. reflexivity.
  - assert (Q2 : inject_Z n < 9007199254740992).
    { change 9007199254740992 with (inject_Z 9007199254740992).
      rewrite <- Zlt_Qlt. lia. }
    assert (Ee : Binary64.exponent y = e).
    { apply exponent_unique; [exact Hpos | |].
      - rewrite Hy, Hpe. apply Qmult_le_compat_r; lra.
      - rewrite Hy, pow2_succ, Hpe.
        assert (H : inject_Z n * 2 ^ (e - 52) < 9007199254740992 * 2 ^ (e - 52)).
        { apply Qmult_lt_compat_r; assumption. }
        lra. }
    unfold Binary64.round_pos. rewrite Ee.
    assert (Hm : y * 2 ^ (52 - e) == inject_Z n).
    { rewrite Hy, <- Qmult_assoc, (Qmult_comm (2 ^ (e - 52))), Hgh. ring. }
    rewrite (nearest_even_comp _ _ Hm), nearest_even_Z. reflexivity.
Qed.

Lemma round_idempotent (x : Q) : 0 < x -> Binary64.round (Binary64.round x) = Binary64.round x.
Proof.
  intro Hx.
  assert (Hr : 0 < Binary64.round x).
  { destruct (round_rel x Hx) as (H & _). unfold Binary64.half_ulp in H.
    assert (0 < x * (1 # 9007199254740992) * 9007199254740991) by nra.
    nra. }
  rewrite (round_of_positive (Binary64.round x) Hr).
  rewrite (round_of_positive x Hx) at 2.
  apply Qred_complete.
  assert (Hx' : 0 < Qred x) by (rewrite Qred_correct; exact Hx).
  apply (round_pos_fixed (Qred x)); [exact Hx'|].
  rewrite Qred_correct, (round_of_positive x Hx), Qred_correct. reflexivity.
Qed.

(** The floats the literals of [SearchWeights] denote, and two roundings
    of an addition and a division. *)
Example binary64_literals :
  Binary64.round (1 # 10) = 3602879701896397 # 36028797018963968 /\
  Binary64.round (2 # 10) = 3602879701896397 # 18014398509481984 /\
  Binary64.round (8 # 10) = 3602879701896397 # 4503599627370496 /\
  Binary64.round (5 # 10) = 1 # 2 /\
  Binary64.add (1 # 2) (Binary64.round (1 # 10))
  = 5404319552844595 # 9007199254740992 /\
  Binary64.div (1 # 2) (Binary64.add (Binary64.round (6 # 10)) (1 # 2))
  = 8188362958855447 # 18014398509481984.
Proof. vm_compute. repeat split. Qed.

Lemma round_positive (x : Q) : 0 < x -> 0 < Binary64.round x.
Proof.
  intro Hx. destruct (round_rel x Hx) as (H & _). unfold Binary64.half_ulp in H.
  lra.
Qed.

Lemma div_positive (a t : Q) : 0 < a -> 0 < t -> 0 < a / t.
Proof.
  intros Ha Ht. apply Qlt_shift_div_l; [exact Ht | lra].
Qed.

(** Dividing two positive floats by their float sum leaves positive
    floats whose sum is 1 up to three roundings. *)
Lemma renormalize_near_one (r1 s1 : Q) :
  0 < r1 -> 0 < s1 ->
  let t := Binary64.add r1 s1 in
  0 < t /\
  0 < Binary64.div r1 t /\ 0 < Binary64.div s1 t /\
  Binary64.round (Binary64.div r1 t) = Binary64.div r1 t /\
  Binary64.round (Binary64.div s1 t) = Binary64.div s1 t /\
  1 - 3 * Binary64.half_ulp <= Binary64.div r1 t + Binary64.div s1 t /\
  Binary64.div r1 t + Binary64.div s1 t <= 1 + 3 * Binary64.half_ulp.
Proof.
  intros Hr Hs t.
  assert (Hx : 0 < r1 + s1) by lra.
  pose proof (round_positive _ Hx) as Ht. fold (Binary64.add r1 s1) in Ht. fold t in Ht.
  pose proof (round_rel _ Hx) as (T1 & T2).
  fold (Binary64.add r1 s1) in T1, T2. fold t in T1, T2.
  pose proof (div_positive r1 t Hr Ht) as Hqr.
  pose proof (div_positive s1 t Hs Ht) as Hqs.
  unfold Binary64.div.
  pose proof (round_rel _ Hqr) as (R1 & R2).
  pose proof (round_rel _ Hqs) as (S1 & S2).
  assert (Hsum : r1 / t + s1 / t == (r1 + s1) / t).
  { unfold Qdiv. ring. }
  unfold Binary64.half_ulp in *.
  assert (Hhi : (r1 + s1) / t <= 9007199254740992 # 9007199254740991).
  { apply Qle_shift_div_r; [exact Ht | lra]. }
  assert (Hlo : 9007199254740992 # 9007199254740993 <= (r1 + s1) / t).
  { apply Qle_shift_div_l; [exact Ht | lra]. }
  clearbody t.
  set (qr := r1 / t) in *. set (qs := s1 / t) in *.
  set (q := (r1 + s1) / t) in *.
  split; [exact Ht|].
  split; [apply round_positive; exact Hqr|].
  split; [apply round_positive; exact Hqs|].
  split; [apply round_idempotent; exact Hqr|].
  split; [apply round_idempotent; exact Hqs|].
  set (rr := Binary64.round qr) in *. set (rs := Binary64.round qs) in *.
  clearbody rr rs qr qs q. split; lra.
Qed.

Lemma tenth_positive : 0 < Binary64.round (1 # 10).
Proof. vm_compute. reflexivity. Qed.

(** One [adjust] call on floats keeps [near_one] and succeeds whenever
    the judgment carries a recommendation. *)
Lemma adjust_near_one (eff : json) (w : SearchWeights) :
  Binary64.near_one w ->
  Binary64.near_one (snd (Binary64.adjust eff w)) /\
  (forall rec, getitem eff "focus_recommendation" = Ok rec ->
               fst (Binary64.adjust eff w) = Ok tt).
Proof.
  intros Hw. pose proof Hw as (Hmax & Hr & Hs & Rr & Rs & Hlo & Hhi).
  pose proof tenth_positive as Hd.
  unfold Binary64.adjust. destruct (getitem eff "focus_recommendation") as [rec|e].
  2:{ split; [exact Hw | intros rec H; discriminate]. }
  set (self1 := if eq_str rec "routine" then _ else _).
  assert (H1 : 0 < max_weight self1 /\ 0 < routine_weight self1 /\
               0 < story_weight self1).
  { subst self1.
    destruct (eq_str rec "routine"); [|destruct (eq_str rec "memory")];
      cbn [set_routine_weight set_story_weight routine_weight story_weight
           max_weight]; repeat split; try assumption.
    - destruct (py_min_cases (max_weight w)
                  (Binary64.add (routine_weight w) (Binary64.round (1 # 10))))
        as [[_ ->]|[_ ->]]; [exact Hmax|].
      apply round_positive. lra.
    - destruct (py_min_cases (max_weight w)
                  (Binary64.add (story_weight w) (Binary64.round (1 # 10))))
        as [[_ ->]|[_ ->]]; [exact Hmax|].
      apply round_positive. lra. }
  destruct H1 as (Hmax1 & Hr1 & Hs1).
  destruct (renormalize_near_one _ _ Hr1 Hs1) as (Ht & P1 & P2 & I1 & I2 & L & U).
  rewrite (total_nonzero _ Ht).
  cbn [fst snd set_routine_weight set_story_weight routine_weight story_weight
       min_weight max_weight].
  split; [|reflexivity].
  unfold Binary64.near_one.
  cbn [routine_weight story_weight min_weight max_weight].
  repeat split; assumption.
Qed.

Lemma default_near_one : Binary64.near_one Binary64.default_weights.
Proof.
  unfold Binary64.near_one, Binary64.default_weights.
  cbn [routine_weight story_weight max_weight].
  repeat split; vm_compute; try reflexivity; discriminate.
Qed.

Lemma adjust_all_near_one (effs : list json) (w : SearchWeights) :
  Binary64.near_one w -> Binary64.near_one (Binary64.adjust_all effs w).
Proof.
  revert w. induction effs as [|eff effs IH]; intros w Hw; [exact Hw|].
  cbn. apply IH. apply adjust_near_one. exact Hw.
Qed.

(** C9, as stated, fails on floats: after a 'routine' and a 'memory'
    adjustment the two weights add up to 0.9999999999999999, and a
    'balanced' adjustment, which divides both by that sum, moves each of
    them to the next float. *)
Lemma balanced_moves_both_weights :
  let w := Binary64.adjust_all
             [JDict [("focus_recommendation", JStr "routine")];
              JDict [("focus_recommendation", JStr "memory")]]
             Binary64.default_weights in
  let w' := snd (Binary64.adjust (JDict [("focus_recommendation", JStr "balanced")]) w) in
  routine_weight w = 2233189897869667 # 4503599627370496 /\
  story_weight w = 4540819459001657 # 9007199254740992 /\
  Binary64.add (routine_weight w) (story_weight w)
  = 9007199254740991 # 9007199254740992 /\
  routine_weight w' = 8932759591478669 # 18014398509481984 /\
  story_weight w' = 2270409729500829 # 4503599627370496 /\
  ~ routine_weight w' == routine_weight w /\
  ~ story_weight w' == story_weight w.
Proof.
  vm_compute. repeat split; try reflexivity; intro H; discriminate H.
Qed.

(** C9, amended: on weights reached from the defaults by earlier [adjust]
    calls, an [adjust] call whose recommendation is neither 'routine' nor
    'memory' (such as 'balanced') succeeds, adds no step and divides both
    weights by their sum.  On floats this moves neither weight by more
    than [2^-50], and leaves both unchanged when their float sum is
    exactly 1; in exact arithmetic the sum is 1 and both weights are
    unchanged. *)
Theorem balanced_unchanged_up_to_rounding (effs : list json) (eff rec : json) :
  getitem eff "focus_recommendation" = Ok rec ->
  eq_str rec "routine" = false ->
  eq_str rec "memory" = false ->
  let w := Binary64.adjust_all effs Binary64.default_weights in
  let w' := snd (Binary64.adjust eff w) in
  let total := Binary64.add (routine_weight w) (story_weight w) in
  fst (Binary64.adjust eff w) = Ok tt /\
  routine_weight w' = Binary64.div (routine_weight w) total /\
  story_weight w' = Binary64.div (story_weight w) total /\
  routine_weight w - (1 # 1125899906842624) <= routine_weight w' /\
  routine_weight w' <= routine_weight w + (1 # 1125899906842624) /\
  story_weight w - (1 # 1125899906842624) <= story_weight w' /\
  story_weight w' <= story_weight w + (1 # 1125899906842624) /\
  (total == 1 ->
   routine_weight w' = routine_weight w /\ story_weight w' = story_weight w) /\
  (let v := adjust_all effs default_weights in
   routine_weight (snd (adjust eff v)) == routine_weight v /\
   story_weight (snd (adjust eff v)) == story_weight v).
Proof.
  intros Hrec Hr Hm w w' total.
  pose proof (adjust_all_near_one effs _ default_near_one)
    as (Hmax & Hrp & Hsp & Rr & Rs & Hlo & Hhi).
  fold w in Hmax, Hrp, Hsp, Rr, Rs, Hlo, Hhi.
  assert (Hx : 0 < routine_weight w + story_weight w) by lra.
  pose proof (round_positive _ Hx) as Ht.
  pose proof (round_rel _ Hx) as (T1 & T2).
  fold (Binary64.add (routine_weight w) (story_weight w)) in Ht, T1, T2.
  fold total in Ht, T1, T2.
  assert (Hw' : Binary64.adjust eff w
                = (Ok tt,
                   set_story_weight
                     (set_routine_weight w (Binary64.div (routine_weight w) total))
                     (Binary64.div (story_weight w) total))).
  { unfold Binary64.adjust. rewrite Hrec, Hr, Hm. fold total.
    rewrite (total_nonzero _ Ht). reflexivity. }
  assert (Hbound : forall a, 0 < a -> a <= 1 + 3 * Binary64.half_ulp ->
            a - (1 # 1125899906842624) <= Binary64.div a total /\
            Binary64.div a total <= a + (1 # 1125899906842624)).
  { intros a Ha Ha1.
    pose proof (div_positive a total Ha Ht) as Hq.
    unfold Binary64.div. pose proof (round_rel _ Hq) as (Q1 & Q2).
    assert (Hqt : a / total * total == a).
    { field. intro H0. rewrite H0 in Ht. exact (Qlt_irrefl 0 Ht). }
    unfold Binary64.half_ulp in *.
    assert (L1 : a / total * (9007199254740987 # 9007199254740992)
                 <= a / total * total).
    { apply Qmult_le_l; [exact Hq | lra]. }
    assert (L2 : a / total * total
                 <= a / total * (9007199254740997 # 9007199254740992)).
    { apply Qmult_le_l; [exact Hq | lra]. }
    set (q := a / total) in *. set (rq := Binary64.round q) in *.
    set (qt := q * total) in *. clearbody rq qt q. clearbody total.
    split; lra. }
  subst w'. rewrite Hw'.
  cbn [fst snd set_routine_weight set_story_weight routine_weight story_weight].
  split; [reflexivity|]. split; [reflexivity|]. split; [reflexivity|].
  destruct (Hbound (routine_weight w) Hrp) as (B1 & B2); [lra|].
  destruct (Hbound (story_weight w) Hsp) as (B3 & B4); [lra|].
  split; [exact B1|]. split; [exact B2|]. split; [exact B3|]. split; [exact B4|].
  split.
  - intro Hone. unfold Binary64.div. split.
    + rewrite <- Rr at 2. apply round_comp. rewrite Hone. field.
    + rewrite <- Rs at 2. apply round_comp. rewrite Hone. field.
  - exact (proj2 (balanced_exact effs eff rec Hrec Hr Hm)).
Qed.

Lemma balanced_unchanged_up_to_rounding_witness :
  let balanced := JDict [("focus_recommendation", JStr "balanced")] in
  let w := Binary64.adjust_all
             [JDict [("focus_recommendation", JStr "routine")];
              JDict [("focus_recommendation", JStr "memory")]]
             Binary64.default_weights in
  let w' := snd (Binary64.adjust balanced w) in
  fst (Binary64.adjust balanced w) = Ok tt /\
  routine_weight w - (1 # 1125899906842624) <= routine_weight w' /\
  routine_weight w' <= routine_weight w + (1 # 1125899906842624).
Proof.
  intros balanced w w'.
  destruct (balanced_unchanged_up_to_rounding
              [JDict [("focus_recommendation", JStr "routine")];
               JDict [("focus_recommendation", JStr "memory")]]
              balanced (JStr "balanced") eq_refl eq_refl eq_refl)
    as (H1 & _ & _ & H2 & H3 & _).
  split; [exact H1|]. split; [exact H2 | exact H3].
Defined.

(* ------------------------------------------------------------------ *)
(** ** Activity locator *)

Lemma interval_contains_within (ts : string) (a : Activity) :
  interval_contains ts a = true <-> within ts a.
Proof. unfold interval_contains, within. apply andb_true_iff. Qed.

Lemma find_first_match {A} (f : A -> bool) (l : list A) :
  match find f l with
  | Some a =>
      exists before after,
        l = (before ++ a :: after)%list /\ f a = true /\
        Forall (fun b => f b = false) before
  | None => Forall (fun b => f b = false) l
  end.
Proof.
  induction l as [|x l IH]; cbn; [constructor|].
  destruct (f x) eqn:Ex.
  - exists [], l. repeat split; [exact Ex | constructor].
  - destruct (find f l) as [a|].
    + destruct IH as (before & after & Hl & Ha & Hb).
      exists (x :: before), after. rewrite Hl.
      repeat split; [exact Ha | constructor; assumption].
    + constructor; assumption.
Qed.

(** C5: the locator returns the first activity, in record order, whose
    interval contains the timestamp's HH:MM string with both bounds
    included, and none when no interval contains it; for the single
    activity 06:00-07:00 the queries at 06:00, 06:30 and 07:00 return it
    and the query at 07:30 returns none.  [get_current_activity] of the
    sibling agent is the same function. *)
Theorem locator_returns_first_containing (routine_data : list Activity) (t : datetime) :
  match get_activity_at_time routine_data t with
  | Some a =>
      exists before after,
        routine_data = (before ++ a :: after)%list /\
        within (strftime_HM t) a /\
        Forall (fun b => ~ within (strftime_HM t) b) before
  | None => Forall (fun b => ~ within (strftime_HM t) b) routine_data
  end /\
  get_current_activity routine_data t = get_activity_at_time routine_data t /\
  forall label place ps text,
    let breakfast := mkActivity "06:00" "07:00" label place ps text in
    get_activity_at_time [breakfast] (mkTime 6 0) = Some breakfast /\
    get_activity_at_time [breakfast] (mkTime 6 30) = Some breakfast /\
    get_activity_at_time [breakfast] (mkTime 7 0) = Some breakfast /\
    get_activity_at_time [breakfast] (mkTime 7 30) = None.
Proof.
  assert (Hno : forall ts l,
             Forall (fun b => interval_contains ts b = false) l ->
             Forall (fun b => ~ within ts b) l).
  { intros ts l H. eapply Forall_impl; [|exact H]. cbn. intros b Hb Hw.
    apply interval_contains_within in Hw. congruence. }
  split; [|split].
  - unfold get_activity_at_time.
    pose proof (find_first_match (interval_contains (strftime_HM t)) routine_data) as H.
    destruct (find (interval_contains (strftime_HM t)) routine_data) as [a|].
    + destruct H as (before & after & Hl & Ha & Hb).
      exists before, after. split; [exact Hl|]. split.
      * apply interval_contains_within. exact Ha.
      * apply Hno. exact Hb.
    + apply Hno. exact H.
  - reflexivity.
  - intros label place ps text breakfast. repeat split; reflexivity.
Qed.

(* ------------------------------------------------------------------ *)
(** ** Relevance scorer *)




Lemma count_matches_ok (text : string) (terms : list json) (n : nat) :
  Forall term_normalizes terms ->
  exists m, count_matches text terms n = Ok m.
Proof.
  revert n. induction terms as [|t terms IH]; intros n H; cbn; [eauto|].
  inversion H as [|? ? [s Hs] Hrest]; subst.
  rewrite Hs. cbn. apply IH. exact Hrest.
Qed.








(** The fallback for a term of another shape is the empty string, which
    occurs in every text: such a term counts as one match. *)
Remark other_shape_counts_as_match :
  _calculate_relevance (fun _ => "0.0") Config.default_priorities
    [("activity", JStr "Morning Walk")] (keyword_map [("people", [JInt 42])])
  = Ok (0 + inject_Z 1 * (4 # 10)).
Proof. reflexivity. Qed.

(* ------------------------------------------------------------------ *)
(** ** Graph operations *)

Lemma has_node_In (n : string) (G : Graph) :
  has_node n G = true <-> In n (node_ids G).
Proof.
  unfold has_node, node_ids. rewrite existsb_exists. split.
  - intros (nd & Hin & Heq). apply String.eqb_eq in Heq. subst.
    apply in_map. exact Hin.
  - intro H. apply in_map_iff in H. destruct H as (nd & Heq & Hin).
    exists nd. split; [exact Hin|]. apply String.eqb_eq. symmetry. exact Heq.
Qed.

Lemma has_node_false (n : string) (G : Graph) :
  has_node n G = false <-> ~ In n (node_ids G).
Proof.
  rewrite <- has_node_In. destruct (has_node n G); split; intro H;
    try congruence; try reflexivity.
Qed.

Lemma map_fst_update (n : string) (f : dict -> dict) (l : list (string * dict)) :
  map fst (map (fun nd => if String.eqb n (fst nd) then (fst nd, f (snd nd)) else nd) l)
  = map fst l.
Proof.
  induction l as [|nd l IH]; cbn; [reflexivity|].
  rewrite IH. destruct (String.eqb n (fst nd)); reflexivity.
Qed.

Lemma node_ids_add_node (n : string) (attr : dict) (G : Graph) :
  node_ids (add_node n attr G)
  = if has_node n G then node_ids G else (node_ids G ++ [n])%list.
Proof.
  unfold add_node, node_ids. destruct (has_node n G); cbn.
  - apply map_fst_update.
  - rewrite map_app. reflexivity.
Qed.

Lemma edges_add_node (n : string) (attr : dict) (G : Graph) :
  edges (add_node n attr G) = edges G.
Proof. unfold add_node. destruct (has_node n G); reflexivity. Qed.

Lemma edges_add_edge (u v : string) (attr : dict) (G : Graph) :
  edges (add_edge u v attr G) = (edges G ++ [(u, v, attr)])%list.
Proof.
  unfold add_edge. cbv zeta.
  repeat match goal with |- context [if ?b then _ else _] => destruct b end;
    reflexivity.
Qed.

Lemma In_node_ids_add_node (x n : string) (attr : dict) (G : Graph) :
  In x (node_ids (add_node n attr G)) <-> In x (node_ids G) \/ x = n.
Proof.
  rewrite node_ids_add_node. destruct (has_node n G) eqn:E.
  - split; [auto|]. intros [H | ->]; [exact H|]. apply has_node_In. exact E.
  - rewrite in_app_iff. cbn. intuition.
Qed.

Lemma In_node_ids_add_edge (x u v : string) (attr : dict) (G : Graph) :
  In x (node_ids (add_edge u v attr G)) <-> In x (node_ids G) \/ x = u \/ x = v.
Proof.
  unfold add_edge. cbv zeta.
  destruct (has_node u G) eqn:Eu.
  - apply has_node_In in Eu.
    destruct (has_node v G) eqn:Ev.
    + apply has_node_In in Ev. unfold node_ids in *. cbn [nodes].
      intuition; subst; assumption.
    + unfold node_ids in *. cbn [nodes]. rewrite map_app, in_app_iff. cbn.
      intuition; subst; auto.
  - match goal with |- context [has_node v ?g] => destruct (has_node v g) eqn:Ev end.
    + apply has_node_In in Ev. unfold node_ids in *. cbn [nodes] in *.
      rewrite map_app, in_app_iff in *. cbn in *. intuition; subst; auto.
    + unfold node_ids. cbn [nodes]. rewrite !map_app, !in_app_iff. cbn.
      intuition; subst; auto.
Qed.

Lemma NoDup_snoc {A} (l : list A) (x : A) :
  NoDup l -> ~ In x l -> NoDup (l ++ [x]).
Proof.
  intros Hl Hx. apply NoDup_app; [exact Hl | repeat constructor; intros [] | ].
  intros a Ha [-> | []]. exact (Hx Ha).
Qed.

Lemma NoDup_add_node (n : string) (attr : dict) (G : Graph) :
  NoDup (node_ids G) -> NoDup (node_ids (add_node n attr G)).
Proof.
  intro H. rewrite node_ids_add_node. destruct (has_node n G) eqn:E; [exact H|].
  apply NoDup_snoc; [exact H|]. apply has_node_false. exact E.
Qed.

Lemma NoDup_add_edge (u v : string) (attr : dict) (G : Graph) :
  NoDup (node_ids G) -> NoDup (node_ids (add_edge u v attr G)).
Proof.
  intro H. unfold add_edge.
  set (G1 := if has_node u G then G else mkGraph (nodes G ++ [(u, [])]) (edges G)).
  assert (H1 : NoDup (node_ids G1)).
  { subst G1. destruct (has_node u G) eqn:E; [exact H|].
    unfold node_ids; cbn [nodes]. rewrite map_app. cbn [map fst].
    apply NoDup_snoc; [exact H|]. apply has_node_false. exact E. }
  destruct (has_node v G1) eqn:Ev; [exact H1|].
  unfold node_ids; cbn [nodes]. rewrite map_app. cbn [map fst].
  apply NoDup_snoc; [exact H1|]. apply has_node_false. exact Ev.
Qed.

Lemma node_count_NoDup (n : string) (G : Graph) :
  NoDup (node_ids G) -> In n (node_ids G) -> node_count n G = 1%nat.
Proof.
  unfold node_count, node_ids. induction (nodes G) as [|nd l IH]; cbn; [intros _ []|].
  intros Hnd Hin. inversion Hnd as [|? ? Hnot Hrest]; subst.
  destruct (String.eqb_spec n (fst nd)) as [->|Hne]; cbn.
  - f_equal. clear IH Hin Hrest Hnd.
    induction l as [|nd' l IH]; cbn; [reflexivity|].
    destruct (String.eqb_spec (fst nd) (fst nd')) as [E|_].
    + exfalso. apply Hnot. left. symmetry. exact E.
    + apply IH. intro H. apply Hnot. right. exact H.
  - apply IH; [exact Hrest|]. destruct Hin as [E|H]; [congruence | exact H].
Qed.

(* ------------------------------------------------------------------ *)
(** ** Node identifiers *)

Lemma person_id_inj (a b : string) : person_id_of a = person_id_of b -> a = b.
Proof. unfold person_id_of. cbn. intro H. injection H. auto. Qed.

Lemma activity_id_inj (a b : string) : activity_id_of a = activity_id_of b -> a = b.
Proof. unfold activity_id_of. cbn. intro H. injection H. auto. Qed.

Lemma person_not_activity (a b : string) : person_id_of a <> activity_id_of b.
Proof. unfold person_id_of, activity_id_of. cbn. discriminate. Qed.

Lemma person_not_memory (a b : string) : person_id_of a <> memory_id_of b.
Proof. unfold person_id_of, memory_id_of. cbn. discriminate. Qed.

Lemma activity_not_memory (a b : string) : activity_id_of a <> memory_id_of b.
Proof. unfold activity_id_of, memory_id_of. cbn. discriminate. Qed.

Lemma known_person (N : list string) (p : string) :
  known_id N (person_id_of p) -> In p N.
Proof.
  intros [(l & H)|[(q & Hq & H)|(i & H)]].
  - exfalso. exact (person_not_activity _ _ H).
  - apply person_id_inj in H. subst. exact Hq.
  - exfalso. exact (person_not_memory _ _ H).
Qed.

(* ------------------------------------------------------------------ *)
(** ** The builder keeps the graph well formed *)

Lemma built_empty (N : list string) : built N empty_graph.
Proof.
  unfold built, edges_closed; cbn. repeat split; try constructor; contradiction.
Qed.

Lemma built_add_node (N : list string) (n : string) (attr : dict) (G : Graph) :
  built N G -> known_id N n -> built N (add_node n attr G).
Proof.
  intros (Hnd & Hids & Hed & Hcl) Hn. unfold built. repeat split.
  - apply NoDup_add_node. exact Hnd.
  - apply Forall_forall. intros x Hx. apply In_node_ids_add_node in Hx.
    destruct Hx as [Hx | ->]; [|exact Hn].
    rewrite Forall_forall in Hids. apply Hids. exact Hx.
  - rewrite edges_add_node. exact Hed.
  - rewrite edges_add_node in H. apply In_node_ids_add_node. left.
    apply (Hcl u v attr0 H).
  - rewrite edges_add_node in H. apply In_node_ids_add_node. left.
    apply (Hcl u v attr0 H).
Qed.

Lemma built_add_edge (N : list string) (u v : string) (attr : dict) (G : Graph) :
  built N G -> known_id N u -> known_id N v -> edge_ok N (u, v, attr) ->
  built N (add_edge u v attr G).
Proof.
  intros (Hnd & Hids & Hed & Hcl) Hu Hv He. unfold built. repeat split.
  - apply NoDup_add_edge. exact Hnd.
  - apply Forall_forall. intros x Hx. apply In_node_ids_add_edge in Hx.
    destruct Hx as [Hx | [-> | ->]]; [|exact Hu|exact Hv].
    rewrite Forall_forall in Hids. apply Hids. exact Hx.
  - rewrite edges_add_edge. apply Forall_app. split; [exact Hed|].
    constructor; [exact He | constructor].
  - rewrite edges_add_edge in H. apply in_app_iff in H.
    apply In_node_ids_add_edge. destruct H as [H | [H | []]].
    + left. apply (Hcl u0 v0 attr0 H).
    + inversion H; subst. right. left. reflexivity.
  - rewrite edges_add_edge in H. apply in_app_iff in H.
    apply In_node_ids_add_edge. destruct H as [H | [H | []]].
    + left. apply (Hcl u0 v0 attr0 H).
    + inversion H; subst. right. right. reflexivity.
Qed.

Lemma built_add_participant (N : list string) (label : string) (G : Graph)
    (person : Participant) :
  built N G -> In (name person) N ->
  built N (add_participant (activity_id_of label) G person).
Proof.
  intros HG Hin. unfold add_participant.
  assert (Hp : known_id N (person_id_of (name person))).
  { right. left. exists (name person). split; [exact Hin | reflexivity]. }
  assert (Ha : known_id N (activity_id_of label)).
  { left. exists label. reflexivity. }
  apply built_add_edge; [apply built_add_node; assumption | exact Ha | exact Hp |].
  repeat split; cbn.
  - left. exists label. reflexivity.
  - exists (name person). split; [exact Hin | reflexivity].
Qed.

Lemma built_add_activity (N : list string) (G : Graph) (a : Activity) :
  built N G -> incl (map name (get_participants a)) N ->
  built N (add_activity G a).
Proof.
  intros HG Hincl. unfold add_activity.
  assert (H0 : built N (add_node (activity_id_of (activity a))
                          (("type", JStr "activity") :: activity_items a) G)).
  { apply built_add_node; [exact HG|]. left. exists (activity a). reflexivity. }
  revert H0 Hincl. generalize (get_participants a).
  generalize (add_node (activity_id_of (activity a))
                (("type", JStr "activity") :: activity_items a) G).
  intros G0 ps. revert G0. induction ps as [|person ps IH]; intros G0 H0 Hincl; cbn.
  - exact H0.
  - apply IH.
    + apply built_add_participant; [exact H0|]. apply Hincl. left. reflexivity.
    + intros x Hx. apply Hincl. right. exact Hx.
Qed.

Lemma built_activities (N : list string) (routine_data : list Activity) (G : Graph) :
  built N G -> incl (participant_names routine_data) N ->
  built N (fold_left add_activity routine_data G).
Proof.
  revert G. induction routine_data as [|a l IH]; intros G HG Hincl; cbn; [exact HG|].
  unfold participant_names in Hincl. cbn in Hincl.
  apply IH.
  - apply built_add_activity; [exact HG|].
    intros x Hx. apply Hincl. apply in_app_iff. left. exact Hx.
  - intros x Hx. apply Hincl. apply in_app_iff. right. exact Hx.
Qed.

Lemma built_add_memory_person (N : list string) (ident : string) (G : Graph)
    (person : string) :
  built N G -> In (memory_id_of ident) (node_ids G) ->
  built N (add_memory_person (memory_id_of ident) G person).
Proof.
  intros HG Hm. unfold add_memory_person.
  destruct (has_node (person_id_of person) G) eqn:E; [|exact HG].
  apply has_node_In in E.
  assert (Hk : known_id N (person_id_of person)).
  { destruct HG as (_ & Hids & _). rewrite Forall_forall in Hids. apply Hids. exact E. }
  apply built_add_edge; [exact HG | | exact Hk |].
  - right. right. exists ident. reflexivity.
  - repeat split; cbn.
    + right. exists ident. reflexivity.
    + exists person. split; [apply (known_person N); exact Hk | reflexivity].
Qed.

Lemma add_memory_person_ids (mid : string) (G : Graph) (person x : string) :
  In x (node_ids G) -> In x (node_ids (add_memory_person mid G person)).
Proof.
  intro H. unfold add_memory_person.
  destruct (has_node (person_id_of person) G); [|exact H].
  apply In_node_ids_add_edge. left. exact H.
Qed.

Lemma built_add_memory (N : list string) (fallback : Memory -> string)
    (G : Graph) (m : Memory) :
  built N G -> built N (add_memory fallback G m).
Proof.
  intro HG. unfold add_memory.
  set (ident := match id m with Some i => i | None => fallback m end).
  assert (H0 : built N (add_node (memory_id_of ident)
                          (("type", JStr "memory") :: memory_items m) G)).
  { apply built_add_node; [exact HG|]. right. right. exists ident. reflexivity. }
  assert (H1 : In (memory_id_of ident)
                 (node_ids (add_node (memory_id_of ident)
                              (("type", JStr "memory") :: memory_items m) G))).
  { apply In_node_ids_add_node. right. reflexivity. }
  revert H0 H1. generalize (get_people m).
  generalize (add_node (memory_id_of ident)
                (("type", JStr "memory") :: memory_items m) G).
  intros G0 ps. revert G0. induction ps as [|person ps IH]; intros G0 H0 H1; cbn.
  - exact H0.
  - apply IH.
    + apply built_add_memory_person; assumption.
    + apply add_memory_person_ids. exact H1.
Qed.

Lemma built_memories (N : list string) (fallback : Memory -> string)
    (ms : list Memory) (G : Graph) :
  built N G -> built N (fold_left (add_memory fallback) ms G).
Proof.
  revert G. induction ms as [|m ms IH]; intros G HG; cbn; [exact HG|].
  apply IH. apply built_add_memory. exact HG.
Qed.

Lemma fold_left_flat_map {A B C} (g : A -> C -> A) (h : B -> list C)
    (l : list B) (a : A) :
  fold_left (fun acc b => fold_left g (h b) acc) l a
  = fold_left g (flat_map h l) a.
Proof.
  revert a. induction l as [|b l IH]; intro a; cbn; [reflexivity|].
  rewrite fold_left_app. apply IH.
Qed.

Lemma construct_memory_networks_flat (hash_description : string -> string)
    (routine_data : list Activity) (story_data : StoryData) :
  construct_memory_networks hash_description routine_data story_data
  = fold_left (add_memory (fun m => hash_description (description m)))
      (flat_map interview_memories (interviews story_data))
      (fold_left add_activity routine_data empty_graph).
Proof. unfold construct_memory_networks. apply fold_left_flat_map. Qed.

Lemma built_construct (hash_memory : Memory -> string)
    (routine_data : list Activity) (story_data : StoryData) :
  built (participant_names routine_data)
        (construct_memory_network hash_memory routine_data story_data).
Proof.
  unfold construct_memory_network. apply built_memories.
  apply built_activities; [apply built_empty | apply incl_refl].
Qed.

Lemma built_construct_networks (hash_description : string -> string)
    (routine_data : list Activity) (story_data : StoryData) :
  built (participant_names routine_data)
        (construct_memory_networks hash_description routine_data story_data).
Proof.
  rewrite construct_memory_networks_flat. apply built_memories.
  apply built_activities; [apply built_empty | apply incl_refl].
Qed.

Lemma built_no_orphans (N : list string) (G : Graph) :
  built N G -> no_orphans N G.
Proof.
  intros (Hnd & Hids & Hed & Hcl). rewrite Forall_forall in Hids, Hed.
  split; [exact Hcl|]. split.
  - intros u v attr Hin. destruct (Hed _ Hin) as (_ & Hp & _). exact Hp.
  - intros p Hp. split.
    + intro Hin. apply Hp. apply (known_person N). apply Hids. exact Hin.
    + intros u attr Hin. destruct (Hed _ Hin) as (_ & (q & Hq & Hv) & _).
      cbn in Hv. apply person_id_inj in Hv. subst. exact (Hp Hq).
Qed.

(** C7: whatever the records, in the graph of either builder every edge
    has both endpoints among the nodes and reaches the Person node of a
    participant of the routine; a person named only by memories has no
    node and no edge; a memory's reference to a person without a node
    leaves the graph as it is. *)
Theorem memory_edges_need_person_node (hash_memory : Memory -> string)
    (hash_description : string -> string)
    (routine_data : list Activity) (story_data : StoryData) :
  no_orphans (participant_names routine_data)
    (construct_memory_network hash_memory routine_data story_data) /\
  no_orphans (participant_names routine_data)
    (construct_memory_networks hash_description routine_data story_data) /\
  (forall memory_id G person,
      ~ In (person_id_of person) (node_ids G) ->
      add_memory_person memory_id G person = G) /\
  (forall memory_id G person,
      In memory_id (node_ids G) -> In (person_id_of person) (node_ids G) ->
      node_ids (add_memory_person memory_id G person) = node_ids G /\
      edges (add_memory_person memory_id G person)
      = (edges G ++ [(memory_id, person_id_of person, involves)])%list).
Proof.
  split; [|split; [|split]].
  - apply built_no_orphans. apply built_construct.
  - apply built_no_orphans. apply built_construct_networks.
  - intros mid G person H. unfold add_memory_person.
    apply has_node_false in H. rewrite H. reflexivity.
  - intros mid G person Hm Hp. unfold add_memory_person.
    pose proof Hp as Hp'. apply has_node_In in Hp'. rewrite Hp'.
    split; [|apply edges_add_edge].
    unfold add_edge. apply has_node_In in Hm. rewrite Hm, Hp'. reflexivity.
Qed.

(* ------------------------------------------------------------------ *)
(** ** Counting the edges that reach a Person node *)

Lemma in_count_add_node (x n : string) (attr : dict) (G : Graph) :
  in_count x (add_node n attr G) = in_count x G.
Proof. unfold in_count. rewrite edges_add_node. reflexivity. Qed.

Lemma in_count_add_edge (x u v : string) (attr : dict) (G : Graph) :
  in_count x (add_edge u v attr G)
  = (in_count x G + if String.eqb x v then 1 else 0)%nat.
Proof.
  unfold in_count. rewrite edges_add_edge, filter_app, length_app. cbn.
  destruct (String.eqb x v); reflexivity.
Qed.

Lemma eqb_person_id (p q : string) :
  String.eqb (person_id_of p) (person_id_of q) = if string_dec q p then true else false.
Proof.
  destruct (string_dec q p) as [->|Hne].
  - apply String.eqb_refl.
  - apply String.eqb_neq. intro H. apply person_id_inj in H. congruence.
Qed.

Lemma occurrences_cons (p q : string) (l : list string) :
  occurrences p (q :: l)
  = ((if string_dec q p then 1 else 0) + occurrences p l)%nat.
Proof. unfold occurrences. cbn. destruct (string_dec q p); reflexivity. Qed.

Lemma occurrences_nil (p : string) : occurrences p [] = 0%nat.
Proof. reflexivity. Qed.

Lemma occurrences_app (p : string) (l l' : list string) :
  occurrences p (l ++ l') = (occurrences p l + occurrences p l')%nat.
Proof. unfold occurrences. apply count_occ_app. Qed.

Lemma in_count_add_participant (p aid : string) (G : Graph) (person : Participant) :
  in_count (person_id_of p) (add_participant aid G person)
  = (in_count (person_id_of p) G + occurrences p [name person])%nat.
Proof.
  unfold add_participant. rewrite in_count_add_edge, in_count_add_node.
  rewrite eqb_person_id, occurrences_cons, occurrences_nil.
  destruct (string_dec (name person) p); lia.
Qed.

Lemma in_count_participants (p aid : string) (ps : list Participant) (G : Graph) :
  in_count (person_id_of p) (fold_left (add_participant aid) ps G)
  = (in_count (person_id_of p) G + occurrences p (map name ps))%nat.
Proof.
  revert G. induction ps as [|person ps IH]; intro G; cbn [fold_left map].
  - rewrite occurrences_nil. lia.
  - rewrite IH, in_count_add_participant, !occurrences_cons, occurrences_nil. lia.
Qed.

Lemma in_count_activities (p : string) (routine_data : list Activity) (G : Graph) :
  in_count (person_id_of p) (fold_left add_activity routine_data G)
  = (in_count (person_id_of p) G + occurrences p (participant_names routine_data))%nat.
Proof.
  revert G. induction routine_data as [|a l IH]; intro G; cbn [fold_left].
  - unfold participant_names. cbn [flat_map]. rewrite occurrences_nil. lia.
  - rewrite IH. unfold add_activity.
    rewrite in_count_participants, in_count_add_node.
    unfold participant_names. cbn [flat_map]. rewrite occurrences_app. lia.
Qed.

Lemma participants_ids_mono (aid x : string) (ps : list Participant) (G : Graph) :
  In x (node_ids G) -> In x (node_ids (fold_left (add_participant aid) ps G)).
Proof.
  revert G. induction ps as [|person ps IH]; intros G H; cbn; [exact H|].
  apply IH. unfold add_participant.
  apply In_node_ids_add_edge. left. apply In_node_ids_add_node. left. exact H.
Qed.

Lemma add_activity_ids_mono (x : string) (a : Activity) (G : Graph) :
  In x (node_ids G) -> In x (node_ids (add_activity G a)).
Proof.
  intro H. unfold add_activity. apply participants_ids_mono.
  apply In_node_ids_add_node. left. exact H.
Qed.

Lemma activities_ids_mono (x : string) (l : list Activity) (G : Graph) :
  In x (node_ids G) -> In x (node_ids (fold_left add_activity l G)).
Proof.
  revert G. induction l as [|a l IH]; intros G H; cbn; [exact H|].
  apply IH. apply add_activity_ids_mono. exact H.
Qed.

Lemma participants_person_node (aid p : string) (ps : list Participant) (G : Graph) :
  In p (map name ps) ->
  In (person_id_of p) (node_ids (fold_left (add_participant aid) ps G)).
Proof.
  revert G. induction ps as [|person ps IH]; intros G H; cbn in *; [contradiction|].
  destruct H as [<- | H].
  - apply participants_ids_mono. unfold add_participant.
    apply In_node_ids_add_edge. right. right. reflexivity.
  - apply IH. exact H.
Qed.

Lemma activities_person_node (p : string) (l : list Activity) (G : Graph) :
  In p (participant_names l) ->
  In (person_id_of p) (node_ids (fold_left add_activity l G)).
Proof.
  revert G. induction l as [|a l IH]; intros G H; cbn in *; [contradiction|].
  unfold participant_names in H. cbn in H. apply in_app_iff in H.
  destruct H as [H | H].
  - apply activities_ids_mono. unfold add_activity.
    apply participants_person_node. exact H.
  - apply IH. exact H.
Qed.

Lemma in_count_memory_people (p mid : string) (qs : list string) (G : Graph) :
  In (person_id_of p) (node_ids G) ->
  In (person_id_of p) (node_ids (fold_left (add_memory_person mid) qs G)) /\
  in_count (person_id_of p) (fold_left (add_memory_person mid) qs G)
  = (in_count (person_id_of p) G + occurrences p qs)%nat.
Proof.
  revert G. induction qs as [|q qs IH]; intros G H; cbn [fold_left].
  - split; [exact H|]. rewrite occurrences_nil. lia.
  - destruct (IH (add_memory_person mid G q) (add_memory_person_ids mid G q _ H))
      as (H1 & H2).
    split; [exact H1|]. rewrite H2, occurrences_cons.
    unfold add_memory_person.
    destruct (has_node (person_id_of q) G) eqn:E.
    + rewrite in_count_add_edge, eqb_person_id.
      destruct (string_dec q p); lia.
    + destruct (string_dec q p) as [->|_]; [|lia].
      apply has_node_In in H. congruence.
Qed.

Lemma in_count_memories (p : string) (fallback : Memory -> string)
    (ms : list Memory) (G : Graph) :
  In (person_id_of p) (node_ids G) ->
  in_count (person_id_of p) (fold_left (add_memory fallback) ms G)
  = (in_count (person_id_of p) G + occurrences p (memory_people ms))%nat.
Proof.
  revert G. induction ms as [|m ms IH]; intros G H; cbn [fold_left].
  - unfold memory_people. cbn [flat_map]. rewrite occurrences_nil. lia.
  - unfold add_memory at 2.
    match goal with
    | |- context [fold_left (add_memory_person ?mid) ?qs ?G0] =>
        destruct (in_count_memory_people p mid qs G0) as (H1 & H2)
    end.
    { apply In_node_ids_add_node. left. exact H. }
    rewrite (IH _ H1). unfold add_memory. rewrite H2, in_count_add_node.
    unfold memory_people. cbn [flat_map]. rewrite occurrences_app. lia.
Qed.

Lemma incident_in_count (N : list string) (p : string) (G : Graph) :
  built N G ->
  List.length (incident_involves (person_id_of p) G) = in_count (person_id_of p) G.
Proof.
  intros (_ & _ & Hed & _). unfold incident_involves, in_count. f_equal.
  apply filter_ext_in. intros e He. rewrite Forall_forall in Hed.
  destruct (Hed e He) as (Hsrc & _ & Hattr).
  assert (Hs : String.eqb (person_id_of p) (fst (fst e)) = false).
  { apply String.eqb_neq. intro H. destruct Hsrc as [(l & Hl) | (i & Hi)].
    - rewrite Hl in H. exact (person_not_activity _ _ H).
    - rewrite Hi in H. exact (person_not_memory _ _ H). }
  rewrite Hs, Hattr. cbn [orb]. unfold involves. cbn [dict_get eq_str].
  rewrite !String.eqb_refl. apply andb_true_r.
Qed.

(** C6, amended: a name that is a participant of the routine has exactly
    one Person node, whatever the number of activities that list it, and
    that node has one incident 'involves' edge per reference to the name:
    one per participant entry carrying the name (an activity that lists
    the name twice counts twice), plus one per occurrence of the name in
    the 'people' list of a memory (a memory that lists it twice counts
    twice).  With exactly two participant entries carrying the name, as
    when two activities list it once each, and no memory reference, the
    node has exactly two incident 'involves' edges. *)
Theorem one_person_node_per_name (hash_memory : Memory -> string)
    (routine_data : list Activity) (story_data : StoryData) (p : string) :
  In p (participant_names routine_data) ->
  let G := construct_memory_network hash_memory routine_data story_data in
  node_count (person_id_of p) G = 1%nat /\
  List.length (incident_involves (person_id_of p) G)
  = (occurrences p (participant_names routine_data)
     + occurrences p (memory_people (get_memories story_data)))%nat /\
  (occurrences p (participant_names routine_data) = 2%nat ->
   occurrences p (memory_people (get_memories story_data)) = 0%nat ->
   List.length (incident_involves (person_id_of p) G) = 2%nat).
Proof.
  intros Hp G.
  pose proof (built_construct hash_memory routine_data story_data) as HB.
  fold G in HB.
  assert (Hnode : In (person_id_of p)
                    (node_ids (fold_left add_activity routine_data empty_graph))).
  { apply activities_person_node. exact Hp. }
  assert (Hcount : List.length (incident_involves (person_id_of p) G)
                   = (occurrences p (participant_names routine_data)
                      + occurrences p (memory_people (get_memories story_data)))%nat).
  { rewrite (incident_in_count _ p G HB). subst G. unfold construct_memory_network.
    rewrite (in_count_memories p hash_memory _ _ Hnode), in_count_activities.
    reflexivity. }
  split; [|split].
  - apply node_count_NoDup; [exact (proj1 HB)|].
    subst G. unfold construct_memory_network.
    assert (Hmono : forall ms G0, In (person_id_of p) (node_ids G0) ->
              In (person_id_of p) (node_ids (fold_left (add_memory hash_memory) ms G0))).
    { induction ms as [|m ms IH]; intros G0 H0; cbn [fold_left]; [exact H0|].
      apply IH. unfold add_memory.
      match goal with
      | |- context [fold_left (add_memory_person ?mid) ?qs ?G1] =>
          apply (in_count_memory_people p mid qs G1)
      end.
      apply In_node_ids_add_node. left. exact H0. }
    apply Hmono. exact Hnode.
  - exact Hcount.
  - intros H2 H0. rewrite Hcount, H2, H0. reflexivity.
Qed.

Lemma one_person_node_per_name_witness :
  let breakfast := mkActivity "06:00" "07:00" "Breakfast" "Kitchen"
                     (Some [mkParticipant "daughter" "Mary"]) "" in
  let lunch := mkActivity "12:00" "13:00" "Lunch" "Dining room"
                 (Some [mkParticipant "daughter" "Mary"; mkParticipant "nurse" "Ann"]) "" in
  let G := construct_memory_network (fun _ => "0") [breakfast; lunch]
             (mkStoryData None []) in
  node_count "person_Mary" G = 1%nat /\
  List.length (incident_involves "person_Mary" G) = 2%nat.
Proof.
  intros breakfast lunch G.
  destruct (one_person_node_per_name (fun _ => "0") [breakfast; lunch]
              (mkStoryData None []) "Mary") as (H1 & _ & H3).
  - cbn. left. reflexivity.
  - split; [exact H1 | apply H3; reflexivity].
Defined.

(** C6, as stated, fails: with "Mary" a participant of two different
    activities and named by one memory, her Person node has three incident
    'involves' edges. *)
Lemma memory_reference_adds_third_edge :
  let breakfast := mkActivity "06:00" "07:00" "Breakfast" "Kitchen"
                     (Some [mkParticipant "daughter" "Mary"]) "" in
  let lunch := mkActivity "12:00" "13:00" "Lunch" "Dining room"
                 (Some [mkParticipant "daughter" "Mary"]) "" in
  let wedding := mkMemory (Some "m1") 1975 "Wedding" "Mary's wedding day" ""
                   "" (Some ["Mary"]) in
  let G := construct_memory_network (fun _ => "0") [breakfast; lunch]
             (mkStoryData (Some [wedding]) []) in
  participant_names [breakfast; lunch] = ["Mary"; "Mary"] /\
  node_count "person_Mary" G = 1%nat /\
  List.length (incident_involves "person_Mary" G) = 3%nat.
Proof. repeat split. Qed.

(* ------------------------------------------------------------------ *)
(** ** Attribute bags *)

Lemma dict_get_set (k k' : string) (v : json) (d : dict) :
  dict_get k (dict_set k' v d)
  = if String.eqb k k' then Some v else dict_get k d.
Proof.
  induction d as [|[k1 v1] d IH]; cbn.
  - destruct (String.eqb k k'); reflexivity.
  - destruct (String.eqb_spec k' k1) as [->|Hne]; cbn.
    + destruct (String.eqb k k1); reflexivity.
    + rewrite IH. destruct (String.eqb_spec k k1) as [->|_]; [|reflexivity].
      destruct (String.eqb_spec k1 k') as [E|_]; [congruence | reflexivity].
Qed.

Lemma dict_get_None_keys (k : string) (d : dict) :
  ~ In k (map fst d) -> dict_get k d = None.
Proof.
  induction d as [|[k1 v1] d IH]; cbn; [reflexivity|]. intro H.
  destruct (String.eqb_spec k k1) as [->|_]; [exfalso; auto | apply IH; auto].
Qed.

(** A key that the update does not carry keeps its value. *)
Lemma dict_update_kept (k : string) (other d : dict) :
  dict_get k other = None -> dict_get k (dict_update d other) = dict_get k d.
Proof.
  unfold dict_update. revert d.
  induction other as [|[k1 v1] other IH]; intros d H; cbn in *; [reflexivity|].
  destruct (String.eqb k k1) eqn:E; [discriminate|].
  rewrite (IH _ H), dict_get_set, E. reflexivity.
Qed.

(** A key that the update carries takes the update's value. *)
Lemma dict_update_overwritten (k : string) (v : json) (other d : dict) :
  NoDup (map fst other) -> dict_get k other = Some v ->
  dict_get k (dict_update d other) = Some v.
Proof.
  unfold dict_update. revert d.
  induction other as [|[k1 v1] other IH]; intros d Hnd H; cbn in *; [discriminate|].
  inversion Hnd as [|? ? Hnot Hrest]; subst.
  destruct (String.eqb_spec k k1) as [->|Hne].
  - injection H as <-.
    pose proof (dict_update_kept k1 other (dict_set k1 v1 d)
                  (dict_get_None_keys _ _ Hnot)) as Hk.
    unfold dict_update in Hk. rewrite Hk, dict_get_set, String.eqb_refl. reflexivity.
  - apply IH; assumption.
Qed.

Lemma activity_bag_keys (a : Activity) :
  NoDup (map fst (("type", JStr "activity") :: activity_items a)).
Proof.
  unfold activity_items. destruct (participants a); cbn;
    repeat constructor; cbn; intuition discriminate.
Qed.

Lemma find_app_found {A} (f : A -> bool) (l l' : list A) (x : A) :
  find f l = Some x -> find f (l ++ l') = Some x.
Proof.
  induction l as [|y l IH]; cbn; [discriminate|].
  destruct (f y); [auto | exact IH].
Qed.

Lemma find_app_none {A} (f : A -> bool) (l l' : list A) :
  find f l = None -> find f (l ++ l') = find f l'.
Proof.
  induction l as [|y l IH]; cbn; [reflexivity|].
  destruct (f y); [discriminate | exact IH].
Qed.

Lemma node_attrs_In (n : string) (G : Graph) (d : dict) :
  node_attrs n G = Some d -> In n (node_ids G).
Proof.
  unfold node_attrs, node_ids.
  destruct (find (fun nd => String.eqb n (fst nd)) (nodes G)) as [nd|] eqn:E;
    [|discriminate].
  intros _. apply find_some in E. destruct E as (Hin & Heq).
  apply String.eqb_eq in Heq. subst. apply in_map. exact Hin.
Qed.

Lemma node_attrs_None (n : string) (G : Graph) :
  has_node n G = false -> node_attrs n G = None.
Proof.
  intro H. destruct (node_attrs n G) as [d|] eqn:E; [|reflexivity].
  apply node_attrs_In in E. apply has_node_In in E. congruence.
Qed.

Lemma node_attrs_add_node_other (n n' : string) (attr : dict) (G : Graph) :
  n <> n' -> node_attrs n (add_node n' attr G) = node_attrs n G.
Proof.
  intro Hne. unfold add_node, node_attrs. destruct (has_node n' G); cbn [nodes].
  - f_equal. induction (nodes G) as [|nd l IH]; cbn; [reflexivity|].
    destruct (String.eqb_spec n' (fst nd)) as [E|_]; cbn.
    + destruct (String.eqb_spec n (fst nd)) as [E'|_]; [congruence | exact IH].
    + destruct (String.eqb n (fst nd)); [reflexivity | exact IH].
  - f_equal. destruct (find (fun nd => String.eqb n (fst nd)) (nodes G)) eqn:E.
    + apply find_app_found. exact E.
    + rewrite (find_app_none _ _ _ E). cbn.
      destruct (String.eqb_spec n n'); [contradiction | reflexivity].
Qed.

Lemma node_attrs_add_node_same (n : string) (attr : dict) (G : Graph) :
  node_attrs n (add_node n attr G)
  = Some (match node_attrs n G with
          | Some d => dict_update d attr
          | None => attr
          end).
Proof.
  unfold add_node. destruct (has_node n G) eqn:E.
  - unfold node_attrs. cbn [nodes].
    apply has_node_In in E. unfold node_ids in E.
    induction (nodes G) as [|nd l IH]; cbn in *; [contradiction|].
    destruct (String.eqb_spec n (fst nd)) as [Heq|Hne]; cbn.
    + rewrite Heq, String.eqb_refl. reflexivity.
    + destruct (String.eqb_spec n (fst nd)); [contradiction|].
      apply IH. destruct E as [E|E]; [congruence | exact E].
  - rewrite (node_attrs_None _ _ E). unfold node_attrs. cbn [nodes].
    assert (Hf : find (fun nd => String.eqb n (fst nd)) (nodes G) = None).
    { pose proof (node_attrs_None _ _ E) as H. unfold node_attrs in H.
      destruct (find (fun nd => String.eqb n (fst nd)) (nodes G)); [discriminate|].
      reflexivity. }
    rewrite (find_app_none _ _ _ Hf). cbn. rewrite String.eqb_refl. reflexivity.
Qed.

Lemma node_attrs_add_edge (n u v : string) (attr d : dict) (G : Graph) :
  node_attrs n G = Some d -> node_attrs n (add_edge u v attr G) = Some d.
Proof.
  unfold add_edge, node_attrs. cbv zeta. intro H.
  destruct (find (fun nd => String.eqb n (fst nd)) (nodes G)) as [nd|] eqn:E;
    [|discriminate].
  repeat match goal with |- context [if ?b then _ else _] => destruct b end;
    cbn [nodes]; repeat rewrite (find_app_found _ _ _ _ E);
    try rewrite E; try exact H.
  all: try (erewrite find_app_found; [exact H | apply find_app_found; exact E]).
Qed.

Lemma attrs_kept_participants (label aid : string) (d : dict)
    (ps : list Participant) (G : Graph) :
  node_attrs (activity_id_of label) G = Some d ->
  node_attrs (activity_id_of label) (fold_left (add_participant aid) ps G) = Some d.
Proof.
  revert G. induction ps as [|person ps IH]; intros G H; cbn [fold_left]; [exact H|].
  apply IH. unfold add_participant. apply node_attrs_add_edge.
  rewrite node_attrs_add_node_other; [exact H|].
  intro E. symmetry in E. exact (person_not_activity _ _ E).
Qed.

Lemma attrs_kept_activities (label : string) (d : dict)
    (l : list Activity) (G : Graph) :
  Forall (fun b => activity b <> label) l ->
  node_attrs (activity_id_of label) G = Some d ->
  node_attrs (activity_id_of label) (fold_left add_activity l G) = Some d.
Proof.
  revert G. induction l as [|b l IH]; intros G Hl H; cbn [fold_left]; [exact H|].
  inversion Hl as [|? ? Hb Hrest]; subst.
  apply IH; [exact Hrest|]. unfold add_activity. apply attrs_kept_participants.
  rewrite node_attrs_add_node_other; [exact H|].
  intro E. apply activity_id_inj in E. congruence.
Qed.

Lemma attrs_kept_memories (label : string) (d : dict)
    (fallback : Memory -> string) (ms : list Memory) (G : Graph) :
  node_attrs (activity_id_of label) G = Some d ->
  node_attrs (activity_id_of label) (fold_left (add_memory fallback) ms G) = Some d.
Proof.
  revert G. induction ms as [|m ms IH]; intros G H; cbn [fold_left]; [exact H|].
  apply IH. unfold add_memory.
  match goal with
  | |- context [fold_left (add_memory_person ?mid) ?qs ?G0] =>
      assert (H0 : node_attrs (activity_id_of label) G0 = Some d);
      [| revert H0; generalize G0; generalize qs; generalize mid ]
  end.
  { rewrite node_attrs_add_node_other; [exact H|]. apply activity_not_memory. }
  intros mid qs. induction qs as [|q qs IHq]; intros G0 H0; cbn [fold_left]; [exact H0|].
  apply IHq. unfold add_memory_person.
  destruct (has_node (person_id_of q) G0); [|exact H0].
  apply node_attrs_add_edge. exact H0.
Qed.

Lemma merged_after_activities (before after : list Activity) (a : Activity) :
  Forall (fun b => activity b <> activity a) after ->
  exists d,
    node_attrs (activity_id_of (activity a))
      (fold_left add_activity (before ++ a :: after) empty_graph) = Some d /\
    (forall k v, dict_get k (activity_bag a) = Some v -> dict_get k d = Some v) /\
    (forall k, dict_get k (activity_bag a) = None ->
               dict_get k d
               = node_attr (activity_id_of (activity a)) k
                   (fold_left add_activity before empty_graph)).
Proof.
  intro Hafter. rewrite fold_left_app. cbn [fold_left].
  set (G1 := fold_left add_activity before empty_graph).
  set (n := activity_id_of (activity a)).
  set (d := match node_attrs n G1 with
            | Some d0 => dict_update d0 (activity_bag a)
            | None => activity_bag a
            end).
  exists d. split; [|split].
  - apply attrs_kept_activities; [exact Hafter|].
    unfold add_activity. apply attrs_kept_participants.
    apply node_attrs_add_node_same.
  - intros k v Hk. subst d. destruct (node_attrs n G1); [|exact Hk].
    apply dict_update_overwritten; [apply activity_bag_keys | exact Hk].
  - intros k Hk. subst d. unfold node_attr. destruct (node_attrs n G1).
    + apply dict_update_kept. exact Hk.
    + exact Hk.
Qed.

Lemma merged_after_memories (before after : list Activity) (a : Activity)
    (fallback : Memory -> string) (ms : list Memory) :
  Forall (fun b => activity b <> activity a) after ->
  built (participant_names (before ++ a :: after))
    (fold_left (add_memory fallback) ms
       (fold_left add_activity (before ++ a :: after) empty_graph)) ->
  merged_activity_node before a
    (fold_left (add_memory fallback) ms
       (fold_left add_activity (before ++ a :: after) empty_graph)).
Proof.
  intros Hafter HB.
  destruct (merged_after_activities before after a Hafter) as (d & Hd & Hover & Hkept).
  pose proof (attrs_kept_memories _ d fallback ms _ Hd) as Hfinal.
  unfold merged_activity_node. cbv zeta. split; [|split].
  - apply node_count_NoDup; [exact (proj1 HB)|]. exact (node_attrs_In _ _ _ Hfinal).
  - intros k v Hk. unfold node_attr. rewrite Hfinal. apply Hover. exact Hk.
  - intros k Hk. unfold node_attr at 1. rewrite Hfinal. apply Hkept. exact Hk.
Qed.

(** C10, as stated, fails: the bag of the node is not the bag of the last
    activity carrying the label when an earlier one has a key the last one
    lacks; the earlier [participants] stay on the node. *)
Lemma earlier_attribute_is_kept :
  let noon := mkActivity "12:00" "13:00" "Lunch" "Dining room"
                (Some [mkParticipant "daughter" "Mary"]) "" in
  let evening := mkActivity "18:00" "19:00" "Lunch" "Dining room" None "" in
  let G := construct_memory_network (fun _ => "0") [noon; evening]
             (mkStoryData None []) in
  node_count "activity_Lunch" G = 1%nat /\
  dict_get "participants" (activity_bag evening) = None /\
  node_attr "activity_Lunch" "participants" G
  = Some (JList [JDict [("role", JStr "daughter"); ("name", JStr "Mary")]]) /\
  node_attrs "activity_Lunch" G <> Some (activity_bag evening).
Proof. repeat split. discriminate. Qed.

(** C10, amended: when several activities carry the same label, the graph
    of either builder has a single Activity node "activity_<label>", whose
    attributes are updated key by key: every key of the last such
    activity holds that activity's value, and a key the last one lacks
    keeps what the earlier activities left under it. *)
Theorem duplicate_label_merges_attributes (hash_memory : Memory -> string)
    (hash_description : string -> string)
    (before after : list Activity) (a : Activity) (story_data : StoryData) :
  Forall (fun b => activity b <> activity a) after ->
  merged_activity_node before a
    (construct_memory_network hash_memory (before ++ a :: after) story_data) /\
  merged_activity_node before a
    (construct_memory_networks hash_description (before ++ a :: after) story_data).
Proof.
  intro Hafter. split.
  - apply merged_after_memories; [exact Hafter|]. apply built_construct.
  - rewrite construct_memory_networks_flat.
    apply merged_after_memories; [exact Hafter|].
    rewrite <- construct_memory_networks_flat. apply built_construct_networks.
Qed.

Lemma duplicate_label_merges_attributes_witness :
  let noon := mkActivity "12:00" "13:00" "Lunch" "Dining room"
                (Some [mkParticipant "daughter" "Mary"]) "" in
  let evening := mkActivity "18:00" "19:00" "Lunch" "Garden"
                   (Some [mkParticipant "nurse" "Ann"]) "" in
  merged_activity_node [noon] evening
    (construct_memory_network (fun _ => "0") ([noon] ++ evening :: [])
       (mkStoryData None [])).
Proof.
  intros noon evening.
  exact (proj1 (duplicate_label_merges_attributes (fun _ => "0") (fun _ => "0")
                  [noon] [] evening (mkStoryData None [])
                  (Forall_nil _))).
Defined.

(* ------------------------------------------------------------------ *)
(** ** The broadening search *)

Lemma insert_desc_perm (x : Candidate) (l : list Candidate) :
  Permutation (x :: l) (insert_desc x l).
Proof.
  induction l as [|y l IH]; cbn; [apply Permutation_refl|].
  destruct (Qle_bool (relevance y) (relevance x)); [apply Permutation_refl|].
  eapply Permutation_trans; [apply perm_swap|]. apply perm_skip. exact IH.
Qed.

Lemma sorted_reverse_perm (l : list Candidate) : Permutation l (sorted_reverse l).
Proof.
  induction l as [|x l IH]; cbn; [constructor|].
  eapply Permutation_trans; [apply perm_skip; exact IH | apply insert_desc_perm].
Qed.

Lemma insert_desc_descending (x : Candidate) (l : list Candidate) :
  descending l -> descending (insert_desc x l).
Proof.
  unfold descending. induction l as [|y l IH]; intro H; cbn.
  - repeat constructor.
  - inversion H as [|? ? Hl Hy]; subst.
    destruct (Qle_bool (relevance y) (relevance x)) eqn:E.
    + apply Qle_bool_iff in E. constructor; [exact H|].
      constructor; [exact E|].
      eapply Forall_impl; [|exact Hy]. cbn. intros z Hz.
      eapply Qle_trans; eassumption.
    + constructor; [apply IH; exact Hl|].
      eapply Permutation_Forall; [apply insert_desc_perm|].
      constructor; [|exact Hy].
      apply Qlt_le_weak. apply Qnot_le_lt. intro Hle.
      apply Qle_bool_iff in Hle. congruence.
Qed.

Lemma sorted_reverse_descending (l : list Candidate) : descending (sorted_reverse l).
Proof.
  induction l as [|x l IH]; cbn; [constructor|].
  apply insert_desc_descending. exact IH.
Qed.

Lemma weigh_node_spec (float_repr : Q -> string) (w : SearchWeights)
    (p : Config.SearchPriorities) (kw : json) (nd : string * dict) (c : Candidate) :
  weigh_node float_repr w p kw nd = Ok c ->
  weighted_candidate float_repr w p kw nd c.
Proof.
  unfold weigh_node, weighted_candidate.
  destruct (_calculate_relevance float_repr p (snd nd) kw) as [score|e]; cbn;
    [|discriminate].
  destruct (dict_get "type" (snd nd)) as [ty|]; cbn; [|discriminate].
  intro H. injection H as <-. exists score, ty.
  repeat split. destruct (eq_str ty "activity"); reflexivity.
Qed.

Lemma search_nodes_spec (float_repr : Q -> string) (w : SearchWeights)
    (p : Config.SearchPriorities) (th : Config.RelevanceThresholds) (kw : json)
    (nds : list (string * dict)) (acc rs : list Candidate) :
  search_nodes float_repr w p th kw nds acc = Ok rs ->
  exists scored,
    Forall2 (weighted_candidate float_repr w p kw) nds scored /\
    rs = (acc ++ filter (fun c => Qle_bool (Config.min_score th) (relevance c)) scored)%list.
Proof.
  revert acc. induction nds as [|nd nds IH]; intros acc H; cbn in H.
  - injection H as <-. exists []. split; [constructor|]. cbn. rewrite app_nil_r.
    reflexivity.
  - destruct (weigh_node float_repr w p kw nd) as [c|e] eqn:Ec; cbn in H;
      [|discriminate].
    apply IH in H. destruct H as (scored & HF & Hrs).
    exists (c :: scored). split.
    + constructor; [apply weigh_node_spec; exact Ec | exact HF].
    + rewrite Hrs. cbn.
      destruct (Qle_bool (Config.min_score th) (relevance c)).
      * rewrite <- app_assoc. reflexivity.
      * reflexivity.
Qed.

Lemma search_knowledge_graphs_spec (float_repr : Q -> string) (w : SearchWeights)
    (p : Config.SearchPriorities) (th : Config.RelevanceThresholds)
    (G : Graph) (kw : json) (rs : list Candidate) :
  _search_knowledge_graphs float_repr w p th G kw = Ok rs ->
  broadening_result float_repr w p th G kw rs /\ (List.length rs <= 4)%nat.
Proof.
  unfold _search_knowledge_graphs.
  destruct (search_nodes float_repr w p th kw (nodes G) []) as [found|e] eqn:E;
    cbn [rbind]; [|discriminate].
  intro H.
  assert (Hrs : firstn 4 (sorted_reverse found) = rs) by congruence.
  clear H. subst rs.
  apply search_nodes_spec in E. destruct E as (scored & HF & Hfound).
  cbn [app] in Hfound.
  split; [|apply firstn_le_length].
  exists scored, (sorted_reverse found). subst found.
  repeat split; [exact HF | apply sorted_reverse_perm | apply sorted_reverse_descending].
Qed.

(* ------------------------------------------------------------------ *)
(** ** The orchestrator *)

Lemma bind_Ok {A B} (m : M A) (k : A -> M B) (s s' : ReflectiveMemoryAgent) (b : B) :
  bind m k s = (Ok b, s') ->
  exists a s1, m s = (Ok a, s1) /\ k a s1 = (Ok b, s').
Proof.
  unfold bind. destruct (m s) as [[a|e] s1]; [eauto | discriminate].
Qed.

Lemma ask_Ok (req : request) (s s1 : ReflectiveMemoryAgent) (j : json) :
  ask req s = (Ok j, s1) ->
  client s (List.length (requests s)) = Json j /\
  s1 = with_requests s (requests s ++ [req])%list.
Proof.
  unfold ask, with_requests.
  destruct (client s (List.length (requests s))); intro H; try discriminate.
  injection H as <- <-. split; reflexivity.
Qed.

(** The analysis sends requests that are not evaluations and changes
    nothing else, however it ends. *)
Lemma analyze_dialogue_frame (ctx : DialogueContext) (s s1 : ReflectiveMemoryAgent)
    (r : result Strategy) :
  _analyze_dialogue ctx s = (r, s1) ->
  exists extra,
    s1 = with_requests s (requests s ++ extra)%list /\ evaluations extra = [].
Proof.
  unfold _analyze_dialogue, _expand_keywords, try_except_json, bind, ask, lift, ret.
  cbn [client requests memory_graph weights priorities thresholds search_history].
  repeat match goal with
         | |- context [match ?x with _ => _ end] =>
             match x with
             | client _ _ => destruct x eqn:?
             | getitem _ _ => destruct x eqn:?
             | _ => is_var x; destruct x
             end
         end.
  all: intro H; injection H as <- <-; unfold with_requests; cbn;
       eexists; split; [try rewrite <- app_assoc; reflexivity | reflexivity].
Qed.

Lemma initial_results_frame (float_repr : Q -> string) (ca : option Activity)
    (kw : json) (s s1 : ReflectiveMemoryAgent) (r : result (list Candidate)) :
  initial_results float_repr ca kw s = (r, s1) -> s1 = s.
Proof.
  unfold initial_results, bind, get_self, lift, ret. destruct ca as [a|].
  - destruct (_calculate_relevance float_repr (priorities s) (activity_items a) kw).
    + destruct (Qle_bool _ _); intro H; injection H as <- <-; reflexivity.
    + intro H; injection H as <- <-; reflexivity.
  - intro H; injection H as <- <-; reflexivity.
Qed.

Lemma lift_Ok {A} (r : result A) (s s1 : ReflectiveMemoryAgent) (a : A) :
  lift r s = (Ok a, s1) -> r = Ok a /\ s1 = s.
Proof. unfold lift. intro H. injection H as -> ->. split; reflexivity. Qed.

Lemma get_self_Ok (s s1 a : ReflectiveMemoryAgent) :
  get_self s = (Ok a, s1) -> a = s /\ s1 = s.
Proof. unfold get_self. intro H. injection H as -> ->. split; reflexivity. Qed.

Lemma ret_Ok {A} (x a : A) (s s1 : ReflectiveMemoryAgent) :
  ret x s = (Ok a, s1) -> a = x /\ s1 = s.
Proof. unfold ret. intro H. injection H as -> ->. split; reflexivity. Qed.

Lemma adjust_weights_requests (eff : json) (s s1 : ReflectiveMemoryAgent) (r : result unit) :
  adjust_weights eff s = (r, s1) -> requests s1 = requests s.
Proof. unfold adjust_weights. intro H. injection H as <- <-. reflexivity. Qed.

Lemma append_history_requests (e : HistoryEntry) (s s1 : ReflectiveMemoryAgent) (r : result unit) :
  append_history e s = (r, s1) -> requests s1 = requests s.
Proof. unfold append_history. intro H. injection H as <- <-. reflexivity. Qed.

(** C8: when the first judgment is 'insufficient', the broadening pass
    scores every node of the memory graph against the keywords, weights
    the score by [routine_weight] for Activity nodes and [story_weight]
    for the others, keeps the candidates at or above [min_score], sorts
    them by descending weighted relevance, takes at most four, appends
    them to the candidates and asks for one more judgment, the last
    one; when the first judgment is 'sufficient' no broadening takes
    place. *)
Theorem broadening_pass (float_repr : Q -> string)
    (self self' : ReflectiveMemoryAgent) (text : string) (time : datetime)
    (qr : QueryResult) :
  process_query float_repr text time self = (Ok qr, self') ->
  exists analysis initial judgment sufficient,
    evaluations analysis = [] /\
    client self (List.length (requests self ++ analysis)) = Json judgment /\
    getitem judgment "sufficient" = Ok sufficient /\
    if truthy sufficient then
      requests self'
      = (requests self ++ analysis ++ [EvaluateRequest text initial])%list /\
      results qr = firstn 8 initial
    else
      exists graph_results,
        broadening_result float_repr (weights self) (priorities self)
          (thresholds self) (memory_network (memory_graph self))
          (keyword_analysis_expanded qr) graph_results /\
        (List.length graph_results <= 4)%nat /\
        requests self'
        = (requests self ++ analysis
           ++ [EvaluateRequest text initial;
               EvaluateRequest text (initial ++ graph_results)])%list /\
        results qr = firstn 8 (initial ++ graph_results).
Proof.
  intro H. unfold process_query in H.
  apply bind_Ok in H as (self0 & s0 & Hget & H).
  apply get_self_Ok in Hget as (-> & ->).
  apply bind_Ok in H as (strategy & s1 & Ha & H).
  apply analyze_dialogue_frame in Ha as (analysis & -> & Hnone).
  apply bind_Ok in H as (initial & s2 & Hi & H).
  apply initial_results_frame in Hi as ->.
  apply bind_Ok in H as (judgment & s3 & He & H).
  apply ask_Ok in He as (Hreply & ->).
  apply bind_Ok in H as (sufficient & s4 & Hs & H).
  apply lift_Ok in Hs as (Hs & ->).
  apply bind_Ok in H as (final & s5 & Hf & H).
  apply bind_Ok in H as (u & s6 & Hadj & H).
  apply adjust_weights_requests in Hadj.
  apply bind_Ok in H as (score & s7 & Hsc & H).
  apply lift_Ok in Hsc as (Hsc & ->).
  apply bind_Ok in H as (self1 & s8 & Hg & H).
  apply get_self_Ok in Hg as (-> & ->).
  apply bind_Ok in H as (u2 & s9 & Hh & H).
  apply append_history_requests in Hh.
  apply ret_Ok in H as (-> & ->).
  exists analysis, initial, judgment, sufficient.
  split; [exact Hnone|]. split; [exact Hreply|]. split; [exact Hs|].
  cbn [results keyword_analysis_expanded].
  rewrite Hh, Hadj. clear Hh Hadj Hsc.
  destruct (truthy sufficient).
  - apply ret_Ok in Hf as (-> & ->). cbn [fst]. split; [|reflexivity].
    unfold with_requests. cbn [requests context_text]. rewrite <- app_assoc. reflexivity.
  - unfold broaden in Hf.
    apply bind_Ok in Hf as (self0 & s0 & Hget & Hf).
    apply get_self_Ok in Hget as (-> & ->).
    apply bind_Ok in Hf as (graph_results & s1 & Hsearch & Hf).
    apply lift_Ok in Hsearch as (Hsearch & ->).
    apply bind_Ok in Hf as (eff & s2 & He & Hf).
    apply ask_Ok in He as (_ & ->).
    apply ret_Ok in Hf as (-> & ->).
    unfold with_requests in Hsearch.
    cbn [weights priorities thresholds memory_graph] in Hsearch.
    apply search_knowledge_graphs_spec in Hsearch as (Hres & Hlen).
    exists graph_results. split; [exact Hres|]. split; [exact Hlen|].
    cbn [fst]. split; [|reflexivity].
    unfold with_requests. cbn [requests context_text].
    rewrite <- !app_assoc. reflexivity.
Qed.

Lemma broadening_pass_witness :
  exists qr self',
    process_query example_repr "When is exercise with Tom?" (mkTime 6 15)
      (example_agent example_client) = (Ok qr, self') /\
    exists analysis initial judgment sufficient,
      evaluations analysis = [] /\
      client (example_agent example_client)
        (List.length (requests (example_agent example_client) ++ analysis))
      = Json judgment /\
      getitem judgment "sufficient" = Ok sufficient /\
      if truthy sufficient then
        requests self'
        = (requests (example_agent example_client) ++ analysis
           ++ [EvaluateRequest "When is exercise with Tom?" initial])%list /\
        results qr = firstn 8 initial
      else
        exists graph_results,
          broadening_result example_repr (weights (example_agent example_client))
            (priorities (example_agent example_client))
            (thresholds (example_agent example_client))
            (memory_network (memory_graph (example_agent example_client)))
            (keyword_analysis_expanded qr) graph_results /\
          (List.length graph_results <= 4)%nat /\
          requests self'
          = (requests (example_agent example_client) ++ analysis
             ++ [EvaluateRequest "When is exercise with Tom?" initial;
                 EvaluateRequest "When is exercise with Tom?"
                   (initial ++ graph_results)])%list /\
          results qr = firstn 8 (initial ++ graph_results).
Proof.
  eexists. eexists. split.
  - vm_compute. reflexivity.
  - apply (broadening_pass example_repr (example_agent example_client) _
             "When is exercise with Tom?" (mkTime 6 15)).
    vm_compute. reflexivity.
Defined.

(** In the example session the first judgment is 'insufficient': the
    evaluator is asked twice, first about the current activity alone, then
    about it and the one node the broadening pass keeps. *)
Example example_query_broadens :
  let run := process_query example_repr "When is exercise with Tom?" (mkTime 6 15)
               (example_agent example_client) in
  map (@List.length Candidate) (evaluations (requests (snd run))) = [1; 2]%nat /\
  raises (fst run) = false.
Proof. vm_compute. split; reflexivity. Qed.

(* ------------------------------------------------------------------ *)
(** ** Failures of the collaborator *)

(** An unparseable analysis is caught and replaced by the default
    strategy. *)
Lemma unparseable_analysis_is_caught (ctx : DialogueContext) (s : ReflectiveMemoryAgent) :
  client s (List.length (requests s)) = Malformed ->
  fst (_analyze_dialogue ctx s) = Ok default_strategy.
Proof.
  intro H. unfold _analyze_dialogue, try_except_json, bind, ask.
  rewrite H. reflexivity.
Qed.

(** Nothing catches a failure of the evaluation. *)
Lemma evaluation_failure_is_raised (ctx : DialogueContext)
    (cands : list Candidate) (s : ReflectiveMemoryAgent) :
  (client s (List.length (requests s)) = Malformed ->
   fst (_evaluate_effectiveness ctx cands s) = Raise JSONDecodeError) /\
  (client s (List.length (requests s)) = CallFails ->
   fst (_evaluate_effectiveness ctx cands s) = Raise APIError).
Proof.
  unfold _evaluate_effectiveness, ask. split; intro H; rewrite H; reflexivity.
Qed.

(** C1 fails on the code: an evaluator reply that is not valid JSON, and a
    collaborator call that fails, reach the caller of [process_query] as
    exceptions; the sibling agent's [_evaluate_results] answers the same
    replies with a default judgment of score 0.5. *)
Theorem collaborator_failure_reaches_caller :
  fst (process_query example_repr "When is exercise with Tom?" (mkTime 6 15)
         (example_agent unparseable_evaluator)) = Raise JSONDecodeError /\
  fst (process_query example_repr "When is exercise with Tom?" (mkTime 6 15)
         (example_agent unreachable_collaborator)) = Raise APIError /\
  getitem (OptimizedMemoryAgent._evaluate_results Malformed) "score"
  = Ok (JFloat (5 # 10)) /\
  getitem (OptimizedMemoryAgent._evaluate_results CallFails) "score"
  = Ok (JFloat (5 # 10)).
Proof. vm_compute. repeat split. Qed.

(* ================================================================== *)
(** * Further properties of the code *)

(* ------------------------------------------------------------------ *)
(** ** The scorer: term order and bounds *)

Lemma str_lower_raises (v : json) (e : exn) :
  str_lower v = Raise e -> e = AttributeError.
Proof. destruct v; cbn; intro H; congruence. Qed.

Lemma count_matches_perm (text : string) (ts ts' : list json) :
  Permutation ts ts' ->
  forall n, count_matches text ts n = count_matches text ts' n.
Proof.
  induction 1 as [|x l l' _ IH|x y l|l l' l'' _ IH1 _ IH2]; intro n.
  - reflexivity.
  - cbn. destruct (str_lower (normalize_term x)); cbn; [apply IH | reflexivity].
  - cbn.
    destruct (str_lower (normalize_term x)) as [tx|ex] eqn:Ex;
      destruct (str_lower (normalize_term y)) as [ty|ey] eqn:Ey; cbn;
      try reflexivity.
    + destruct (contains tx text), (contains ty text); reflexivity.
    + apply str_lower_raises in Ex. apply str_lower_raises in Ey. congruence.
  - rewrite IH1. apply IH2.
Qed.

(** X1: Reordering the terms of a category changes neither the score nor the
    exception of [_calculate_relevance]. *)
Theorem score_invariant_under_term_order (float_repr : Q -> string)
    (p : Config.SearchPriorities) (content : dict)
    (before after : list (string * json)) (c : string) (ts ts' : list json) :
  Permutation ts ts' ->
  _calculate_relevance float_repr p content
    (JDict (before ++ (c, JList ts) :: after))
  = _calculate_relevance float_repr p content
      (JDict (before ++ (c, JList ts') :: after)).
Proof.
  intro HP. unfold _calculate_relevance.
  generalize (lower (json_dumps float_repr (JDict content))). intro text.
  generalize 0. induction before as [|[c0 t0] before IH]; intro score; cbn.
  - destruct (Config.getattr p c); cbn; [|reflexivity].
    rewrite (count_matches_perm text ts ts' HP 0). reflexivity.
  - destruct (Config.getattr p c0); cbn; [|reflexivity].
    destruct (iterate t0) as [its|]; cbn; [|reflexivity].
    destruct (count_matches text its 0); cbn; [|reflexivity].
    destruct (Config.add_matches score _ _); cbn; [apply IH | reflexivity].
Qed.

Lemma score_invariant_under_term_order_witness :
  _calculate_relevance example_repr Config.default_priorities
    (activity_bag (mkActivity "06:00" "06:30" "Morning Exercise" "Garden" None ""))
    (JDict ([] ++ ("events", JList [JStr "walk"; JStr "Exercise"]) :: []))
  = _calculate_relevance example_repr Config.default_priorities
      (activity_bag (mkActivity "06:00" "06:30" "Morning Exercise" "Garden" None ""))
      (JDict ([] ++ ("events", JList [JStr "Exercise"; JStr "walk"]) :: [])).
Proof.
  apply (score_invariant_under_term_order example_repr Config.default_priorities
           _ [] [] "events" [JStr "walk"; JStr "Exercise"]
           [JStr "Exercise"; JStr "walk"]).
  apply perm_swap.
Defined.

Lemma count_matches_bounds (text : string) (ts : list json) (n m : nat) :
  count_matches text ts n = Ok m -> (n <= m <= n + List.length ts)%nat.
Proof.
  revert n. induction ts as [|t ts IH]; intros n H; cbn in H.
  - injection H as <-. cbn. lia.
  - destruct (str_lower (normalize_term t)) as [tl|e]; cbn in H; [|discriminate].
    apply IH in H. cbn [List.length]. destruct (contains tl text); lia.
Qed.

Lemma default_getattr_bounds (c : string) (w : Q) :
  Config.getattr Config.default_priorities c = Ok (Config.Number w) ->
  0 <= w /\ w <= 4 # 10.
Proof.
  unfold Config.getattr.
  repeat match goal with
         | |- context [String.eqb c ?s] => destruct (String.eqb c s)
         end;
    try destruct (existsb (String.eqb c) Config.class_attributes);
    intro H; try discriminate; injection H as <-; cbn;
    split; unfold Qle; cbn; lia.
Qed.

Lemma inject_nat_le (a b : nat) :
  (a <= b)%nat -> inject_Z (Z.of_nat a) <= inject_Z (Z.of_nat b).
Proof. intro H. rewrite <- Zle_Qle. lia. Qed.

Lemma score_categories_bounds (text : string) (kw : list (string * list json))
    (acc s : Q) :
  score_categories Config.default_priorities text
    (map (fun ct => (fst ct, JList (snd ct))) kw) acc = Ok s ->
  acc <= s /\
  s <= acc + (4 # 10) * inject_Z (Z.of_nat (List.length (List.concat (map snd kw)))).
Proof.
  revert acc. induction kw as [|[c ts] kw IH]; intros acc H; cbn in H.
  - injection H as <-. cbn. unfold inject_Z. split; lra.
  - destruct (Config.getattr Config.default_priorities c) as [[w|]|e] eqn:Ew;
      cbn in H; [| |discriminate].
    2: { destruct (count_matches text ts 0); discriminate. }
    destruct (count_matches text ts 0) as [m|e] eqn:Em; cbn in H; [|discriminate].
    apply IH in H. destruct H as (H1 & H2).
    apply default_getattr_bounds in Ew. destruct Ew as (Hw0 & Hw1).
    apply count_matches_bounds in Em.
    cbn [map snd List.concat]. rewrite length_app, Nat2Z.inj_add, inject_Z_plus.
    set (M := inject_Z (Z.of_nat m)) in *.
    set (L := inject_Z (Z.of_nat (List.length ts))).
    set (R := inject_Z (Z.of_nat (List.length (List.concat (map snd kw))))) in *.
    assert (HM0 : 0 <= M).
    { subst M. change 0 with (inject_Z (Z.of_nat 0)). apply inject_nat_le. lia. }
    assert (HML : M <= L) by (subst M L; apply inject_nat_le; lia).
    assert (Hp0 : 0 <= M * w) by (apply Qmult_le_0_compat; assumption).
    assert (Hp1 : M * w <= L * (4 # 10)).
    { apply Qle_trans with (L * w).
      - apply Qmult_le_compat_r; assumption.
      - rewrite (Qmult_comm L w), (Qmult_comm L (4 # 10)).
        apply Qmult_le_compat_r; [exact Hw1 | lra]. }
    split; lra.
Qed.

(** X2: With the default priorities a score is at least 0 and at most 0.4 per
    term of the keyword map. *)
Theorem score_bounded_by_term_count (float_repr : Q -> string) (content : dict)
    (kw : list (string * list json)) (s : Q) :
  _calculate_relevance float_repr Config.default_priorities content (keyword_map kw)
  = Ok s ->
  0 <= s /\
  s <= (4 # 10) * inject_Z (Z.of_nat (List.length (List.concat (map snd kw)))).
Proof.
  unfold _calculate_relevance, keyword_map. intro H.
  apply score_categories_bounds in H. destruct H as (H1 & H2). split; lra.
Qed.

Lemma score_bounded_by_term_count_witness :
  0 <= 70 # 100 /\
  70 # 100 <= (4 # 10) * inject_Z (Z.of_nat (List.length (List.concat (map snd
               [("people", [JStr "Tom"]); ("events", [JStr "Exercise"])])))).
Proof.
  apply (score_bounded_by_term_count example_repr
           (activity_bag (mkActivity "06:00" "06:30" "Morning Exercise" "Garden"
                            (Some [mkParticipant "son" "Tom"]) ""))
           [("people", [JStr "Tom"]); ("events", [JStr "Exercise"])]).
  vm_compute. reflexivity.
Defined.

Lemma Forall2_right {A B} (R : A -> B -> Prop) (P : B -> Prop)
    (l : list A) (l' : list B) :
  (forall a b, R a b -> P b) -> Forall2 R l l' -> Forall P l'.
Proof.
  intros HR H. induction H; constructor; eauto.
Qed.

Lemma filter_none {A} (f : A -> bool) (l : list A) :
  Forall (fun x => f x = false) l -> filter f l = [].
Proof.
  induction 1 as [|x l Hx _ IH]; cbn; [reflexivity|]. rewrite Hx. exact IH.
Qed.

(** X3: With the default priorities and thresholds, and weights reached from
    the defaults by [adjust] calls, a keyword map holding at most one term
    retrieves nothing from the memory graph: no weighted score reaches
    [min_score]. *)
Theorem single_term_retrieves_nothing (float_repr : Q -> string)
    (effs : list json) (G : Graph) (kw : list (string * list json))
    (rs : list Candidate) :
  (List.length (List.concat (map snd kw)) <= 1)%nat ->
  _search_knowledge_graphs float_repr (adjust_all effs default_weights)
    Config.default_priorities Config.default_thresholds G (keyword_map kw) = Ok rs ->
  rs = [].
Proof.
  intros Hlen H. unfold _search_knowledge_graphs in H.
  destruct (search_nodes float_repr (adjust_all effs default_weights)
              Config.default_priorities Config.default_thresholds
              (keyword_map kw) (nodes G) []) as [found|e] eqn:E;
    cbn [rbind] in H; [|discriminate].
  assert (Hrs : firstn 4 (sorted_reverse found) = rs) by congruence.
  clear H. subst rs.
  apply search_nodes_spec in E. destruct E as (scored & HF & ->). cbn [app].
  rewrite filter_none; [reflexivity|].
  eapply Forall2_right; [|exact HF]. cbn beta.
  intros nd c (score & ty & Hs & _ & ->). cbn [relevance Config.min_score].
  unfold _calculate_relevance, keyword_map in Hs.
  apply score_categories_bounds in Hs. destruct Hs as (Hs0 & Hs1).
  rewrite Qplus_0_l in Hs1.
  destruct (adjust_all_in_band effs default_weights default_in_band)
    as (_ & _ & Hsum & Hlo & Hhi).
  set (w := adjust_all effs default_weights) in *.
  assert (Hs2 : score <= 4 # 10).
  { eapply Qle_trans; [exact Hs1|].
    assert (Hn : inject_Z (Z.of_nat (List.length (List.concat (map snd kw))))
                 <= inject_Z (Z.of_nat 1)) by (apply inject_nat_le; exact Hlen).
    cbn in Hn. unfold inject_Z in Hn at 2.
    set (n := inject_Z _) in *. lra. }
  set (x := if eq_str ty "activity" then routine_weight w else story_weight w).
  assert (Hx : 0 <= x /\ x <= 8 # 10).
  { subst x. destruct (eq_str ty "activity"); split; lra. }
  destruct Hx as (Hx0 & Hx1).
  assert (Hp : score * x <= (4 # 10) * x)
    by (apply Qmult_le_compat_r; assumption).
  change (Config.min_score Config.default_thresholds) with (5 # 10).
  destruct (Qle_bool (5 # 10) (score * x)) eqn:Eb; [|reflexivity].
  apply Qle_bool_iff in Eb. lra.
Qed.

Lemma single_term_retrieves_nothing_witness :
  exists rs,
    _search_knowledge_graphs example_repr
      (adjust_all [example_judgment false "routine"] default_weights)
      Config.default_priorities Config.default_thresholds
      (memory_network (memory_graph (example_agent example_client)))
      (keyword_map [("people", [JStr "Tom"])]) = Ok rs /\
    rs = [].
Proof.
  eexists. split.
  - vm_compute. reflexivity.
  - apply (single_term_retrieves_nothing example_repr
             [example_judgment false "routine"]
             (memory_network (memory_graph (example_agent example_client)))
             [("people", [JStr "Tom"])]).
    + cbn. lia.
    + vm_compute. reflexivity.
Defined.

(* ------------------------------------------------------------------ *)
(** ** What a query leaves behind *)

Lemma bind_inv {A B} (m : M A) (k : A -> M B) (s s' : ReflectiveMemoryAgent)
    (r : result B) :
  bind m k s = (r, s') ->
  (exists e, m s = (Raise e, s') /\ r = Raise e) \/
  (exists a s1, m s = (Ok a, s1) /\ k a s1 = (r, s')).
Proof.
  unfold bind. destruct (m s) as [[a|e] s1]; intro H.
  - right. eauto.
  - left. injection H as <- <-. eauto.
Qed.

Lemma sends_only_refl (s : ReflectiveMemoryAgent) : sends_only 0 s s.
Proof.
  unfold sends_only. repeat split; try reflexivity.
  exists []. rewrite app_nil_r. split; [reflexivity | cbn; lia].
Qed.

Lemma sends_only_trans (n m : nat) (s s1 s2 : ReflectiveMemoryAgent) :
  sends_only n s s1 -> sends_only m s1 s2 -> sends_only (n + m) s s2.
Proof.
  intros (A1 & A2 & A3 & A4 & A5 & x & A6 & A7) (B1 & B2 & B3 & B4 & B5 & y & B6 & B7).
  unfold sends_only. repeat split; try congruence.
  exists (x ++ y)%list. rewrite B6, A6, app_assoc, length_app. split; [reflexivity | lia].
Qed.

Lemma sends_only_le (n m : nat) (s s' : ReflectiveMemoryAgent) :
  (n <= m)%nat -> sends_only n s s' -> sends_only m s s'.
Proof.
  intros Hle (A1 & A2 & A3 & A4 & A5 & x & A6 & A7).
  unfold sends_only. repeat split; try assumption. exists x. split; [assumption | lia].
Qed.

Lemma sends_only_bind {A B} (n m : nat) (c : M A) (k : A -> M B) :
  (forall s r s', c s = (r, s') -> sends_only n s s') ->
  (forall a s r s', k a s = (r, s') -> sends_only m s s') ->
  forall s r s', bind c k s = (r, s') -> sends_only (n + m) s s'.
Proof.
  intros Hc Hk s r s' H. apply bind_inv in H.
  destruct H as [(e & H & _) | (a & s1 & H1 & H2)].
  - apply (sends_only_le n); [lia | exact (Hc _ _ _ H)].
  - exact (sends_only_trans _ _ _ _ _ (Hc _ _ _ H1) (Hk _ _ _ _ H2)).
Qed.

Lemma sends_only_ask (req : request) (s s' : ReflectiveMemoryAgent) (r : result json) :
  ask req s = (r, s') -> sends_only 1 s s'.
Proof.
  unfold ask. intro H.
  assert (Hs : s' = with_requests s (requests s ++ [req])%list).
  { destruct (client s (List.length (requests s))); injection H as <- <-; reflexivity. }
  subst s'. unfold sends_only, with_requests. cbn. repeat split.
  exists [req]. split; [reflexivity | cbn; lia].
Qed.

Lemma sends_only_analyze (ctx : DialogueContext) (s s' : ReflectiveMemoryAgent)
    (r : result Strategy) :
  _analyze_dialogue ctx s = (r, s') ->
  exists extra,
    s' = with_requests s (requests s ++ extra)%list /\
    evaluations extra = [] /\ (1 <= List.length extra <= 2)%nat.
Proof.
  unfold _analyze_dialogue, _expand_keywords, try_except_json, bind, ask, lift, ret.
  cbn [client requests memory_graph weights priorities thresholds search_history].
  repeat match goal with
         | |- context [match ?x with _ => _ end] =>
             match x with
             | client _ _ => destruct x eqn:?
             | getitem _ _ => destruct x eqn:?
             | _ => is_var x; destruct x
             end
         end.
  all: intro H; injection H as <- <-; unfold with_requests; cbn;
       eexists; split; [try rewrite <- app_assoc; reflexivity |];
       split; [reflexivity | cbn; lia].
Qed.

Lemma sends_only_with_requests (s : ReflectiveMemoryAgent) (extra : list request) (n : nat) :
  (List.length extra <= n)%nat ->
  sends_only n s (with_requests s (requests s ++ extra)%list).
Proof.
  intro H. unfold sends_only, with_requests. cbn. repeat split.
  exists extra. split; [reflexivity | exact H].
Qed.

Lemma sends_only_adjust_weights (eff : json) (s s' : ReflectiveMemoryAgent)
    (r : result unit) :
  adjust_weights eff s = (r, s') -> sends_only 0 s s'.
Proof.
  unfold adjust_weights. intro H. injection H as <- <-.
  unfold sends_only. cbn. repeat split.
  exists []. rewrite app_nil_r. split; [reflexivity | cbn; lia].
Qed.

Lemma sends_only_state_kept {A} (c : M A) (n : nat) :
  (forall s r s', c s = (r, s') -> s' = s) ->
  forall s r s', c s = (r, s') -> sends_only n s s'.
Proof.
  intros Hc s r s' H. rewrite (Hc _ _ _ H).
  apply (sends_only_le 0); [lia | apply sends_only_refl].
Qed.

Lemma sends_only_broaden (float_repr : Q -> string) (ctx : DialogueContext)
    (kw : json) (cands : list Candidate) (s s' : ReflectiveMemoryAgent)
    (r : result (list Candidate * json)) :
  broaden float_repr ctx kw cands s = (r, s') -> sends_only 1 s s'.
Proof.
  unfold broaden.
  change 1%nat with (0 + (0 + (1 + 0)))%nat.
  apply sends_only_bind;
    [apply sends_only_state_kept; unfold get_self; intros ? ? ? H; congruence|].
  intro self. apply sends_only_bind;
    [apply sends_only_state_kept; unfold lift; intros ? ? ? H; congruence|].
  intro g. apply sends_only_bind; [intros ? ? ?; apply sends_only_ask|].
  intro eff. apply sends_only_state_kept. unfold ret. intros ? ? ? H. congruence.
Qed.

Lemma query_effect_bind {A B} (n m : nat) (c : M A) (k : A -> M B) :
  (forall s r s', c s = (r, s') -> sends_only n s s') ->
  (forall a s r s', k a s = (r, s') -> query_effect m s r s') ->
  forall s r s', bind c k s = (r, s') -> query_effect (n + m) s r s'.
Proof.
  intros Hc Hk s r s' H. apply bind_inv in H.
  destruct H as [(e & H & ->) | (a & s1 & H1 & H2)].
  - destruct (Hc _ _ _ H) as (A1 & A2 & A3 & A4 & A5 & x & A6 & A7).
    unfold query_effect. repeat split; try assumption.
    exists x. split; [assumption | lia].
  - destruct (Hc _ _ _ H1) as (A1 & A2 & A3 & A4 & A5 & x & A6 & A7).
    destruct (Hk _ _ _ _ H2) as (B1 & B2 & B3 & B4 & (y & B6 & B7) & B5).
    unfold query_effect. repeat split; try congruence.
    + exists (x ++ y)%list. rewrite B6, A6, app_assoc, length_app.
      split; [reflexivity | lia].
    + destruct r; rewrite <- A5; exact B5.
Qed.

(** X4: However a query ends, it leaves the client, the memory graph, the
    priorities and the thresholds untouched and sends at most four
    requests; the history gains exactly one entry when the query returns
    and none when it raises. *)
Theorem query_keeps_graph_and_setting (float_repr : Q -> string) (text : string)
    (time : datetime) (s s' : ReflectiveMemoryAgent) (r : result QueryResult) :
  process_query float_repr text time s = (r, s') -> query_effect 4 s r s'.
Proof.
  revert s r s'. unfold process_query.
  change 4%nat with (0 + (2 + (0 + (1 + (0 + (1 + (0 + (0 + (0 + 0)))))))))%nat.
  apply query_effect_bind;
    [apply sends_only_state_kept; unfold get_self; intros ? ? ? H; congruence|].
  intro self. cbv zeta.
  apply query_effect_bind.
  { intros s r s' H. apply sends_only_analyze in H as (extra & -> & _ & Hl).
    apply sends_only_with_requests. lia. }
  intro strategy.
  apply query_effect_bind;
    [apply sends_only_state_kept; intros ? ? ?; apply initial_results_frame|].
  intro cands.
  apply query_effect_bind; [intros ? ? ?; apply sends_only_ask|].
  intro judgment.
  apply query_effect_bind;
    [apply sends_only_state_kept; unfold lift; intros ? ? ? H; congruence|].
  intro sufficient.
  apply query_effect_bind.
  { destruct (truthy sufficient).
    - intros s r s' H. unfold ret in H. injection H as <- <-.
      apply (sends_only_le 0); [lia | apply sends_only_refl].
    - intros s r s'. apply sends_only_broaden. }
  intro final.
  apply query_effect_bind; [intros ? ? ?; apply sends_only_adjust_weights|].
  intros _.
  apply query_effect_bind;
    [apply sends_only_state_kept; unfold lift; intros ? ? ? H; congruence|].
  intro score.
  apply query_effect_bind;
    [apply sends_only_state_kept; unfold get_self; intros ? ? ? H; congruence|].
  intro self1.
  intros s r s' H. unfold bind, append_history, ret in H. injection H as <- <-.
  unfold query_effect. cbn. repeat split.
  - exists []. rewrite app_nil_r. split; [reflexivity | cbn; lia].
  - eexists. reflexivity.
Qed.

Lemma query_keeps_graph_and_setting_witness :
  exists r s',
    process_query example_repr "When is exercise with Tom?" (mkTime 6 15)
      (example_agent unparseable_evaluator) = (r, s') /\
    query_effect 4 (example_agent unparseable_evaluator) r s'.
Proof.
  eexists. eexists. split.
  - vm_compute. reflexivity.
  - apply (query_keeps_graph_and_setting example_repr
             "When is exercise with Tom?" (mkTime 6 15)).
    vm_compute. reflexivity.
Defined.

Lemma adjust_weights_Ok (eff : json) (s s1 : ReflectiveMemoryAgent) (u : unit) :
  adjust_weights eff s = (Ok u, s1) ->
  adjust eff (weights s) = (Ok tt, weights s1) /\
  requests s1 = requests s /\ search_history s1 = search_history s.
Proof.
  unfold adjust_weights. intro H. injection H as H1 <-. cbn.
  destruct (adjust eff (weights s)) as [[[]|e] w]; cbn in *; [|discriminate].
  repeat split.
Qed.

Lemma append_history_Ok (entry : HistoryEntry) (s s1 : ReflectiveMemoryAgent) (u : unit) :
  append_history entry s = (Ok u, s1) ->
  requests s1 = requests s /\ weights s1 = weights s /\
  search_history s1 = (search_history s ++ [entry])%list.
Proof.
  unfold append_history. intro H. injection H as _ <-. cbn. repeat split.
Qed.

(** How a query that returns went. *)
Lemma process_query_returns (float_repr : Q -> string) (text : string)
    (time : datetime) (s s' : ReflectiveMemoryAgent) (qr : QueryResult) :
  process_query float_repr text time s = (Ok qr, s') ->
  let ca := get_activity_at_time (routine_data (memory_graph s)) time in
  let ctx := mkDialogueContext text time ca in
  exists strategy analysis initial judgment sufficient final score,
    _analyze_dialogue ctx s
    = (Ok strategy, with_requests s (requests s ++ analysis)%list) /\
    evaluations analysis = [] /\ (1 <= List.length analysis <= 2)%nat /\
    initial_results float_repr ca (keywords strategy)
      (with_requests s (requests s ++ analysis)%list)
    = (Ok initial, with_requests s (requests s ++ analysis)%list) /\
    client s (List.length (requests s ++ analysis)) = Json judgment /\
    getitem judgment "sufficient" = Ok sufficient /\
    (if truthy sufficient then
       final = (initial, judgment) /\
       requests s' = (requests s ++ analysis ++ [EvaluateRequest text initial])%list
     else
       exists g,
         _search_knowledge_graphs float_repr (weights s) (priorities s)
           (thresholds s) (memory_network (memory_graph s)) (keywords strategy)
         = Ok g /\
         fst final = (initial ++ g)%list /\
         requests s'
         = (requests s ++ analysis
            ++ [EvaluateRequest text initial;
                EvaluateRequest text (initial ++ g)])%list) /\
    adjust (snd final) (weights s) = (Ok tt, weights s') /\
    getitem (snd final) "score" = Ok score /\
    search_history s'
    = (search_history s
       ++ [mkHistoryEntry text score
             (routine_weight (weights s'), story_weight (weights s'))])%list /\
    qr = mkQueryResult (strftime_HM time) ca (keywords strategy) (keywords strategy)
           (firstn 8 (fst final)) (snd final)
           (routine_weight (weights s'), story_weight (weights s')).
Proof.
  intros H ca ctx. unfold process_query in H. fold ca in H. fold ctx in H.
  apply bind_Ok in H as (self0 & s0 & Hget & H).
  apply get_self_Ok in Hget as (-> & ->).
  apply bind_Ok in H as (strategy & s1 & Ha & H).
  pose proof Ha as Ha'.
  apply sends_only_analyze in Ha' as (analysis & -> & Hnone & Hcount).
  apply bind_Ok in H as (initial & s2 & Hi & H).
  pose proof Hi as Hi'. apply initial_results_frame in Hi' as ->.
  apply bind_Ok in H as (judgment & s3 & He & H).
  apply ask_Ok in He as (Hreply & ->).
  apply bind_Ok in H as (sufficient & s4 & Hs & H).
  apply lift_Ok in Hs as (Hs & ->).
  apply bind_Ok in H as (final & s5 & Hf & H).
  apply bind_Ok in H as (u & s6 & Hadj & H).
  apply adjust_weights_Ok in Hadj as (Hadj & Hr6 & Hh6).
  apply bind_Ok in H as (score & s7 & Hsc & H).
  apply lift_Ok in Hsc as (Hsc & ->).
  apply bind_Ok in H as (self1 & s8 & Hg & H).
  apply get_self_Ok in Hg as (-> & ->).
  apply bind_Ok in H as (u2 & s9 & Hh & H).
  apply append_history_Ok in Hh as (Hr9 & Hw9 & Hh9).
  apply ret_Ok in H as (-> & ->).
  exists strategy, analysis, initial, judgment, sufficient, final, score.
  split; [exact Ha|]. split; [exact Hnone|]. split; [exact Hcount|].
  split; [exact Hi|]. split; [exact Hreply|].
  split; [exact Hs|].
  assert (Hbranch :
    weights s5 = weights s /\ search_history s5 = search_history s /\
    if truthy sufficient then
       final = (initial, judgment) /\
       requests s5 = (requests s ++ analysis ++ [EvaluateRequest text initial])%list
     else
       exists g,
         _search_knowledge_graphs float_repr (weights s) (priorities s)
           (thresholds s) (memory_network (memory_graph s)) (keywords strategy)
         = Ok g /\
         fst final = (initial ++ g)%list /\
         requests s5
         = (requests s ++ analysis
            ++ [EvaluateRequest text initial;
                EvaluateRequest text (initial ++ g)])%list).
  { destruct (truthy sufficient).
    - apply ret_Ok in Hf as (-> & ->). unfold with_requests. cbn.
      repeat split. rewrite <- app_assoc. reflexivity.
    - unfold broaden in Hf.
      apply bind_Ok in Hf as (self0 & s0 & Hget & Hf).
      apply get_self_Ok in Hget as (-> & ->).
      apply bind_Ok in Hf as (g & s1 & Hsearch & Hf).
      apply lift_Ok in Hsearch as (Hsearch & ->).
      apply bind_Ok in Hf as (eff & s2 & He & Hf).
      apply ask_Ok in He as (_ & ->).
      apply ret_Ok in Hf as (-> & ->).
      unfold with_requests. cbn. repeat split.
      exists g. split; [exact Hsearch|]. split; [reflexivity|].
      rewrite <- !app_assoc. reflexivity. }
  destruct Hbranch as (Hw5 & Hh5 & Hbranch).
  rewrite Hw5 in Hadj. rewrite Hw9.
  split.
  { destruct (truthy sufficient).
    - destruct Hbranch as (Hfin & Hreq). split; [exact Hfin|]. congruence.
    - destruct Hbranch as (g & Hg1 & Hg2 & Hreq). exists g.
      split; [exact Hg1|]. split; [exact Hg2|]. congruence. }
  split; [exact Hadj|]. split; [exact Hsc|].
  split; [|reflexivity]. rewrite Hh9, Hh6, Hh5. reflexivity.
Qed.

Lemma evaluations_app (l l' : list request) :
  evaluations (l ++ l') = (evaluations l ++ evaluations l')%list.
Proof. unfold evaluations. apply flat_map_app. Qed.

Lemma initial_results_length (float_repr : Q -> string) (ca : option Activity)
    (kw : json) (s s1 : ReflectiveMemoryAgent) (l : list Candidate) :
  initial_results float_repr ca kw s = (Ok l, s1) -> (List.length l <= 1)%nat.
Proof.
  unfold initial_results, bind, get_self, lift, ret. destruct ca as [a|].
  - destruct (_calculate_relevance float_repr (priorities s) (activity_items a) kw);
      [|discriminate].
    destruct (Qle_bool _ _); intro H; injection H as <- _; cbn; lia.
  - intro H; injection H as <- _; cbn; lia.
Qed.

(** X5: A query that returns hands back exactly the candidates it last
    submitted to the evaluator, at most five of them: the cut [results[:8]]
    never removes anything. *)
Theorem returned_results_are_last_evaluated (float_repr : Q -> string)
    (text : string) (time : datetime) (s s' : ReflectiveMemoryAgent)
    (qr : QueryResult) :
  process_query float_repr text time s = (Ok qr, s') ->
  last (evaluations (requests s')) [] = results qr /\
  (List.length (results qr) <= 5)%nat.
Proof.
  intro H. apply process_query_returns in H. cbv zeta in H.
  destruct H as (strategy & analysis & initial & judgment & sufficient & final
                 & score & _ & Hno & _ & Hi & _ & _ & Hbranch & _ & _ & _ & ->).
  cbn [results].
  pose proof (initial_results_length _ _ _ _ _ _ Hi) as Hlen.
  destruct (truthy sufficient).
  - destruct Hbranch as (-> & Hreq). cbn [fst]. rewrite Hreq.
    rewrite !evaluations_app, Hno. cbn [app evaluations flat_map].
    rewrite last_last, firstn_all2 by lia. split; [reflexivity | lia].
  - destruct Hbranch as (g & Hg & Hfst & Hreq). rewrite Hfst, Hreq.
    apply search_knowledge_graphs_spec in Hg as (_ & Hg).
    rewrite !evaluations_app, Hno. cbn [app evaluations flat_map].
    change [initial; (initial ++ g)%list] with ([initial] ++ [(initial ++ g)%list])%list.
    rewrite app_assoc, last_last.
    assert (Hl : (List.length (initial ++ g) <= 5)%nat) by (rewrite length_app; lia).
    rewrite firstn_all2 by lia. split; [reflexivity | exact Hl].
Qed.

Lemma returned_results_are_last_evaluated_witness :
  exists qr s',
    process_query example_repr "When is exercise with Tom?" (mkTime 6 15)
      (example_agent example_client) = (Ok qr, s') /\
    last (evaluations (requests s')) [] = results qr /\
    (List.length (results qr) <= 5)%nat.
Proof.
  eexists. eexists. split.
  - vm_compute. reflexivity.
  - apply (returned_results_are_last_evaluated example_repr
             "When is exercise with Tom?" (mkTime 6 15)
             (example_agent example_client)).
    vm_compute. reflexivity.
Defined.

(** X6: The telemetry of a query that returns is consistent: the weights it
    reports are the agent's new weights, obtained by [adjust] from the
    judgment it reports; the history entry added holds the query, the
    judgment's score and the same weights; and the keywords reported as
    'original' are the expanded ones. *)
Theorem returned_telemetry_is_consistent (float_repr : Q -> string)
    (text : string) (time : datetime) (s s' : ReflectiveMemoryAgent)
    (qr : QueryResult) :
  process_query float_repr text time s = (Ok qr, s') ->
  adjust (performance_effectiveness qr) (weights s) = (Ok tt, weights s') /\
  performance_weights qr = (routine_weight (weights s'), story_weight (weights s')) /\
  (exists score,
      getitem (performance_effectiveness qr) "score" = Ok score /\
      search_history s'
      = (search_history s ++ [mkHistoryEntry text score (performance_weights qr)])%list) /\
  keyword_analysis_original qr = keyword_analysis_expanded qr /\
  query_time qr = strftime_HM time /\
  result_current_activity qr
  = get_activity_at_time (routine_data (memory_graph s)) time.
Proof.
  intro H. apply process_query_returns in H. cbv zeta in H.
  destruct H as (strategy & analysis & initial & judgment & sufficient & final
                 & score & _ & _ & _ & _ & _ & _ & _ & Hadj & Hsc & Hh & ->).
  cbn. repeat split; try assumption. exists score. split; assumption.
Qed.

Lemma returned_telemetry_is_consistent_witness :
  exists qr s',
    process_query example_repr "When is exercise with Tom?" (mkTime 6 15)
      (example_agent example_client) = (Ok qr, s') /\
    adjust (performance_effectiveness qr) (weights (example_agent example_client))
    = (Ok tt, weights s') /\
    performance_weights qr
    = (routine_weight (weights s'), story_weight (weights s')).
Proof.
  eexists. eexists. split.
  - vm_compute. reflexivity.
  - refine (let H := returned_telemetry_is_consistent example_repr
                       "When is exercise with Tom?" (mkTime 6 15)
                       (example_agent example_client) _ _ _ in
            conj (proj1 H) (proj1 (proj2 H))).
    vm_compute. reflexivity.
Defined.

(* ------------------------------------------------------------------ *)
(** ** The fallback strategy *)

Lemma default_keywords_score (float_repr : Q -> string)
    (p : Config.SearchPriorities) (content : dict) :
  exists q,
    _calculate_relevance float_repr p content (keywords default_strategy) = Ok q /\
    q == 0.
Proof.
  unfold _calculate_relevance. cbn. eexists. split; [reflexivity|].
  unfold inject_Z. ring.
Qed.

Lemma Qle_bool_zero (m q w : Q) : 0 < m -> q == 0 -> Qle_bool m (q * w) = false.
Proof.
  intros Hm Hq. destruct (Qle_bool m (q * w)) eqn:E; [|reflexivity].
  apply Qle_bool_iff in E. rewrite Hq in E. lra.
Qed.

(** X7: When the analysis is unparseable, a query that returns reports the
    default strategy's empty keyword categories and hands back no result
    at all, whatever the graph, the weights and the (positive) threshold:
    every score against the empty categories is zero. *)
Theorem fallback_strategy_retrieves_nothing (float_repr : Q -> string)
    (text : string) (time : datetime) (s s' : ReflectiveMemoryAgent)
    (qr : QueryResult) :
  client s (List.length (requests s)) = Malformed ->
  0 < Config.min_score (thresholds s) ->
  process_query float_repr text time s = (Ok qr, s') ->
  results qr = [] /\ keyword_analysis_expanded qr = keywords default_strategy.
Proof.
  intros Hbad Hmin H. apply process_query_returns in H. cbv zeta in H.
  destruct H as (strategy & analysis & initial & judgment & sufficient & final
                 & score & Ha & _ & _ & Hi & _ & _ & Hbranch & _ & _ & _ & ->).
  cbn [results keyword_analysis_expanded].
  pose proof (unparseable_analysis_is_caught
                (mkDialogueContext text time
                   (get_activity_at_time (routine_data (memory_graph s)) time))
                s Hbad) as Hd.
  rewrite Ha in Hd. cbn in Hd. injection Hd as ->.
  assert (Hinit : initial = []).
  { unfold initial_results, bind, get_self, lift, ret in Hi.
    destruct (get_activity_at_time (routine_data (memory_graph s)) time) as [a|].
    - cbn [priorities thresholds with_requests] in Hi.
      destruct (default_keywords_score float_repr (priorities s) (activity_items a))
        as (q & Hq & Hq0).
      rewrite Hq in Hi.
      assert (Hb : Qle_bool (Config.min_score (thresholds s)) q = false).
      { destruct (Qle_bool (Config.min_score (thresholds s)) q) eqn:E; [|reflexivity].
        apply Qle_bool_iff in E. rewrite Hq0 in E. lra. }
      rewrite Hb in Hi. injection Hi as <-. reflexivity.
    - injection Hi as <-. reflexivity. }
  subst initial. split; [|reflexivity].
  destruct (truthy sufficient).
  - destruct Hbranch as (-> & _). reflexivity.
  - destruct Hbranch as (g & Hg & -> & _). cbn [app].
    unfold _search_knowledge_graphs in Hg.
    destruct (search_nodes float_repr (weights s) (priorities s) (thresholds s)
                (keywords default_strategy) (nodes (memory_network (memory_graph s)))
                []) as [found|e] eqn:E; cbn [rbind] in Hg; [|discriminate].
    assert (Hrs : firstn 4 (sorted_reverse found) = g) by congruence.
    clear Hg. subst g.
    apply search_nodes_spec in E. destruct E as (scored & HF & ->). cbn [app].
    rewrite filter_none; [reflexivity|].
    eapply Forall2_right; [|exact HF]. cbn beta.
    intros nd c (sc & ty & Hs & _ & ->). cbn [relevance].
    destruct (default_keywords_score float_repr (priorities s) (snd nd))
      as (q & Hq & Hq0).
    rewrite Hq in Hs. injection Hs as <-.
    apply Qle_bool_zero; assumption.
Qed.

Lemma fallback_strategy_retrieves_nothing_witness :
  exists qr s',
    process_query example_repr "When is exercise with Tom?" (mkTime 6 15)
      (example_agent unparseable_analysis) = (Ok qr, s') /\
    results qr = [] /\ keyword_analysis_expanded qr = keywords default_strategy.
Proof.
  eexists. eexists. split.
  - vm_compute. reflexivity.
  - eapply (fallback_strategy_retrieves_nothing example_repr
              "When is exercise with Tom?" (mkTime 6 15)
              (example_agent unparseable_analysis)).
    + reflexivity.
    + reflexivity.
    + vm_compute. reflexivity.
Defined.

(* ------------------------------------------------------------------ *)
(** ** The locator and the time of day *)

Lemma digit_compare (d1 d2 : nat) :
  (d1 < 10)%nat -> (d2 < 10)%nat ->
  Ascii.compare (digit d1) (digit d2) = Nat.compare d1 d2.
Proof.
  intros H1 H2.
  do 10 (destruct d1 as [|d1];
         [do 10 (destruct d2 as [|d2]; [reflexivity|]); lia|]).
  lia.
Qed.

Lemma two_digits_compare (n m : nat) (s t : string) :
  (n < 100)%nat -> (m < 100)%nat ->
  String.compare (two_digits n ++ s) (two_digits m ++ t)
  = match Nat.compare n m with
    | Eq => String.compare s t
    | c => c
    end.
Proof.
  intros Hn Hm. unfold two_digits. cbn [append String.compare].
  assert (Hdn : (n / 10 < 10)%nat) by (apply Nat.Div0.div_lt_upper_bound; lia).
  assert (Hdm : (m / 10 < 10)%nat) by (apply Nat.Div0.div_lt_upper_bound; lia).
  rewrite (Nat.mod_small (n / 10) 10 Hdn), (Nat.mod_small (m / 10) 10 Hdm).
  pose proof (Nat.mod_upper_bound n 10 ltac:(lia)) as Hrn.
  pose proof (Nat.mod_upper_bound m 10 ltac:(lia)) as Hrm.
  rewrite !digit_compare by assumption.
  pose proof (Nat.div_mod_eq n 10) as En. pose proof (Nat.div_mod_eq m 10) as Em.
  destruct (Nat.compare_spec (n / 10) (m / 10));
    destruct (Nat.compare_spec (n mod 10) (m mod 10));
    destruct (Nat.compare_spec n m); try reflexivity; lia.
Qed.

Lemma strftime_compare (t1 t2 : datetime) :
  valid_time t1 -> valid_time t2 ->
  String.compare (strftime_HM t1) (strftime_HM t2)
  = Nat.compare (minute_of_day t1) (minute_of_day t2).
Proof.
  intros (H1 & M1) (H2 & M2). unfold strftime_HM, minute_of_day.
  rewrite two_digits_compare by lia.
  cbn [append String.compare]. change (Ascii.compare ":" ":") with Eq. cbv iota.
  change (String.compare (two_digits (minute t1)) (two_digits (minute t2)))
    with (String.compare (two_digits (minute t1) ++ "") (two_digits (minute t2) ++ "")).
  rewrite two_digits_compare by lia. cbn [String.compare].
  destruct (Nat.compare_spec (hour t1) (hour t2));
    destruct (Nat.compare_spec (minute t1) (minute t2));
    destruct (Nat.compare_spec (60 * hour t1 + minute t1) (60 * hour t2 + minute t2));
    try reflexivity; lia.
Qed.

(** X9: For activities whose bounds are "%H:%M" renderings of times of day,
    the locator's string comparison is the comparison of the times: the
    interval contains the timestamp exactly when the minute of the day of
    the timestamp lies between those of the bounds, both included. *)
Theorem locator_compares_times_of_day (ts te t : datetime)
    (label place text : string) (ps : option (list Participant)) :
  valid_time ts -> valid_time te -> valid_time t ->
  interval_contains (strftime_HM t)
    (mkActivity (strftime_HM ts) (strftime_HM te) label place ps text)
  = ((minute_of_day ts <=? minute_of_day t)%nat
     && (minute_of_day t <=? minute_of_day te)%nat).
Proof.
  intros Hs He Ht. unfold interval_contains, String.leb. cbn [time_start time_end].
  rewrite !strftime_compare by assumption.
  destruct (Nat.compare_spec (minute_of_day ts) (minute_of_day t));
    destruct (Nat.compare_spec (minute_of_day t) (minute_of_day te));
    destruct (Nat.leb_spec (minute_of_day ts) (minute_of_day t));
    destruct (Nat.leb_spec (minute_of_day t) (minute_of_day te));
    try reflexivity; lia.
Qed.

Lemma locator_compares_times_of_day_witness :
  interval_contains (strftime_HM (mkTime 6 15))
    (mkActivity (strftime_HM (mkTime 6 0)) (strftime_HM (mkTime 6 30))
       "Morning Exercise" "Garden" None "")
  = ((minute_of_day (mkTime 6 0) <=? minute_of_day (mkTime 6 15))%nat
     && (minute_of_day (mkTime 6 15) <=? minute_of_day (mkTime 6 30))%nat).
Proof.
  apply (locator_compares_times_of_day (mkTime 6 0) (mkTime 6 30) (mkTime 6 15));
    unfold valid_time; cbn; lia.
Defined.

Lemma string_leb_trans (s1 s2 s3 : string) :
  String.leb s1 s2 = true -> String.leb s2 s3 = true -> String.leb s1 s3 = true.
Proof.
  unfold String.leb. revert s2 s3.
  induction s1 as [|a s1 IH]; intros [|b s2] [|c s3]; cbn;
    try (intros; (reflexivity || discriminate)).
  unfold Ascii.compare.
  destruct (N.compare_spec (N_of_ascii a) (N_of_ascii b));
    destruct (N.compare_spec (N_of_ascii b) (N_of_ascii c));
    destruct (N.compare_spec (N_of_ascii a) (N_of_ascii c));
    intros Hab Hbc; try reflexivity; try discriminate; try lia.
  exact (IH s2 s3 Hab Hbc).
Qed.

(** X10: Every activity the locator returns has [time_start <= time_end] in
    the order of strings: an activity whose end precedes its start, such
    as one running over midnight from 22:00 to 06:00, is never located,
    whatever the timestamp. *)
Theorem located_activity_is_not_inverted (routine_data : list Activity)
    (t : datetime) (a : Activity) :
  get_activity_at_time routine_data t = Some a ->
  String.leb (time_start a) (time_end a) = true.
Proof.
  unfold get_activity_at_time. intro H. apply find_some in H.
  destruct H as (_ & H). unfold interval_contains in H.
  apply andb_true_iff in H. destruct H as (H1 & H2).
  exact (string_leb_trans _ _ _ H1 H2).
Qed.

Lemma located_activity_is_not_inverted_witness :
  String.leb "06:00" "06:30" = true.
Proof.
  exact (located_activity_is_not_inverted example_routine (mkTime 6 15)
           (mkActivity "06:00" "06:30" "Morning Exercise" "Garden"
              (Some [mkParticipant "son" "Tom"]) "Stretching with Tom")
           eq_refl).
Defined.


(* ------------------------------------------------------------------ *)
(** ** The nodes and the edges of the built graph *)

Lemma has_node_add_node (x n : string) (attr : dict) (G : Graph) :
  has_node x (add_node n attr G) = has_node x G || String.eqb x n.
Proof.
  apply eq_true_iff_eq. rewrite orb_true_iff, !has_node_In, String.eqb_eq.
  apply In_node_ids_add_node.
Qed.

Lemma node_ids_add_edge_existing (u v : string) (attr : dict) (G : Graph) :
  In u (node_ids G) -> In v (node_ids G) ->
  nodes (add_edge u v attr G) = nodes G.
Proof.
  intros Hu Hv. apply has_node_In in Hu. apply has_node_In in Hv.
  unfold add_edge. rewrite Hu, Hv. reflexivity.
Qed.

Lemma nodes_add_memory_person (mid : string) (G : Graph) (q : string) :
  In mid (node_ids G) -> nodes (add_memory_person mid G q) = nodes G.
Proof.
  intro Hm. unfold add_memory_person.
  destruct (has_node (person_id_of q) G) eqn:E; [|reflexivity].
  apply node_ids_add_edge_existing; [exact Hm | apply has_node_In; exact E].
Qed.

Lemma nodes_memory_people (mid : string) (qs : list string) (G : Graph) :
  In mid (node_ids G) -> nodes (fold_left (add_memory_person mid) qs G) = nodes G.
Proof.
  revert G. induction qs as [|q qs IH]; intros G Hm; cbn [fold_left]; [reflexivity|].
  rewrite IH.
  - apply nodes_add_memory_person. exact Hm.
  - unfold node_ids. rewrite nodes_add_memory_person by exact Hm. exact Hm.
Qed.

Lemma edges_memory_people (mid : string) (qs : list string) (G : Graph) :
  In mid (node_ids G) ->
  edges (fold_left (add_memory_person mid) qs G)
  = (edges G
     ++ map (fun q => (mid, person_id_of q, involves))
            (filter (fun q => has_node (person_id_of q) G) qs))%list.
Proof.
  revert G. induction qs as [|q qs IH]; intros G Hm; cbn [fold_left filter].
  - cbn. rewrite app_nil_r. reflexivity.
  - assert (Hn : nodes (add_memory_person mid G q) = nodes G)
      by (apply nodes_add_memory_person; exact Hm).
    rewrite IH by (unfold node_ids; rewrite Hn; exact Hm).
    assert (Hext : forall x, has_node x (add_memory_person mid G q) = has_node x G).
    { intro x. unfold has_node. rewrite Hn. reflexivity. }
    rewrite (filter_ext _ _ (fun x => Hext (person_id_of x))).
    unfold add_memory_person at 1.
    destruct (has_node (person_id_of q) G) eqn:E.
    + rewrite edges_add_edge. cbn [map]. rewrite <- app_assoc. reflexivity.
    + reflexivity.
Qed.

Lemma edges_participants (aid : string) (ps : list Participant) (G : Graph) :
  edges (fold_left (add_participant aid) ps G)
  = (edges G ++ map (fun p => (aid, person_id_of (name p), involves)) ps)%list.
Proof.
  revert G. induction ps as [|p ps IH]; intro G; cbn [fold_left map].
  - rewrite app_nil_r. reflexivity.
  - rewrite IH. unfold add_participant. rewrite edges_add_edge, edges_add_node.
    rewrite <- app_assoc. reflexivity.
Qed.

Lemma edges_activities (l : list Activity) (G : Graph) :
  edges (fold_left add_activity l G) = (edges G ++ routine_edges l)%list.
Proof.
  revert G. induction l as [|a l IH]; intro G; cbn [fold_left].
  - unfold routine_edges. cbn. rewrite app_nil_r. reflexivity.
  - rewrite IH. unfold add_activity. rewrite edges_participants, edges_add_node.
    unfold routine_edges. cbn [flat_map]. rewrite <- app_assoc. reflexivity.
Qed.

Lemma ids_participants (aid : string) (ps : list Participant) (G : Graph) (x : string) :
  In aid (node_ids G) ->
  In x (node_ids (fold_left (add_participant aid) ps G)) <->
  In x (node_ids G) \/ exists p, In p (map name ps) /\ x = person_id_of p.
Proof.
  revert G. induction ps as [|p ps IH]; intros G Ha; cbn [fold_left map].
  - split; [auto | intros [H | (q & [] & _)]; exact H].
  - rewrite IH.
    + unfold add_participant. rewrite In_node_ids_add_edge, In_node_ids_add_node.
      split.
      * intros [[[H | H] | [H | H]] | (q & Hq & H)]; subst; eauto 6.
        -- right. exists (name p). split; [left; reflexivity | reflexivity].
        -- right. exists (name p). split; [left; reflexivity | reflexivity].
        -- right. exists q. split; [right; exact Hq | reflexivity].
      * intros [H | (q & [<- | Hq] & ->)]; eauto 6.
    + unfold add_participant. apply In_node_ids_add_edge. left.
      apply In_node_ids_add_node. left. exact Ha.
Qed.

Lemma ids_activities (l : list Activity) (G : Graph) (x : string) :
  In x (node_ids (fold_left add_activity l G)) <->
  In x (node_ids G) \/
  (exists a, In a l /\ x = activity_id_of (activity a)) \/
  (exists p, In p (participant_names l) /\ x = person_id_of p).
Proof.
  revert G. induction l as [|a l IH]; intro G; cbn [fold_left].
  - split; [auto|]. intros [H | [(a & [] & _) | (p & [] & _)]]. exact H.
  - rewrite IH. unfold add_activity.
    rewrite ids_participants by (apply In_node_ids_add_node; right; reflexivity).
    rewrite In_node_ids_add_node. unfold participant_names. cbn [flat_map].
    split.
    + intros [[[H | ->] | (p & Hp & ->)] | [(b & Hb & ->) | (p & Hp & ->)]].
      * left. exact H.
      * right. left. exists a. split; [left; reflexivity | reflexivity].
      * right. right. exists p. split; [apply in_app_iff; left; exact Hp | reflexivity].
      * right. left. exists b. split; [right; exact Hb | reflexivity].
      * right. right. exists p. split; [apply in_app_iff; right; exact Hp | reflexivity].
    + intros [H | [(b & [<- | Hb] & ->) | (p & Hp & ->)]].
      * left. left. left. exact H.
      * left. left. right. reflexivity.
      * right. left. exists b. split; [exact Hb | reflexivity].
      * apply in_app_iff in Hp. destruct Hp as [Hp | Hp].
        -- left. right. exists p. split; [exact Hp | reflexivity].
        -- right. right. exists p. split; [exact Hp | reflexivity].
Qed.

Lemma ids_add_memory (fallback : Memory -> string) (G : Graph) (m : Memory) (x : string) :
  In x (node_ids (add_memory fallback G m)) <->
  In x (node_ids G) \/ x = memory_id_of (memory_ident fallback m).
Proof.
  unfold add_memory. fold (memory_ident fallback m). unfold node_ids at 1.
  rewrite nodes_memory_people by (apply In_node_ids_add_node; right; reflexivity).
  apply In_node_ids_add_node.
Qed.

Lemma ids_memories (fallback : Memory -> string) (ms : list Memory) (G : Graph) (x : string) :
  In x (node_ids (fold_left (add_memory fallback) ms G)) <->
  In x (node_ids G) \/
  exists m, In m ms /\ x = memory_id_of (memory_ident fallback m).
Proof.
  revert G. induction ms as [|m ms IH]; intro G; cbn [fold_left].
  - split; [auto|]. intros [H | (m & [] & _)]. exact H.
  - rewrite IH, ids_add_memory. split.
    + intros [[H | ->] | (m' & Hm & ->)]; eauto.
      * right. exists m. split; [left; reflexivity | reflexivity].
      * right. exists m'. split; [right; exact Hm | reflexivity].
    + intros [H | (m' & [<- | Hm] & ->)]; eauto.
Qed.

Lemma person_node_iff (routine_data : list Activity) (q : string) :
  has_node (person_id_of q) (fold_left add_activity routine_data empty_graph)
  = existsb (String.eqb q) (participant_names routine_data).
Proof.
  apply eq_true_iff_eq. rewrite has_node_In, ids_activities, existsb_exists. split.
  - intros [[] | [(a & _ & H) | (p & Hp & H)]].
    + exfalso. exact (person_not_activity _ _ H).
    + apply person_id_inj in H. subst. exists p. split; [exact Hp | apply String.eqb_refl].
  - intros (p & Hp & H). apply String.eqb_eq in H. subst.
    right. right. exists p. split; [exact Hp | reflexivity].
Qed.

Lemma edges_memories (fallback : Memory -> string) (N : list string)
    (ms : list Memory) (G : Graph) :
  (forall q, has_node (person_id_of q) G = existsb (String.eqb q) N) ->
  edges (fold_left (add_memory fallback) ms G)
  = (edges G ++ memory_edges fallback N ms)%list.
Proof.
  revert G. induction ms as [|m ms IH]; intros G HG; cbn [fold_left].
  - unfold memory_edges. cbn. rewrite app_nil_r. reflexivity.
  - assert (Hmid : In (memory_id_of (memory_ident fallback m))
                     (node_ids (add_node (memory_id_of (memory_ident fallback m))
                                  (("type", JStr "memory") :: memory_items m) G)))
      by (apply In_node_ids_add_node; right; reflexivity).
    assert (Hstep : forall q,
               has_node (person_id_of q)
                 (add_node (memory_id_of (memory_ident fallback m))
                    (("type", JStr "memory") :: memory_items m) G)
               = existsb (String.eqb q) N).
    { intro q. rewrite has_node_add_node, HG.
      destruct (String.eqb_spec (person_id_of q)
                  (memory_id_of (memory_ident fallback m))) as [E|_].
      - exfalso. exact (person_not_memory _ _ E).
      - apply orb_false_r. }
    rewrite IH.
    + unfold add_memory. fold (memory_ident fallback m).
      rewrite edges_memory_people by exact Hmid.
      rewrite edges_add_node.
      rewrite (filter_ext _ _ Hstep).
      unfold memory_edges. cbn [flat_map]. rewrite <- app_assoc. reflexivity.
    + intro q. unfold add_memory. fold (memory_ident fallback m).
      unfold has_node. rewrite nodes_memory_people by exact Hmid.
      apply Hstep.
Qed.

(** X11: The nodes of the graph of [construct_memory_network] are exactly the
    Activity nodes of the routine's activities, the Person nodes of its
    participants and the Memory nodes of the story's memories, each
    identifier once. *)
Theorem built_graph_nodes (hash_memory : Memory -> string)
    (routine_data : list Activity) (story_data : StoryData) :
  NoDup (node_ids (construct_memory_network hash_memory routine_data story_data)) /\
  forall x,
    In x (node_ids (construct_memory_network hash_memory routine_data story_data)) <->
    (exists a, In a routine_data /\ x = activity_id_of (activity a)) \/
    (exists p, In p (participant_names routine_data) /\ x = person_id_of p) \/
    (exists m, In m (get_memories story_data) /\
               x = memory_id_of (memory_ident hash_memory m)).
Proof.
  split; [exact (proj1 (built_construct hash_memory routine_data story_data))|].
  intro x. unfold construct_memory_network. rewrite ids_memories, ids_activities.
  change (node_ids empty_graph) with (@nil string). cbn [In]. tauto.
Qed.

(** X12: The edges of the graph of [construct_memory_network], as a
    multiset: one Activity-to-Person edge per participant entry of the
    routine and one Memory-to-Person edge per memory reference to a
    person who is a participant of the routine, each as often as the
    entry or the reference is repeated, and nothing else. *)
Theorem built_graph_edges (hash_memory : Memory -> string)
    (routine_data : list Activity) (story_data : StoryData) :
  Permutation
    (edges (construct_memory_network hash_memory routine_data story_data))
    (routine_edges routine_data
     ++ memory_edges hash_memory (participant_names routine_data)
          (get_memories story_data))%list.
Proof.
  unfold construct_memory_network.
  rewrite (edges_memories hash_memory (participant_names routine_data)).
  - rewrite edges_activities. apply Permutation_refl.
  - intro q. apply person_node_iff.
Qed.

Lemma typed_add_node (n : string) (bag : dict) (G : Graph) :
  Forall typed_node (nodes G) -> typed_node (n, bag) -> NoDup (map fst bag) ->
  Forall typed_node (nodes (add_node n bag G)).
Proof.
  intros HG Hn Hnd. unfold add_node. destruct (has_node n G); cbn [nodes].
  - apply Forall_forall. intros nd' Hin. apply in_map_iff in Hin.
    destruct Hin as (nd & <- & Hin). rewrite Forall_forall in HG.
    destruct (String.eqb_spec n (fst nd)) as [E|_]; [|apply HG; exact Hin].
    unfold typed_node in *. cbn [fst snd] in *. rewrite <- E.
    destruct Hn as [(Hp & Ht) | [(Hp & Ht) | (Hp & Ht)]];
      [left | right; left | right; right];
      (split; [exact Hp | apply dict_update_overwritten; assumption]).
  - apply Forall_app. split; [exact HG | constructor; [exact Hn | constructor]].
Qed.

Lemma memory_bag_keys (m : Memory) :
  NoDup (map fst (("type", JStr "memory") :: memory_items m)).
Proof.
  unfold memory_items. destruct (id m), (people m); cbn;
    repeat constructor; cbn; intuition discriminate.
Qed.

Lemma typed_participants (label : string) (ps : list Participant) (G : Graph) :
  In (activity_id_of label) (node_ids G) -> Forall typed_node (nodes G) ->
  Forall typed_node (nodes (fold_left (add_participant (activity_id_of label)) ps G)).
Proof.
  revert G. induction ps as [|p ps IH]; intros G Ha HG; cbn [fold_left]; [exact HG|].
  assert (Hn : nodes (add_participant (activity_id_of label) G p)
               = nodes (add_node (person_id_of (name p))
                          (("type", JStr "person") :: participant_items p) G)).
  { unfold add_participant. apply node_ids_add_edge_existing.
    - apply In_node_ids_add_node. left. exact Ha.
    - apply In_node_ids_add_node. right. reflexivity. }
  apply IH.
  - unfold node_ids. rewrite Hn. apply In_node_ids_add_node. left. exact Ha.
  - rewrite Hn. apply typed_add_node; [exact HG | |].
    + right. left. split; [exists (name p); reflexivity | reflexivity].
    + cbn. repeat constructor; cbn; intuition discriminate.
Qed.

Lemma typed_activities (l : list Activity) (G : Graph) :
  Forall typed_node (nodes G) ->
  Forall typed_node (nodes (fold_left add_activity l G)).
Proof.
  revert G. induction l as [|a l IH]; intros G HG; cbn [fold_left]; [exact HG|].
  apply IH. unfold add_activity. apply typed_participants.
  - apply In_node_ids_add_node. right. reflexivity.
  - apply typed_add_node; [exact HG | | apply activity_bag_keys].
    left. split; [exists (activity a); reflexivity | reflexivity].
Qed.

Lemma typed_memories (fallback : Memory -> string) (ms : list Memory) (G : Graph) :
  Forall typed_node (nodes G) ->
  Forall typed_node (nodes (fold_left (add_memory fallback) ms G)).
Proof.
  revert G. induction ms as [|m ms IH]; intros G HG; cbn [fold_left]; [exact HG|].
  apply IH. unfold add_memory. fold (memory_ident fallback m).
  rewrite nodes_memory_people by (apply In_node_ids_add_node; right; reflexivity).
  apply typed_add_node; [exact HG | | apply memory_bag_keys].
  right. right. split; [exists (memory_ident fallback m); reflexivity | reflexivity].
Qed.

(** X13: In the graph of either builder every node carries the 'type'
    attribute its identifier announces: 'activity' for "activity_...",
    'person' for "person_...", 'memory' for "memory_...". *)
Theorem built_nodes_are_typed (hash_memory : Memory -> string)
    (hash_description : string -> string)
    (routine_data : list Activity) (story_data : StoryData) :
  Forall typed_node
    (nodes (construct_memory_network hash_memory routine_data story_data)) /\
  Forall typed_node
    (nodes (construct_memory_networks hash_description routine_data story_data)).
Proof.
  split.
  - unfold construct_memory_network. apply typed_memories, typed_activities.
    constructor.
  - rewrite construct_memory_networks_flat. apply typed_memories, typed_activities.
    constructor.
Qed.

Lemma getattr_of_field (p : Config.SearchPriorities) (c : string) :
  In c priority_fields -> exists w, Config.getattr p c = Ok (Config.Number w).
Proof.
  unfold priority_fields. cbn.
  intros [<- | [<- | [<- | [<- | []]]]]; cbn; eauto.
Qed.

Lemma score_categories_total (p : Config.SearchPriorities) (text : string)
    (kw : list (string * list json)) (acc : Q) :
  Forall (fun ct => In (fst ct) priority_fields /\ Forall term_normalizes (snd ct)) kw ->
  exists s, score_categories p text (map (fun ct => (fst ct, JList (snd ct))) kw) acc
            = Ok s.
Proof.
  revert acc. induction kw as [|[c ts] kw IH]; intros acc H; cbn; [eauto|].
  inversion H as [|? ? [Hc Hts] Hrest]; subst. cbn in Hc, Hts.
  destruct (getattr_of_field p c Hc) as (w & Hw). rewrite Hw. cbn.
  destruct (count_matches_ok text ts 0 Hts) as (m & Hm). rewrite Hm. cbn.
  apply IH. exact Hrest.
Qed.

Lemma search_nodes_total (float_repr : Q -> string) (w : SearchWeights)
    (p : Config.SearchPriorities) (th : Config.RelevanceThresholds)
    (kw : list (string * list json)) (nds : list (string * dict))
    (acc : list Candidate) :
  Forall (fun ct => In (fst ct) priority_fields /\ Forall term_normalizes (snd ct)) kw ->
  Forall typed_node nds ->
  exists rs, search_nodes float_repr w p th (keyword_map kw) nds acc = Ok rs.
Proof.
  intros Hkw. revert acc. induction nds as [|nd nds IH]; intros acc H; cbn; [eauto|].
  inversion H as [|? ? Hnd Hrest]; subst.
  unfold weigh_node, _calculate_relevance. cbn [keyword_map].
  destruct (score_categories_total p
              (lower (json_dumps float_repr (JDict (snd nd)))) kw 0 Hkw) as (s & Hs).
  unfold keyword_map. rewrite Hs. cbn [rbind].
  assert (Hty : exists ty, dict_get "type" (snd nd) = Some ty).
  { destruct Hnd as [(_ & Ht) | [(_ & Ht) | (_ & Ht)]]; eauto. }
  destruct Hty as (ty & Hty). cbn [getitem]. rewrite Hty. cbn [rbind].
  apply IH. exact Hrest.
Qed.

(** X14: On the graph of [construct_memory_network], with a keyword map whose
    categories are fields of [SearchPriorities] and whose terms normalize
    to strings, the broadening search never raises: the lookup of a
    node's 'type' cannot fail. *)
Theorem search_never_raises_on_built_graph (float_repr : Q -> string)
    (w : SearchWeights) (p : Config.SearchPriorities)
    (th : Config.RelevanceThresholds) (hash_memory : Memory -> string)
    (routine_data : list Activity) (story_data : StoryData)
    (kw : list (string * list json)) :
  Forall (fun ct => In (fst ct) priority_fields /\ Forall term_normalizes (snd ct)) kw ->
  exists rs,
    _search_knowledge_graphs float_repr w p th
      (construct_memory_network hash_memory routine_data story_data)
      (keyword_map kw) = Ok rs.
Proof.
  intro Hkw. unfold _search_knowledge_graphs.
  destruct (search_nodes_total float_repr w p th kw
              (nodes (construct_memory_network hash_memory routine_data story_data))
              [] Hkw) as (rs & Hrs).
  - unfold construct_memory_network. apply typed_memories, typed_activities.
    constructor.
  - rewrite Hrs. cbn [rbind]. eauto.
Qed.

Lemma search_never_raises_on_built_graph_witness :
  exists rs,
    _search_knowledge_graphs example_repr default_weights
      Config.default_priorities Config.default_thresholds
      (construct_memory_network (fun _ => "0") example_routine example_story)
      (keyword_map [("people", [JStr "Tom"; JDict [("name", JStr "son")]])])
    = Ok rs.
Proof.
  apply (search_never_raises_on_built_graph example_repr default_weights
           Config.default_priorities Config.default_thresholds (fun _ => "0")
           example_routine example_story
           [("people", [JStr "Tom"; JDict [("name", JStr "son")]])]).
  repeat constructor; cbn; auto; eexists; reflexivity.
Defined.

(** X15: A story without a top-level 'memories' key (the format the generator
    writes, which keeps the memories under 'interviews') gives
    [construct_memory_network] a graph with no Memory node and no edge
    besides the routine's, while [construct_memory_networks] adds a Memory
    node for every memory of every interview. *)
Theorem story_without_memories_key (hash_memory : Memory -> string)
    (hash_description : string -> string)
    (routine_data : list Activity) (story_data : StoryData) :
  memories story_data = None ->
  (forall i, ~ In (memory_id_of i)
               (node_ids (construct_memory_network hash_memory routine_data story_data))) /\
  edges (construct_memory_network hash_memory routine_data story_data)
  = routine_edges routine_data /\
  (forall interview m,
      In interview (interviews story_data) -> In m (interview_memories interview) ->
      In (memory_id_of (memory_ident (fun m => hash_description (description m)) m))
         (node_ids (construct_memory_networks hash_description routine_data story_data))).
Proof.
  intro Hnone. split; [|split].
  - intros i Hin. unfold construct_memory_network, get_memories in Hin.
    rewrite Hnone in Hin. cbn [fold_left] in Hin.
    apply ids_activities in Hin.
    destruct Hin as [[] | [(a & _ & H) | (p & _ & H)]].
    + symmetry in H. exact (activity_not_memory _ _ H).
    + symmetry in H. exact (person_not_memory _ _ H).
  - unfold construct_memory_network, get_memories. rewrite Hnone. cbn [fold_left].
    apply edges_activities.
  - intros interview m Hi Hm. rewrite construct_memory_networks_flat.
    apply ids_memories. right. exists m. split; [|reflexivity].
    apply in_flat_map. exists interview. split; assumption.
Qed.

Lemma story_without_memories_key_witness :
  let story := mkStoryData None
                 [mkInterview [mkMemory None 1980 "Fishing" "Fishing trip with Tom"
                                 "" "" None]] in
  (forall i, ~ In (memory_id_of i)
               (node_ids (construct_memory_network (fun _ => "0") example_routine story))) /\
  edges (construct_memory_network (fun _ => "0") example_routine story)
  = routine_edges example_routine.
Proof.
  intro story.
  refine (let H := story_without_memories_key (fun _ => "0") (fun _ => "0")
                     example_routine story eq_refl in
          conj (proj1 H) (proj1 (proj2 H))).
Defined.
(* ================================================================== *)
(** * Properties of the sibling agent's helpers *)

Module AdaptiveDialogueFacts.

Import AdaptiveDialogueAgent.

(* ------------------------------------------------------------------ *)
(** ** Weights *)

Lemma py_max_cases (a b : Q) :
  (b <= a /\ py_max a b = a) \/ (a < b /\ py_max a b = b).
Proof.
  unfold py_max. destruct (Qle_bool b a) eqn:E.
  - left. split; [apply Qle_bool_iff; exact E | reflexivity].
  - right. split; [|reflexivity].
    apply Qnot_le_lt. intro H. apply Qle_bool_iff in H. congruence.
Qed.

Lemma clamp_bounds (x : Q) :
  0 <= py_min 1 (py_max 0 x) /\ py_min 1 (py_max 0 x) <= 1 /\
  (0 <= x -> x <= 1 -> py_min 1 (py_max 0 x) == x) /\
  (1 <= x -> py_min 1 (py_max 0 x) = 1) /\
  (x <= 1 -> x <= py_min 1 (py_max 0 x)).
Proof.
  destruct (py_max_cases 0 x) as [[H1 H2]|[H1 H2]]; rewrite H2;
    destruct (py_min_cases 1 0) as [[H3 H4]|[H3 H4]];
    destruct (py_min_cases 1 x) as [[H5 H6]|[H5 H6]];
    try rewrite H4; try rewrite H6; repeat split; intros; try lra; try reflexivity.
Qed.

(** X16: The sibling [adjust] clamps the requested story weight into [[0, 1]]
    and sets the routine weight to the complement: both weights lie in
    [[0, 1]] and sum to 1 whatever the request, a request inside [[0, 1]]
    is taken as it is, and adjusting to the current story weight changes
    nothing. *)
Theorem adjust_clamps_and_complements (w : SearchWeights) (x : Q) :
  let w' := adjust w x in
  0 <= story_weight w' /\ story_weight w' <= 1 /\
  0 <= routine_weight w' /\ routine_weight w' <= 1 /\
  routine_weight w' + story_weight w' == 1 /\
  (0 <= x -> x <= 1 -> story_weight w' == x) /\
  story_weight (adjust w' (story_weight w')) == story_weight w'.
Proof.
  cbv zeta. unfold adjust. cbn [story_weight routine_weight].
  destruct (clamp_bounds x) as (H0 & H1 & H2 & _).
  set (s := py_min 1 (py_max 0 x)) in *.
  destruct (clamp_bounds s) as (_ & _ & H3 & _).
  repeat split; try lra; try assumption; try ring; try (apply H3; assumption).
Qed.

Lemma story_weight_at_most_one (n : nat) :
  story_weight (Nat.iter n shift_to_story default_weights) <= 1.
Proof.
  destruct n as [|n].
  - cbn. lra.
  - change (Nat.iter (S n) shift_to_story default_weights)
      with (shift_to_story (Nat.iter n shift_to_story default_weights)).
    unfold shift_to_story, adjust. cbn [story_weight].
    apply clamp_bounds.
Qed.

(** X17: Starting from the sibling's defaults (0.9, 0.1), each low-score step
    [adjust(story_weight + 0.2)] never lowers the story weight, and from
    the fifth step on the story weight is 1 and the routine weight 0:
    nothing in the agent shifts the weights back. *)
Theorem story_weight_saturates (n : nat) :
  let w := Nat.iter n shift_to_story default_weights in
  story_weight w <= story_weight (shift_to_story w) /\
  ((5 <= n)%nat -> story_weight w = 1 /\ routine_weight w == 0).
Proof.
  cbv zeta. split.
  - pose proof (story_weight_at_most_one n) as H.
    set (w := Nat.iter n shift_to_story default_weights) in *.
    unfold shift_to_story, adjust. cbn [story_weight].
    destruct (clamp_bounds (story_weight w + (2 # 10))) as (_ & _ & _ & H4 & H5).
    destruct (Qlt_le_dec 1 (story_weight w + (2 # 10))) as [Hgt | Hle].
    + rewrite H4 by lra. exact H.
    + eapply Qle_trans; [|apply H5; exact Hle]. lra.
  - intro Hn.
    assert (Hs : story_weight (Nat.iter n shift_to_story default_weights) = 1).
    { induction Hn as [|m Hm IH].
      - vm_compute. reflexivity.
      - change (Nat.iter (S m) shift_to_story default_weights)
          with (shift_to_story (Nat.iter m shift_to_story default_weights)).
        set (w := Nat.iter m shift_to_story default_weights) in *.
        unfold shift_to_story, adjust. cbn [story_weight].
        rewrite IH. vm_compute. reflexivity. }
    split; [exact Hs|].
    destruct n as [|m]; [lia|].
    change (Nat.iter (S m) shift_to_story default_weights)
      with (shift_to_story (Nat.iter m shift_to_story default_weights)) in *.
    set (w := Nat.iter m shift_to_story default_weights) in *.
    unfold shift_to_story, adjust in Hs |- *.
    cbn [story_weight routine_weight] in *. rewrite Hs. reflexivity.
Qed.

Lemma story_weight_saturates_witness :
  story_weight (Nat.iter 6 shift_to_story default_weights) = 1 /\
  routine_weight (Nat.iter 6 shift_to_story default_weights) == 0.
Proof.
  apply (proj2 (story_weight_saturates 6)). lia.
Defined.

(* ------------------------------------------------------------------ *)
(** ** [search_memories] *)

Lemma any_keyword_strings (text : string) (ks : list string) :
  any_keyword text (map JStr ks)
  = Ok (existsb (fun k => contains (lower k) text) ks).
Proof.
  induction ks as [|k ks IH]; cbn; [reflexivity|].
  destruct (contains (lower k) text); [reflexivity | exact IH].
Qed.

Lemma any_keyword_then_other (text : string) (ks : list string) (bad : json)
    (rest : list json) :
  (forall s, bad <> JStr s) ->
  any_keyword text (map JStr ks ++ bad :: rest)
  = if existsb (fun k => contains (lower k) text) ks then Ok true
    else Raise AttributeError.
Proof.
  intro Hbad. induction ks as [|k ks IH]; cbn.
  - destruct bad; try reflexivity. exfalso. apply (Hbad s). reflexivity.
  - destruct (contains (lower k) text); [reflexivity | exact IH].
Qed.

Lemma search_interview_app (kws : list json) (l1 l2 : list Memory)
    (acc : list FoundMemory) :
  search_interview kws (l1 ++ l2) acc
  = rbind (search_interview kws l1 acc) (fun acc' => search_interview kws l2 acc').
Proof.
  revert acc. induction l1 as [|m l1 IH]; intro acc; cbn; [reflexivity|].
  destruct (any_keyword _ kws); cbn; [apply IH | reflexivity].
Qed.

Lemma search_interviews_flat (kws : list json) (l : list Interview)
    (acc : list FoundMemory) :
  search_interviews kws l acc
  = search_interview kws (flat_map interview_memories l) acc.
Proof.
  revert acc. induction l as [|i l IH]; intro acc; cbn; [reflexivity|].
  rewrite search_interview_app.
  destruct (search_interview kws (interview_memories i) acc); cbn;
    [apply IH | reflexivity].
Qed.

Lemma search_interview_strings (ks : list string) (ms : list Memory)
    (acc : list FoundMemory) :
  search_interview (map JStr ks) ms acc
  = Ok (acc ++ map found (filter (mentions ks) ms))%list.
Proof.
  revert acc. induction ms as [|m ms IH]; intro acc; cbn.
  - rewrite app_nil_r. reflexivity.
  - rewrite any_keyword_strings. cbn [rbind]. rewrite IH. unfold mentions at 2.
    destruct (existsb _ ks); cbn [map]; [rewrite <- app_assoc|]; reflexivity.
Qed.

(** X18: With keywords that are all strings [search_memories] never raises and
    returns, in record order, exactly the memories whose lower-cased
    "description details" text contains a lower-cased keyword; no keyword
    finds nothing, and an empty keyword finds every memory. *)
Theorem search_memories_on_strings (story_data : StoryData) (ks : list string) :
  search_memories story_data (map JStr ks)
  = Ok (map found (filter (mentions ks) (interview_memory_list story_data))) /\
  search_memories story_data [] = Ok [] /\
  (In "" ks ->
   search_memories story_data (map JStr ks)
   = Ok (map found (interview_memory_list story_data))).
Proof.
  assert (H : forall l, search_memories story_data (map JStr l)
                        = Ok (map found (filter (mentions l)
                                          (interview_memory_list story_data)))).
  { intro l. unfold search_memories. rewrite search_interviews_flat.
    rewrite search_interview_strings. reflexivity. }
  split; [apply H|]. split.
  - pose proof (H []) as H0. cbn [map] in H0. rewrite H0. clear H H0. f_equal.
    change (@nil FoundMemory) with (map found []). f_equal.
    induction (interview_memory_list story_data) as [|m l IH]; [reflexivity|].
    cbn. exact IH.
  - intro Hin. rewrite H. clear H. f_equal. f_equal.
    induction (interview_memory_list story_data) as [|m l IH]; [reflexivity|].
    cbn [filter].
    assert (Hm : mentions ks m = true).
    { unfold mentions. apply existsb_exists. exists "". split; [exact Hin|].
      cbn. destruct (memory_text _ _); reflexivity. }
    rewrite Hm, IH. reflexivity.
Qed.

(** X19: For string keywords the result depends on the set of keywords only,
    not on their order or repetition (the caller passes [list(set)]). *)
Theorem search_memories_ignores_keyword_order (story_data : StoryData)
    (ks ks' : list string) :
  (forall k, In k ks <-> In k ks') ->
  search_memories story_data (map JStr ks)
  = search_memories story_data (map JStr ks').
Proof.
  intro Hset. unfold search_memories. rewrite !search_interviews_flat.
  rewrite !search_interview_strings. f_equal. f_equal. f_equal.
  apply filter_ext. intro m. unfold mentions. apply eq_true_iff_eq.
  rewrite !existsb_exists. split; intros (k & Hk & H); exists k;
    (split; [apply Hset; exact Hk | exact H]).
Qed.

Lemma search_memories_ignores_keyword_order_witness :
  search_memories
    (mkStoryData None
       [mkInterview [mkMemory None 1980 "Fishing" "Fishing trip with Tom" "" "" None;
                     mkMemory None 1990 "Garden" "Planting roses" "" "" None]])
    (map JStr ["tom"; "roses"; "tom"])
  = search_memories
      (mkStoryData None
         [mkInterview [mkMemory None 1980 "Fishing" "Fishing trip with Tom" "" "" None;
                       mkMemory None 1990 "Garden" "Planting roses" "" "" None]])
      (map JStr ["roses"; "tom"]).
Proof.
  apply (search_memories_ignores_keyword_order
           (mkStoryData None
              [mkInterview [mkMemory None 1980 "Fishing" "Fishing trip with Tom" "" "" None;
                            mkMemory None 1990 "Garden" "Planting roses" "" "" None]])
           ["tom"; "roses"; "tom"] ["roses"; "tom"]).
  intro k. cbn. tauto.
Defined.

Lemma search_interview_then_other (ks : list string) (bad : json)
    (rest : list json) (ms : list Memory) (acc : list FoundMemory) :
  (forall s, bad <> JStr s) ->
  search_interview (map JStr ks ++ bad :: rest) ms acc
  = if forallb (mentions ks) ms then Ok (acc ++ map found ms)%list
    else Raise AttributeError.
Proof.
  intro Hbad. revert acc. induction ms as [|m ms IH]; intro acc; cbn.
  - rewrite app_nil_r. reflexivity.
  - rewrite (any_keyword_then_other _ ks bad rest Hbad). unfold mentions at 1.
    destruct (existsb _ ks); cbn; [|reflexivity].
    rewrite IH. destruct (forallb (mentions ks) ms); [|reflexivity].
    rewrite <- app_assoc. reflexivity.
Qed.

(** X20: A keyword that is not a string makes [search_memories] raise as soon
    as a memory matches none of the string keywords before it; when every
    memory matches one of them the search returns all memories and the
    bad keyword goes unnoticed. *)
Theorem search_memories_with_other_keyword (story_data : StoryData)
    (ks : list string) (bad : json) (rest : list json) :
  (forall s, bad <> JStr s) ->
  search_memories story_data (map JStr ks ++ bad :: rest)
  = if forallb (mentions ks) (interview_memory_list story_data)
    then Ok (map found (interview_memory_list story_data))
    else Raise AttributeError.
Proof.
  intro Hbad. unfold search_memories. rewrite search_interviews_flat.
  rewrite (search_interview_then_other ks bad rest _ [] Hbad). reflexivity.
Qed.

Lemma search_memories_with_other_keyword_witness :
  search_memories
    (mkStoryData None
       [mkInterview [mkMemory None 1980 "Fishing" "Fishing trip with Tom"
                       "" "" None]])
    (map JStr ["garden"] ++ [JInt 3])
  = Raise AttributeError.
Proof.
  rewrite (search_memories_with_other_keyword
             (mkStoryData None
                [mkInterview [mkMemory None 1980 "Fishing" "Fishing trip with Tom"
                                "" "" None]])
             ["garden"] (JInt 3) []).
  - vm_compute. reflexivity.
  - intros s H. discriminate H.
Defined.

(* ------------------------------------------------------------------ *)
(** ** [_get_person_activities] *)

Lemma takes_part_In (p : string) (a : Activity) :
  takes_part p a = true <-> In p (map name (get_participants a)).
Proof.
  unfold takes_part. rewrite existsb_exists. split.
  - intros (x & Hx & H). apply String.eqb_eq in H. subst. exact Hx.
  - intro H. exists p. split; [exact H | apply String.eqb_refl].
Qed.

Lemma listed_somewhere (p : string) (routine_data : list Activity) :
  In p (participant_names routine_data) <->
  exists a, In a routine_data /\ takes_part p a = true.
Proof.
  unfold participant_names. rewrite in_flat_map. split;
    intros (a & Ha & H); exists a; (split; [exact Ha | apply takes_part_In; exact H]).
Qed.

Lemma listing_activities_count (p : string) (routine_data : list Activity) :
  (List.length (filter (takes_part p) routine_data)
   <= occurrences p (participant_names routine_data))%nat.
Proof.
  induction routine_data as [|a l IH]; [cbn; lia|].
  unfold participant_names. cbn [flat_map filter]. rewrite occurrences_app.
  fold (participant_names l).
  destruct (takes_part p a) eqn:E; [|lia].
  apply takes_part_In in E.
  apply (count_occ_In string_dec) in E. unfold occurrences at 1. cbn [List.length].
  lia.
Qed.

(** X21: [_get_person_activities] returns none exactly when the person takes
    part in no activity of the routine; otherwise it lists, in record
    order, one entry per activity the person takes part in (an activity
    that lists the person twice is reported once), at most as many as the
    person has participant entries.  The time passed in plays no role. *)
Theorem person_activities_listing (routine_data : list Activity) (p : string)
    (t : datetime) :
  (_get_person_activities routine_data p t = None <->
   ~ In p (participant_names routine_data)) /\
  (forall t', _get_person_activities routine_data p t'
              = _get_person_activities routine_data p t) /\
  (forall pa, _get_person_activities routine_data p t = Some pa ->
              person pa = p /\
              activities pa = map activity_ref (filter (takes_part p) routine_data) /\
              (1 <= List.length (activities pa)
               <= occurrences p (participant_names routine_data))%nat).
Proof.
  unfold _get_person_activities. split; [|split].
  - rewrite listed_somewhere.
    destruct (filter (takes_part p) routine_data) as [|a l] eqn:E; cbn [map].
    + split; [|reflexivity]. intros _ (a & Ha & H).
      assert (Hin : In a (filter (takes_part p) routine_data))
        by (apply filter_In; split; assumption).
      rewrite E in Hin. exact Hin.
    + split; [discriminate|]. intro H. exfalso. apply H.
      assert (Hin : In a (filter (takes_part p) routine_data))
        by (rewrite E; left; reflexivity).
      apply filter_In in Hin. exists a. exact Hin.
  - reflexivity.
  - intros pa H. pose proof (listing_activities_count p routine_data) as Hc.
    destruct (filter (takes_part p) routine_data) as [|a l] eqn:E; cbn [map] in H;
      [discriminate|].
    injection H as <-. cbn [person activities].
    repeat split; cbn [List.length map] in *; rewrite ?length_map; lia.
Qed.

(* ------------------------------------------------------------------ *)
(** ** [_is_person_relevant] and [_search_current_activity] *)

Lemma related_iff (n : string) (rels : relationships) :
  related n rels = true <->
  exists term rs rel, In (term, rs) rels /\ In rel rs /\ related_to rel = JStr n.
Proof.
  unfold related. rewrite existsb_exists. split.
  - intros ([term rs] & Hin & H). cbn in H. apply existsb_exists in H.
    destruct H as (rel & Hrel & H). exists term, rs, rel.
    repeat split; try assumption.
    destruct (related_to rel); cbn in H; try discriminate.
    apply String.eqb_eq in H. subst. reflexivity.
  - intros (term & rs & rel & Hin & Hrel & H). exists (term, rs).
    split; [exact Hin|]. cbn. apply existsb_exists. exists rel.
    split; [exact Hrel|]. rewrite H. cbn. apply String.eqb_refl.
Qed.

(** X22: [_is_person_relevant]: with keywords that are not an object it raises
    [AttributeError]; with a 'people' value that is no container it
    raises [TypeError]; with a list, or no 'people' key, a person is
    relevant exactly when the list holds the name or some relationship is
    [related_to] the name; with a 'people' value that is a string, any
    name occurring in that string as a substring is relevant. *)
Theorem person_relevance_cases (n : string) (rels : relationships) :
  (forall kw, (forall d, kw <> JDict d) ->
              _is_person_relevant n kw rels = Raise AttributeError) /\
  (forall d v, dict_get "people" d = Some v ->
               (forall l, v <> JList l) -> (forall s, v <> JStr s) ->
               (forall o, v <> JDict o) ->
               _is_person_relevant n (JDict d) rels = Raise TypeError) /\
  (forall d l, dict_get "people" d = Some (JList l) \/
               (dict_get "people" d = None /\ l = []) ->
               exists b, _is_person_relevant n (JDict d) rels = Ok b /\
                         (b = true <->
                          In (JStr n) l \/
                          exists term rs rel, In (term, rs) rels /\ In rel rs /\
                                              related_to rel = JStr n)) /\
  (forall d s, dict_get "people" d = Some (JStr s) ->
               _is_person_relevant n (JDict d) rels
               = Ok (contains n s || related n rels)).
Proof.
  split; [|split; [|split]].
  - intros kw Hkw. unfold _is_person_relevant, keywords_get.
    destruct kw; try reflexivity. exfalso. apply (Hkw d). reflexivity.
  - intros d v Hv Hl Hs Ho. unfold _is_person_relevant, keywords_get.
    rewrite Hv. cbn [rbind]. destruct v; try reflexivity.
    + exfalso. apply (Hs s). reflexivity.
    + exfalso. apply (Hl l). reflexivity.
    + exfalso. apply (Ho d0). reflexivity.
  - intros d l H. unfold _is_person_relevant, keywords_get.
    assert (Hv : match dict_get "people" d with Some v => v | None => JList [] end
                 = JList l).
    { destruct H as [H | (H & ->)]; rewrite H; reflexivity. }
    rewrite Hv. cbn [rbind py_in].
    assert (Hdirect : existsb (fun e => eq_str e n) l = true <-> In (JStr n) l).
    { rewrite existsb_exists. split.
      - intros (e & He & H1). destruct e; cbn in H1; try discriminate.
        apply String.eqb_eq in H1. subst. exact He.
      - intro H1. exists (JStr n). split; [exact H1 | cbn; apply String.eqb_refl]. }
    destruct (existsb (fun e => eq_str e n) l) eqn:E.
    + exists true. split; [reflexivity|]. split; [|reflexivity].
      intros _. left. apply Hdirect. reflexivity.
    + exists (related n rels). split; [reflexivity|].
      rewrite related_iff. split; [auto|].
      intros [H1 | H1]; [|exact H1]. apply Hdirect in H1. discriminate.
  - intros d s Hs. unfold _is_person_relevant, keywords_get. rewrite Hs.
    cbn [rbind py_in]. destruct (contains n s); reflexivity.
Qed.

Lemma relevant_participants_spec (ps : list Participant) (kw : json)
    (rels : relationships) (kept out : list Participant) :
  relevant_participants ps kw rels kept = Ok out ->
  out = (kept ++ filter (fun p => match _is_person_relevant (name p) kw rels with
                                  | Ok b => b
                                  | Raise _ => false
                                  end) ps)%list.
Proof.
  revert kept. induction ps as [|p ps IH]; intros kept H; cbn in H.
  - injection H as <-. cbn. rewrite app_nil_r. reflexivity.
  - cbn [filter].
    destruct (_is_person_relevant (name p) kw rels) as [b|e]; cbn in H; [|discriminate].
    apply IH in H. rewrite H. destruct b; [rewrite <- app_assoc|]; reflexivity.
Qed.

Lemma is_person_relevant_list (n : string) (d : dict) (l : list json)
    (rels : relationships) :
  dict_get "people" d = Some (JList l) \/ (dict_get "people" d = None /\ l = []) ->
  _is_person_relevant n (JDict d) rels
  = Ok (existsb (fun e => eq_str e n) l || related n rels).
Proof.
  intro H. unfold _is_person_relevant, keywords_get.
  assert (Hv : match dict_get "people" d with Some v => v | None => JList [] end
               = JList l).
  { destruct H as [H | (H & ->)]; rewrite H; reflexivity. }
  rewrite Hv. cbn [rbind py_in].
  destruct (existsb (fun e => eq_str e n) l); reflexivity.
Qed.

Lemma relevant_participants_list (ps : list Participant) (d : dict) (l : list json)
    (rels : relationships) (kept : list Participant) :
  dict_get "people" d = Some (JList l) \/ (dict_get "people" d = None /\ l = []) ->
  relevant_participants ps (JDict d) rels kept
  = Ok (kept ++ filter (fun p => existsb (fun e => eq_str e (name p)) l
                                 || related (name p) rels) ps)%list.
Proof.
  intro H. revert kept.
  induction ps as [|p ps IH]; intro kept; cbn [relevant_participants filter].
  - rewrite app_nil_r. reflexivity.
  - rewrite (is_person_relevant_list _ _ _ _ H). cbn [rbind]. rewrite IH.
    destruct (existsb _ l || related (name p) rels);
      [rewrite <- app_assoc|]; reflexivity.
Qed.

(** X23: [_search_current_activity] copies the activity's label, time range
    and location and keeps, in order, exactly the participants that
    [_is_person_relevant] accepts.  With keywords whose 'people' value is
    a list, or that have no 'people' key, it returns, keeping the
    participants named in the list or in some relationship; on an
    activity without participants it returns whatever the keywords are,
    malformed ones included. *)
Theorem current_activity_keeps_relevant_participants (a : Activity) (kw : json)
    (rels : relationships) :
  (forall info, _search_current_activity a kw rels = Ok info ->
     info_name info = activity a /\
     info_time info = time_start a ++ " - " ++ time_end a /\
     info_location info = Routine.location a /\
     info_participants info
     = filter (fun p => match _is_person_relevant (name p) kw rels with
                        | Ok b => b
                        | Raise _ => false
                        end) (get_participants a)) /\
  (forall d l,
     kw = JDict d ->
     dict_get "people" d = Some (JList l) \/ (dict_get "people" d = None /\ l = []) ->
     _search_current_activity a kw rels
     = Ok (mkActivityInfo (activity a) (time_start a ++ " - " ++ time_end a)
             (Routine.location a)
             (filter (fun p => existsb (fun e => eq_str e (name p)) l
                               || related (name p) rels) (get_participants a)))) /\
  (get_participants a = [] ->
   _search_current_activity a kw rels
   = Ok (mkActivityInfo (activity a) (time_start a ++ " - " ++ time_end a)
           (Routine.location a) [])).
Proof.
  unfold _search_current_activity. split; [|split].
  - intros info H.
    destruct (relevant_participants (get_participants a) kw rels []) as [ps|e] eqn:E;
      cbn in H; [|discriminate].
    injection H as <-. cbn. apply relevant_participants_spec in E.
    repeat split. exact E.
  - intros d l -> H. rewrite (relevant_participants_list _ _ _ _ _ H). reflexivity.
  - intro Hnone. rewrite Hnone. reflexivity.
Qed.

(* ------------------------------------------------------------------ *)
(** ** [_rank_memories] *)

Lemma score_terms_grows (text : string) (terms : list json) (acc s : Q) :
  score_terms text terms acc = Ok s -> acc <= s.
Proof.
  revert acc. induction terms as [|t ts IH]; intros acc H; cbn in H.
  - injection H as <-. lra.
  - destruct (str_lower t) as [tl|e]; cbn in H; [|discriminate].
    apply IH in H. destruct (contains tl text); lra.
Qed.

Lemma score_keywords_grows (text : string) (values : list json) (acc s : Q) :
  score_keywords text values acc = Ok s -> acc <= s.
Proof.
  revert acc. induction values as [|v vs IH]; intros acc H; cbn in H.
  - injection H as <-. lra.
  - destruct (iterate v) as [terms|e]; cbn in H; [|discriminate].
    destruct (score_terms text terms acc) as [s1|e] eqn:E; cbn in H; [|discriminate].
    apply score_terms_grows in E. apply IH in H. lra.
Qed.

Lemma score_relations_grows (text : string) (rels : list Relation) (acc s : Q) :
  score_relations text rels acc = Ok s -> acc <= s.
Proof.
  revert acc. induction rels as [|r rs IH]; intros acc H; cbn in H.
  - injection H as <-. lra.
  - destruct (str_lower (related_to r)) as [tl|e]; cbn in H; [|discriminate].
    apply IH in H. destruct (contains tl text); lra.
Qed.

Lemma score_relationships_grows (text : string) (items : relationships) (acc s : Q) :
  score_relationships text items acc = Ok s -> acc <= s.
Proof.
  revert acc. induction items as [|[term rs] items IH]; intros acc H; cbn in H.
  - injection H as <-. lra.
  - destruct (score_relations text rs acc) as [s1|e] eqn:E; cbn in H; [|discriminate].
    apply score_relations_grows in E. apply IH in H. lra.
Qed.

Lemma score_memory_spec (kw : json) (rels : relationships) (m : FoundMemory)
    (r : RankedMemory) :
  score_memory kw rels m = Ok r -> ranked r = m /\ 0 <= relevance_score r.
Proof.
  unfold score_memory. destruct kw; try discriminate.
  destruct (score_keywords _ (map snd d) 0) as [s1|e] eqn:E1; cbn; [|discriminate].
  destruct (score_relationships _ rels s1) as [s2|e] eqn:E2; cbn; [|discriminate].
  intro H. injection H as <-. cbn.
  apply score_keywords_grows in E1. apply score_relationships_grows in E2.
  split; [reflexivity | lra].
Qed.

Lemma score_memories_spec (kw : json) (rels : relationships)
    (ms : list FoundMemory) (acc out : list RankedMemory) :
  score_memories kw rels ms acc = Ok out ->
  exists scored,
    out = (acc ++ scored)%list /\ map ranked scored = ms /\
    Forall (fun r => score_memory kw rels (ranked r) = Ok r) scored.
Proof.
  revert acc. induction ms as [|m ms IH]; intros acc H; cbn in H.
  - injection H as <-. exists []. rewrite app_nil_r. repeat split. constructor.
  - destruct (score_memory kw rels m) as [r|e] eqn:E; cbn in H; [|discriminate].
    apply IH in H. destruct H as (scored & -> & Hm & HF).
    pose proof (score_memory_spec _ _ _ _ E) as (Hr & _).
    exists (r :: scored). rewrite <- app_assoc. cbn. repeat split.
    + rewrite Hr, Hm. reflexivity.
    + constructor; [rewrite Hr; exact E | exact HF].
Qed.

Lemma insert_ranked_perm (x : RankedMemory) (l : list RankedMemory) :
  Permutation (x :: l) (insert_ranked x l).
Proof.
  induction l as [|y l IH]; cbn; [apply Permutation_refl|].
  destruct (Qle_bool (relevance_score y) (relevance_score x));
    [apply Permutation_refl|].
  eapply Permutation_trans; [apply perm_swap|]. apply perm_skip. exact IH.
Qed.

Lemma sort_ranked_perm (l : list RankedMemory) : Permutation l (sort_ranked l).
Proof.
  induction l as [|x l IH]; cbn; [constructor|].
  eapply Permutation_trans; [apply perm_skip; exact IH | apply insert_ranked_perm].
Qed.

Lemma insert_ranked_sorted (x : RankedMemory) (l : list RankedMemory) :
  StronglySorted (fun a b => relevance_score b <= relevance_score a) l ->
  StronglySorted (fun a b => relevance_score b <= relevance_score a)
    (insert_ranked x l).
Proof.
  induction l as [|y l IH]; intro H; cbn.
  - repeat constructor.
  - inversion H as [|? ? Hl Hy]; subst.
    destruct (Qle_bool (relevance_score y) (relevance_score x)) eqn:E.
    + apply Qle_bool_iff in E. constructor; [exact H|].
      constructor; [exact E|].
      eapply Forall_impl; [|exact Hy]. cbn. intros z Hz.
      eapply Qle_trans; eassumption.
    + constructor; [apply IH; exact Hl|].
      eapply Permutation_Forall; [apply insert_ranked_perm|].
      constructor; [|exact Hy].
      apply Qlt_le_weak. apply Qnot_le_lt. intro Hle.
      apply Qle_bool_iff in Hle. congruence.
Qed.

Lemma sort_ranked_sorted (l : list RankedMemory) :
  StronglySorted (fun a b => relevance_score b <= relevance_score a) (sort_ranked l).
Proof.
  induction l as [|x l IH]; cbn; [constructor|].
  apply insert_ranked_sorted. exact IH.
Qed.

Lemma score_terms_returns (text : string) (ts : list string) (acc : Q) :
  exists s, score_terms text (map JStr ts) acc = Ok s.
Proof.
  revert acc. induction ts as [|t ts IH]; intro acc; cbn; [eexists; reflexivity|].
  apply IH.
Qed.

Lemma score_keywords_returns (text : string) (d : list (string * list string))
    (acc : Q) :
  exists s,
    score_keywords text (map (fun ct => JList (map JStr (snd ct))) d) acc = Ok s.
Proof.
  revert acc. induction d as [|[c ts] d IH]; intro acc; cbn; [eexists; reflexivity|].
  destruct (score_terms_returns text ts acc) as (s1 & ->). cbn. apply IH.
Qed.

Lemma score_relations_returns (text : string) (rs : list Relation) (acc : Q) :
  Forall (fun rel => exists s, related_to rel = JStr s) rs ->
  exists s, score_relations text rs acc = Ok s.
Proof.
  intro H. revert acc. induction H as [|r rs (s & Hr) _ IH]; intro acc; cbn;
    [eexists; reflexivity|].
  rewrite Hr. cbn. apply IH.
Qed.

Lemma score_relationships_returns (text : string) (rels : relationships) (acc : Q) :
  Forall (fun tr => Forall (fun rel => exists s, related_to rel = JStr s) (snd tr))
         rels ->
  exists s, score_relationships text rels acc = Ok s.
Proof.
  intro H. revert acc. induction H as [|[term rs] rels Hr _ IH]; intro acc; cbn;
    [eexists; reflexivity|].
  destruct (score_relations_returns text rs acc Hr) as (s1 & ->). cbn. apply IH.
Qed.

Lemma score_memories_returns (d : list (string * list string))
    (rels : relationships) (ms : list FoundMemory) (acc : list RankedMemory) :
  Forall (fun tr => Forall (fun rel => exists s, related_to rel = JStr s) (snd tr))
         rels ->
  exists out,
    score_memories (JDict (map (fun ct => (fst ct, JList (map JStr (snd ct)))) d))
      rels ms acc = Ok out.
Proof.
  intro H. revert acc. induction ms as [|m ms IH]; intro acc; cbn [score_memories];
    [eexists; reflexivity|].
  unfold score_memory. rewrite map_map. cbn [snd].
  destruct (score_keywords_returns
              (memory_text (found_description m) (found_details m)) d 0)
    as (s1 & ->). cbn [rbind].
  destruct (score_relationships_returns
              (memory_text (found_description m) (found_details m)) rels s1 H)
    as (s2 & ->). cbn [rbind]. apply IH.
Qed.

(** X24: [_rank_memories] returns whenever the keywords map categories to
    lists of strings and every relationship is [related_to] a string.
    When it returns, its output holds every input memory exactly once,
    each with the score [score_memory] gives it, at least 0, in
    descending order of score.  Without memories it returns the empty
    list whatever the keywords are, malformed ones included. *)
Theorem ranking_is_a_sorted_permutation (ms : list FoundMemory) (kw : json)
    (rels : relationships) :
  (forall d,
     kw = JDict (map (fun ct => (fst ct, JList (map JStr (snd ct)))) d) ->
     Forall (fun tr => Forall (fun rel => exists s, related_to rel = JStr s) (snd tr))
            rels ->
     exists out, _rank_memories ms kw rels = Ok out) /\
  (forall out, _rank_memories ms kw rels = Ok out ->
     Permutation (map ranked out) ms /\
     StronglySorted (fun a b => relevance_score b <= relevance_score a) out /\
     Forall (fun r => score_memory kw rels (ranked r) = Ok r /\
                      0 <= relevance_score r) out) /\
  _rank_memories [] kw rels = Ok [].
Proof.
  split; [|split; [|reflexivity]].
  { intros d -> Hrels. unfold _rank_memories.
    destruct (score_memories_returns d rels ms [] Hrels) as (out & ->).
    cbn. eexists. reflexivity. }
  unfold _rank_memories. intros out H.
  destruct (score_memories kw rels ms []) as [scored|e] eqn:E; cbn in H; [|discriminate].
  injection H as <-. apply score_memories_spec in E.
  destruct E as (scored' & -> & Hm & HF). cbn [app].
  split; [|split].
  - rewrite <- Hm. apply Permutation_map. apply Permutation_sym, sort_ranked_perm.
  - apply sort_ranked_sorted.
  - eapply Permutation_Forall; [apply sort_ranked_perm|].
    eapply Forall_impl; [|exact HF]. cbn. intros r Hr. split; [exact Hr|].
    apply score_memory_spec in Hr. apply Hr.
Qed.

Lemma score_terms_hit (text : string) (ts : list string) (acc s : Q) :
  score_terms text (map JStr ts) acc = Ok s ->
  existsb (fun k => contains (lower k) text) ts = true -> acc + 1 <= s.
Proof.
  revert acc. induction ts as [|t ts IH]; intros acc H Hex; cbn in H, Hex.
  - discriminate.
  - destruct (contains (lower t) text).
    + apply (score_terms_grows text (map JStr ts)) in H. exact H.
    + cbn in Hex. apply IH in H; [|exact Hex]. exact H.
Qed.

Lemma score_keywords_hit (text : string) (d : list (string * list string))
    (acc s : Q) :
  score_keywords text (map (fun ct => JList (map JStr (snd ct))) d) acc = Ok s ->
  existsb (fun k => contains (lower k) text) (List.concat (map snd d)) = true ->
  acc + 1 <= s.
Proof.
  revert acc. induction d as [|[c ts] d IH]; intros acc H Hex; cbn in H, Hex.
  - discriminate.
  - destruct (score_terms text (map JStr ts) acc) as [s1|e] eqn:E; cbn in H;
      [|discriminate].
    rewrite existsb_app in Hex. apply orb_true_iff in Hex. destruct Hex as [Hex | Hex].
    + apply score_terms_hit in E; [|exact Hex].
      apply score_keywords_grows in H. lra.
    + apply score_terms_grows in E. apply IH in H; [|exact Hex]. lra.
Qed.

(** X25: Ranking the memories that [search_memories] found for the terms of a
    keyword map against that same map gives every memory a score of at
    least 1: a memory is found only through a term that then counts. *)
Theorem found_memories_score_at_least_one (story_data : StoryData)
    (d : list (string * list string)) (rels : relationships)
    (hits : list FoundMemory) (out : list RankedMemory) :
  search_memories story_data (map JStr (List.concat (map snd d))) = Ok hits ->
  _rank_memories hits
    (JDict (map (fun ct => (fst ct, JList (map JStr (snd ct)))) d)) rels = Ok out ->
  Forall (fun r => 1 <= relevance_score r) out.
Proof.
  intros Hsearch Hrank.
  unfold search_memories in Hsearch.
  rewrite search_interviews_flat, search_interview_strings in Hsearch.
  injection Hsearch as <-. cbn [app] in Hrank.
  unfold _rank_memories in Hrank.
  destruct (score_memories _ rels _ []) as [scored|e] eqn:E; cbn in Hrank;
    [|discriminate].
  injection Hrank as <-. apply score_memories_spec in E.
  destruct E as (scored' & -> & Hm & HF). cbn [app].
  eapply Permutation_Forall; [apply sort_ranked_perm|].
  assert (Hin : forall r, In r scored' ->
            exists m, mentions (List.concat (map snd d)) m = true /\
                      ranked r = found m).
  { intros r Hr. apply (in_map ranked) in Hr. rewrite Hm in Hr.
    apply in_map_iff in Hr. destruct Hr as (m & Heq & Hmem).
    apply filter_In in Hmem. exists m. split; [apply Hmem | symmetry; exact Heq]. }
  apply Forall_forall. intros r Hr.
  rewrite Forall_forall in HF. pose proof (HF r Hr) as Hscore.
  destruct (Hin r Hr) as (m & Hment & Heq).
  unfold score_memory in Hscore. rewrite Heq in Hscore.
  cbn [found found_description found_details] in Hscore.
  rewrite map_map in Hscore. cbn [snd] in Hscore.
  destruct (score_keywords _ _ 0) as [s1|e] eqn:E1; cbn in Hscore; [|discriminate].
  destruct (score_relationships _ rels s1) as [s2|e] eqn:E2; cbn in Hscore;
    [|discriminate].
  injection Hscore as Hr2. rewrite <- Hr2. cbn [relevance_score].
  apply score_keywords_hit in E1; [|exact Hment].
  apply score_relationships_grows in E2. lra.
Qed.

Lemma found_memories_score_at_least_one_witness :
  exists hits out,
    search_memories
      (mkStoryData None
         [mkInterview [mkMemory None 1980 "Fishing" "Fishing trip with Tom" "" "" None;
                       mkMemory None 1990 "Garden" "Planting roses" "" "" None]])
      (map JStr (List.concat (map snd [("people", ["Tom"]); ("events", ["trip"])])))
    = Ok hits /\
    _rank_memories hits
      (JDict (map (fun ct => (fst ct, JList (map JStr (snd ct))))
                [("people", ["Tom"]); ("events", ["trip"])])) []
    = Ok out /\
    Forall (fun r => 1 <= relevance_score r) out.
Proof.
  eexists. eexists. split; [vm_compute; reflexivity|].
  split; [vm_compute; reflexivity|].
  eapply (found_memories_score_at_least_one
            (mkStoryData None
               [mkInterview [mkMemory None 1980 "Fishing" "Fishing trip with Tom" "" "" None;
                             mkMemory None 1990 "Garden" "Planting roses" "" "" None]])
            [("people", ["Tom"]); ("events", ["trip"])] []);
    vm_compute; reflexivity.
Defined.

End AdaptiveDialogueFacts.
